(** * JunkDash: vehicle dynamics and cargo containment

    A shallow embedding of the driving, collision and cargo-supervision code
    of the JunkDash truck ([Truck], [Game], [PhysicsSystem]) together with the
    properties its specification states about it.

    JavaScript numbers are modelled as real numbers: [Math.cos], [Math.sin]
    and [Math.sqrt] are the functions [cos], [sin] and [sqrt] of the Standard
    Library, and rounding, NaN and infinities are outside the model.  Logging,
    audio, rendering, performance counters, item orientations and CCD flags
    are left out; the fields that steer control flow, positions and
    velocities are kept. *)

From Stdlib Require Import Reals Lra List ZArith Bool Lia.
Import ListNotations.
Open Scope R_scope.

(** ** JavaScript primitives *)

Module JS.

Definition ltb (a b : R) : bool := if Rlt_dec a b then true else false.
Definition leb (a b : R) : bool := if Rle_dec a b then true else false.
Definition gtb (a b : R) : bool := ltb b a.
Definition geb (a b : R) : bool := leb b a.
Definition eqb (a b : R) : bool := if Req_dec_T a b then true else false.

(** Truthiness of a number: [0] is falsy. *)
Definition truthy (a : R) : bool := negb (eqb a 0).

(** [a || d] on numbers. *)
Definition or_default (a d : R) : R := if truthy a then a else d.

(** [Math.sign]. *)
Definition sign (a : R) : R :=
  if ltb 0 a then 1 else if ltb a 0 then -1 else 0.

(** [Math.round]: the integer nearest to [a], halves rounded up. *)
Definition round (a : R) : Z := Int_part (a + /2).

End JS.


(** ** World geometry supplied by the scene manager *)

(** A house mesh as the collision code reads it.  [collisionRadiusXZ],
    [houseWidth], [houseDepth] and [houseRotation] are read through
    [|| default], so an absent field is the falsy number [0]. *)
Record House := mkHouse {
  house_x : R;
  house_z : R;
  house_isDisposed : bool;
  collisionRadiusXZ : R;
  houseWidth : R;
  houseDepth : R;
  houseRotation : R
}.

(** One entry of [destinationWallBounds]. *)
Record WallBound := mkWallBound { minX : R; maxX : R; minZ : R; maxZ : R }.

(** A destination wall mesh, known to the model only through its identity
    and its disposal flag. *)
Record WallMesh := mkWallMesh { wall_id : nat; wall_isDisposed : bool }.

(** [housesByTile] is an object keyed by the string [gx_gz]; the key is kept
    as the pair of tile indices it is printed from.  A slot of a tile array
    may hold [null]. *)
Definition TileKey : Type := (Z * Z)%type.

Record SceneManager := mkSceneManager {
  destinationWallBounds : option (list WallBound);
  housesByTile : option (list (TileKey * option (list (option House))));
  pickupHouse : option House;
  destinationWalls : option (list (option WallMesh));
  groundTileSize : R
}.

(** ** The truck *)

Record Keys := mkKeys {
  key_w : bool;
  key_a : bool;
  key_s : bool;
  key_d : bool;
  key_space : bool
}.

Definition noKeys : Keys := mkKeys false false false false false.

(** The transform node every visual truck mesh is parented to. *)
Record RootNode := mkRootNode { root_x : R; root_z : R; root_rotY : R }.

(** [_collisionCache]. *)
Record CollisionCache := mkCollisionCache {
  cache_frameId : Z;
  cache_posX : R;
  cache_posZ : R;
  cache_rotY : R;
  cache_result : bool
}.

(** The mutable fields of [Truck].  [turnInput], [driftAngle] and
    [isDrifting] start out [undefined] and are initialised lazily by
    [updateDriving]; [_truckWorldVelX/Z] are [undefined] until the first
    frame.  [loadedItems] holds references (indices into the item store). *)
Record Truck := mkTruck {
  position_x : R;
  position_z : R;
  rotation : R;
  speed : R;
  prevSpeed : R;
  currentAcceleration : R;
  turnRate : R;
  autoBrakeTimer : R;
  currentGear : Z;
  gearJustChanged : bool;
  keys : Keys;
  turnInput : option R;
  driftAngle : option R;
  isDrifting : option bool;
  _truckWorldVelX : option R;
  _truckWorldVelZ : option R;
  root : RootNode;
  _collisionCache : option CollisionCache;
  sceneManager : option SceneManager;
  loadedItems : list nat;
  enableItemPhysics : bool
}.

(** Constants the constructor assigns and nothing reassigns. *)
Definition cargoLength : R := 4.8.
Definition cargoWidth : R := 2.4.
Definition floorTopY : R := 1.25.
Definition maxSpeed : R := 110.
Definition baseAcceleration : R := 15.
Definition deceleration : R := 18.
Definition brakeDeceleration : R := 60.
Definition turnSpeed : R := 1.9.
Definition rearAxleOffset : R := 2.5.
Definition gearSpeeds : list R := [0; 25; 50; 75; 95; 110].
Definition gearDownSpeeds : list R := [0; 20; 45; 70; 90; 105].
Definition gearAcceleration : list R := [12; 12; 8; 5; 3; 1.5].

(** Field updates. *)
Definition set_position_x (v : R) (t : Truck) : Truck :=
  {| position_x := v; position_z := position_z t; rotation := rotation t;
     speed := speed t; prevSpeed := prevSpeed t;
     currentAcceleration := currentAcceleration t; turnRate := turnRate t;
     autoBrakeTimer := autoBrakeTimer t; currentGear := currentGear t;
     gearJustChanged := gearJustChanged t; keys := keys t;
     turnInput := turnInput t; driftAngle := driftAngle t;
     isDrifting := isDrifting t; _truckWorldVelX := _truckWorldVelX t;
     _truckWorldVelZ := _truckWorldVelZ t; root := root t;
     _collisionCache := _collisionCache t; sceneManager := sceneManager t;
     loadedItems := loadedItems t;
     enableItemPhysics := enableItemPhysics t |}.

Definition set_position_z (v : R) (t : Truck) : Truck :=
  {| position_x := position_x t; position_z := v; rotation := rotation t;
     speed := speed t; prevSpeed := prevSpeed t;
     currentAcceleration := currentAcceleration t; turnRate := turnRate t;
     autoBrakeTimer := autoBrakeTimer t; currentGear := currentGear t;
     gearJustChanged := gearJustChanged t; keys := keys t;
     turnInput := turnInput t; driftAngle := driftAngle t;
     isDrifting := isDrifting t; _truckWorldVelX := _truckWorldVelX t;
     _truckWorldVelZ := _truckWorldVelZ t; root := root t;
     _collisionCache := _collisionCache t; sceneManager := sceneManager t;
     loadedItems := loadedItems t;
     enableItemPhysics := enableItemPhysics t |}.

Definition set_rotation (v : R) (t : Truck) : Truck :=
  {| position_x := position_x t; position_z := position_z t; rotation := v;
     speed := speed t; prevSpeed := prevSpeed t;
     currentAcceleration := currentAcceleration t; turnRate := turnRate t;
     autoBrakeTimer := autoBrakeTimer t; currentGear := currentGear t;
     gearJustChanged := gearJustChanged t; keys := keys t;
     turnInput := turnInput t; driftAngle := driftAngle t;
     isDrifting := isDrifting t; _truckWorldVelX := _truckWorldVelX t;
     _truckWorldVelZ := _truckWorldVelZ t; root := root t;
     _collisionCache := _collisionCache t; sceneManager := sceneManager t;
     loadedItems := loadedItems t;
     enableItemPhysics := enableItemPhysics t |}.

Definition set_speed (v : R) (t : Truck) : Truck :=
  {| position_x := position_x t; position_z := position_z t;
     rotation := rotation t; speed := v; prevSpeed := prevSpeed t;
     currentAcceleration := currentAcceleration t; turnRate := turnRate t;
     autoBrakeTimer := autoBrakeTimer t; currentGear := currentGear t;
     gearJustChanged := gearJustChanged t; keys := keys t;
     turnInput := turnInput t; driftAngle := driftAngle t;
     isDrifting := isDrifting t; _truckWorldVelX := _truckWorldVelX t;
     _truckWorldVelZ := _truckWorldVelZ t; root := root t;
     _collisionCache := _collisionCache t; sceneManager := sceneManager t;
     loadedItems := loadedItems t;
     enableItemPhysics := enableItemPhysics t |}.

Definition set_prevSpeed (v : R) (t : Truck) : Truck :=
  {| position_x := position_x t; position_z := position_z t;
     rotation := rotation t; speed := speed t; prevSpeed := v;
     currentAcceleration := currentAcceleration t; turnRate := turnRate t;
     autoBrakeTimer := autoBrakeTimer t; currentGear := currentGear t;
     gearJustChanged := gearJustChanged t; keys := keys t;
     turnInput := turnInput t; driftAngle := driftAngle t;
     isDrifting := isDrifting t; _truckWorldVelX := _truckWorldVelX t;
     _truckWorldVelZ := _truckWorldVelZ t; root := root t;
     _collisionCache := _collisionCache t; sceneManager := sceneManager t;
     loadedItems := loadedItems t;
     enableItemPhysics := enableItemPhysics t |}.

Definition set_currentAcceleration (v : R) (t : Truck) : Truck :=
  {| position_x := position_x t; position_z := position_z t;
     rotation := rotation t; speed := speed t; prevSpeed := prevSpeed t;
     currentAcceleration := v; turnRate := turnRate t;
     autoBrakeTimer := autoBrakeTimer t; currentGear := currentGear t;
     gearJustChanged := gearJustChanged t; keys := keys t;
     turnInput := turnInput t; driftAngle := driftAngle t;
     isDrifting := isDrifting t; _truckWorldVelX := _truckWorldVelX t;
     _truckWorldVelZ := _truckWorldVelZ t; root := root t;
     _collisionCache := _collisionCache t; sceneManager := sceneManager t;
     loadedItems := loadedItems t;
     enableItemPhysics := enableItemPhysics t |}.

Definition set_turnRate (v : R) (t : Truck) : Truck :=
  {| position_x := position_x t; position_z := position_z t;
     rotation := rotation t; speed := speed t; prevSpeed := prevSpeed t;
     currentAcceleration := currentAcceleration t; turnRate := v;
     autoBrakeTimer := autoBrakeTimer t; currentGear := currentGear t;
     gearJustChanged := gearJustChanged t; keys := keys t;
     turnInput := turnInput t; driftAngle := driftAngle t;
     isDrifting := isDrifting t; _truckWorldVelX := _truckWorldVelX t;
     _truckWorldVelZ := _truckWorldVelZ t; root := root t;
     _collisionCache := _collisionCache t; sceneManager := sceneManager t;
     loadedItems := loadedItems t;
     enableItemPhysics := enableItemPhysics t |}.

Definition set_autoBrakeTimer (v : R) (t : Truck) : Truck :=
  {| position_x := position_x t; position_z := position_z t;
     rotation := rotation t; speed := speed t; prevSpeed := prevSpeed t;
     currentAcceleration := currentAcceleration t; turnRate := turnRate t;
     autoBrakeTimer := v; currentGear := currentGear t;
     gearJustChanged := gearJustChanged t; keys := keys t;
     turnInput := turnInput t; driftAngle := driftAngle t;
     isDrifting := isDrifting t; _truckWorldVelX := _truckWorldVelX t;
     _truckWorldVelZ := _truckWorldVelZ t; root := root t;
     _collisionCache := _collisionCache t; sceneManager := sceneManager t;
     loadedItems := loadedItems t;
     enableItemPhysics := enableItemPhysics t |}.

Definition set_currentGear (v : Z) (t : Truck) : Truck :=
  {| position_x := position_x t; position_z := position_z t;
     rotation := rotation t; speed := speed t; prevSpeed := prevSpeed t;
     currentAcceleration := currentAcceleration t; turnRate := turnRate t;
     autoBrakeTimer := autoBrakeTimer t; currentGear := v;
     gearJustChanged := gearJustChanged t; keys := keys t;
     turnInput := turnInput t; driftAngle := driftAngle t;
     isDrifting := isDrifting t; _truckWorldVelX := _truckWorldVelX t;
     _truckWorldVelZ := _truckWorldVelZ t; root := root t;
     _collisionCache := _collisionCache t; sceneManager := sceneManager t;
     loadedItems := loadedItems t;
     enableItemPhysics := enableItemPhysics t |}.

Definition set_gearJustChanged (v : bool) (t : Truck) : Truck :=
  {| position_x := position_x t; position_z := position_z t;
     rotation := rotation t; speed := speed t; prevSpeed := prevSpeed t;
     currentAcceleration := currentAcceleration t; turnRate := turnRate t;
     autoBrakeTimer := autoBrakeTimer t; currentGear := currentGear t;
     gearJustChanged := v; keys := keys t; turnInput := turnInput t;
     driftAngle := driftAngle t; isDrifting := isDrifting t;
     _truckWorldVelX := _truckWorldVelX t;
     _truckWorldVelZ := _truckWorldVelZ t; root := root t;
     _collisionCache := _collisionCache t; sceneManager := sceneManager t;
     loadedItems := loadedItems t;
     enableItemPhysics := enableItemPhysics t |}.

Definition set_keys (v : Keys) (t : Truck) : Truck :=
  {| position_x := position_x t; position_z := position_z t;
     rotation := rotation t; speed := speed t; prevSpeed := prevSpeed t;
     currentAcceleration := currentAcceleration t; turnRate := turnRate t;
     autoBrakeTimer := autoBrakeTimer t; currentGear := currentGear t;
     gearJustChanged := gearJustChanged t; keys := v;
     turnInput := turnInput t; driftAngle := driftAngle t;
     isDrifting := isDrifting t; _truckWorldVelX := _truckWorldVelX t;
     _truckWorldVelZ := _truckWorldVelZ t; root := root t;
     _collisionCache := _collisionCache t; sceneManager := sceneManager t;
     loadedItems := loadedItems t;
     enableItemPhysics := enableItemPhysics t |}.

Definition set_turnInput (v : option R) (t : Truck) : Truck :=
  {| position_x := position_x t; position_z := position_z t;
     rotation := rotation t; speed := speed t; prevSpeed := prevSpeed t;
     currentAcceleration := currentAcceleration t; turnRate := turnRate t;
     autoBrakeTimer := autoBrakeTimer t; currentGear := currentGear t;
     gearJustChanged := gearJustChanged t; keys := keys t; turnInput := v;
     driftAngle := driftAngle t; isDrifting := isDrifting t;
     _truckWorldVelX := _truckWorldVelX t;
     _truckWorldVelZ := _truckWorldVelZ t; root := root t;
     _collisionCache := _collisionCache t; sceneManager := sceneManager t;
     loadedItems := loadedItems t;
     enableItemPhysics := enableItemPhysics t |}.

Definition set_driftAngle (v : option R) (t : Truck) : Truck :=
  {| position_x := position_x t; position_z := position_z t;
     rotation := rotation t; speed := speed t; prevSpeed := prevSpeed t;
     currentAcceleration := currentAcceleration t; turnRate := turnRate t;
     autoBrakeTimer := autoBrakeTimer t; currentGear := currentGear t;
     gearJustChanged := gearJustChanged t; keys := keys t;
     turnInput := turnInput t; driftAngle := v; isDrifting := isDrifting t;
     _truckWorldVelX := _truckWorldVelX t;
     _truckWorldVelZ := _truckWorldVelZ t; root := root t;
     _collisionCache := _collisionCache t; sceneManager := sceneManager t;
     loadedItems := loadedItems t;
     enableItemPhysics := enableItemPhysics t |}.

Definition set_isDrifting (v : option bool) (t : Truck) : Truck :=
  {| position_x := position_x t; position_z := position_z t;
     rotation := rotation t; speed := speed t; prevSpeed := prevSpeed t;
     currentAcceleration := currentAcceleration t; turnRate := turnRate t;
     autoBrakeTimer := autoBrakeTimer t; currentGear := currentGear t;
     gearJustChanged := gearJustChanged t; keys := keys t;
     turnInput := turnInput t; driftAngle := driftAngle t; isDrifting := v;
     _truckWorldVelX := _truckWorldVelX t;
     _truckWorldVelZ := _truckWorldVelZ t; root := root t;
     _collisionCache := _collisionCache t; sceneManager := sceneManager t;
     loadedItems := loadedItems t;
     enableItemPhysics := enableItemPhysics t |}.

Definition set_truckWorldVelX (v : option R) (t : Truck) : Truck :=
  {| position_x := position_x t; position_z := position_z t;
     rotation := rotation t; speed := speed t; prevSpeed := prevSpeed t;
     currentAcceleration := currentAcceleration t; turnRate := turnRate t;
     autoBrakeTimer := autoBrakeTimer t; currentGear := currentGear t;
     gearJustChanged := gearJustChanged t; keys := keys t;
     turnInput := turnInput t; driftAngle := driftAngle t;
     isDrifting := isDrifting t; _truckWorldVelX := v;
     _truckWorldVelZ := _truckWorldVelZ t; root := root t;
     _collisionCache := _collisionCache t; sceneManager := sceneManager t;
     loadedItems := loadedItems t;
     enableItemPhysics := enableItemPhysics t |}.

Definition set_truckWorldVelZ (v : option R) (t : Truck) : Truck :=
  {| position_x := position_x t; position_z := position_z t;
     rotation := rotation t; speed := speed t; prevSpeed := prevSpeed t;
     currentAcceleration := currentAcceleration t; turnRate := turnRate t;
     autoBrakeTimer := autoBrakeTimer t; currentGear := currentGear t;
     gearJustChanged := gearJustChanged t; keys := keys t;
     turnInput := turnInput t; driftAngle := driftAngle t;
     isDrifting := isDrifting t; _truckWorldVelX := _truckWorldVelX t;
     _truckWorldVelZ := v; root := root t;
     _collisionCache := _collisionCache t; sceneManager := sceneManager t;
     loadedItems := loadedItems t;
     enableItemPhysics := enableItemPhysics t |}.

Definition set_root (v : RootNode) (t : Truck) : Truck :=
  {| position_x := position_x t; position_z := position_z t;
     rotation := rotation t; speed := speed t; prevSpeed := prevSpeed t;
     currentAcceleration := currentAcceleration t; turnRate := turnRate t;
     autoBrakeTimer := autoBrakeTimer t; currentGear := currentGear t;
     gearJustChanged := gearJustChanged t; keys := keys t;
     turnInput := turnInput t; driftAngle := driftAngle t;
     isDrifting := isDrifting t; _truckWorldVelX := _truckWorldVelX t;
     _truckWorldVelZ := _truckWorldVelZ t; root := v;
     _collisionCache := _collisionCache t; sceneManager := sceneManager t;
     loadedItems := loadedItems t;
     enableItemPhysics := enableItemPhysics t |}.

Definition set_collisionCache (v : option CollisionCache) (t : Truck) : Truck :=
  {| position_x := position_x t; position_z := position_z t;
     rotation := rotation t; speed := speed t; prevSpeed := prevSpeed t;
     currentAcceleration := currentAcceleration t; turnRate := turnRate t;
     autoBrakeTimer := autoBrakeTimer t; currentGear := currentGear t;
     gearJustChanged := gearJustChanged t; keys := keys t;
     turnInput := turnInput t; driftAngle := driftAngle t;
     isDrifting := isDrifting t; _truckWorldVelX := _truckWorldVelX t;
     _truckWorldVelZ := _truckWorldVelZ t; root := root t;
     _collisionCache := v; sceneManager := sceneManager t;
     loadedItems := loadedItems t;
     enableItemPhysics := enableItemPhysics t |}.

Definition set_sceneManager (v : option SceneManager) (t : Truck) : Truck :=
  {| position_x := position_x t; position_z := position_z t;
     rotation := rotation t; speed := speed t; prevSpeed := prevSpeed t;
     currentAcceleration := currentAcceleration t; turnRate := turnRate t;
     autoBrakeTimer := autoBrakeTimer t; currentGear := currentGear t;
     gearJustChanged := gearJustChanged t; keys := keys t;
     turnInput := turnInput t; driftAngle := driftAngle t;
     isDrifting := isDrifting t; _truckWorldVelX := _truckWorldVelX t;
     _truckWorldVelZ := _truckWorldVelZ t; root := root t;
     _collisionCache := _collisionCache t; sceneManager := v;
     loadedItems := loadedItems t;
     enableItemPhysics := enableItemPhysics t |}.

Definition set_loadedItems (v : list nat) (t : Truck) : Truck :=
  {| position_x := position_x t; position_z := position_z t;
     rotation := rotation t; speed := speed t; prevSpeed := prevSpeed t;
     currentAcceleration := currentAcceleration t; turnRate := turnRate t;
     autoBrakeTimer := autoBrakeTimer t; currentGear := currentGear t;
     gearJustChanged := gearJustChanged t; keys := keys t;
     turnInput := turnInput t; driftAngle := driftAngle t;
     isDrifting := isDrifting t; _truckWorldVelX := _truckWorldVelX t;
     _truckWorldVelZ := _truckWorldVelZ t; root := root t;
     _collisionCache := _collisionCache t; sceneManager := sceneManager t;
     loadedItems := v; enableItemPhysics := enableItemPhysics t |}.

Definition set_enableItemPhysics (v : bool) (t : Truck) : Truck :=
  {| position_x := position_x t; position_z := position_z t;
     rotation := rotation t; speed := speed t; prevSpeed := prevSpeed t;
     currentAcceleration := currentAcceleration t; turnRate := turnRate t;
     autoBrakeTimer := autoBrakeTimer t; currentGear := currentGear t;
     gearJustChanged := gearJustChanged t; keys := keys t;
     turnInput := turnInput t; driftAngle := driftAngle t;
     isDrifting := isDrifting t; _truckWorldVelX := _truckWorldVelX t;
     _truckWorldVelZ := _truckWorldVelZ t; root := root t;
     _collisionCache := _collisionCache t; sceneManager := sceneManager t;
     loadedItems := loadedItems t; enableItemPhysics := v |}.


(** The truck as the constructor and [create] leave it. *)
Definition newTruck (sm : option SceneManager) : Truck :=
  {| position_x := 0; position_z := 0; rotation := 0; speed := 0;
     prevSpeed := 0; currentAcceleration := 0; turnRate := 0;
     autoBrakeTimer := 0; currentGear := 0%Z; gearJustChanged := false;
     keys := noKeys; turnInput := None; driftAngle := None;
     isDrifting := None; _truckWorldVelX := None; _truckWorldVelZ := None;
     root := mkRootNode 0 0 0; _collisionCache := None; sceneManager := sm;
     loadedItems := []; enableItemPhysics := true |}.

(** ** Drivetrain *)

(** [updateGear], lines "Determine direction" onwards.  [gearThreshold]
    is the threshold the loop body compares [absSpeed] with for gear [g]:
    the downshift table when the truck is in gear [g] or higher, the upshift
    table otherwise. *)
Definition gearThreshold (cur : Z) (g : Z) : R :=
  if (g <=? cur)%Z then nth (Z.to_nat g) gearDownSpeeds 0
  else nth (Z.to_nat g) gearSpeeds 0.

Definition gearThresholdMet (cur : Z) (absSpeed : R) (g : Z) : bool :=
  JS.geb absSpeed (gearThreshold cur g).

(** The [for (let g = 1; g <= 5; g++)] loop, started from [newGear = 1]. *)
Definition forwardGear (cur : Z) (absSpeed : R) : Z :=
  fold_left
    (fun newGear g => if gearThresholdMet cur absSpeed g then g else newGear)
    [1; 2; 3; 4; 5]%Z 1%Z.

Definition nextGear (cur : Z) (spd : R) : Z :=
  if JS.gtb spd 0.5 then (-1)%Z
  else if JS.ltb spd (-0.5) then forwardGear cur (Rabs spd)
  else 0%Z.

Definition updateGear (t : Truck) : Truck :=
  let prevGear := currentGear t in
  let t1 := set_currentGear (nextGear prevGear (speed t)) t in
  set_gearJustChanged
    (negb (prevGear =? currentGear t1)%Z
     && negb (prevGear =? 0)%Z && negb (currentGear t1 =? 0)%Z) t1.

(** [this.gearAcceleration[Math.max(0, this.currentGear)] || this.baseAcceleration] *)
Definition gearAccel (t : Truck) : R :=
  match nth_error gearAcceleration (Z.to_nat (Z.max 0 (currentGear t))) with
  | Some acc => JS.or_default acc baseAcceleration
  | None => baseAcceleration
  end.

Definition effectiveKeys (inputEnabled : bool) (t : Truck) : Keys :=
  if inputEnabled then keys t else noKeys.

(** Auto-brake countdown. *)
Definition autoBrakeCountdown (dt : R) (t : Truck) : Truck :=
  if JS.gtb (autoBrakeTimer t) 0
  then set_autoBrakeTimer (Rmax 0 (autoBrakeTimer t - dt)) t
  else t.

(** The acceleration / deceleration chain on [this.speed]. *)
Definition accelerate (k : Keys) (autoBraking : bool) (ga dt spd : R) : R :=
  if key_space k || autoBraking then
    if JS.gtb spd 0 then Rmax 0 (spd - brakeDeceleration * dt)
    else if JS.ltb spd 0 then Rmin 0 (spd + brakeDeceleration * dt)
    else spd
  else if key_w k then
    if JS.gtb spd 0 then Rmax 0 (spd - brakeDeceleration * dt)
    else spd - ga * dt
  else if key_s k then
    if JS.ltb spd 0 then Rmin 0 (spd + brakeDeceleration * dt)
    else spd + ga * dt
  else
    if JS.gtb spd 0 then Rmax 0 (spd - deceleration * dt)
    else if JS.ltb spd 0 then Rmin 0 (spd + deceleration * dt)
    else spd.

(** [Math.max(-this.maxSpeed, Math.min(this.maxSpeed * 0.3, this.speed))] *)
Definition clampSpeed (spd : R) : R :=
  Rmax (- maxSpeed) (Rmin (maxSpeed * 0.3) spd).

(** "Ensure auto-brake comes to a full stop once the timer ends". *)
Definition settleSpeed (autoBraking : bool) (timer spd : R) : R :=
  if negb autoBraking && JS.eqb timer 0 && JS.ltb (Rabs spd) 0.2
  then 0 else spd.

(** The speed-update step of [updateDriving] up to and including the clamp.
    [k] is [effectiveKeys] and [dt] the capped delta time. *)
Definition speedClamped (k : Keys) (dt : R) (t : Truck) : Truck :=
  let t1 := autoBrakeCountdown dt t in
  let autoBraking := JS.gtb (autoBrakeTimer t1) 0 in
  let t2 := set_prevSpeed (speed t1) t1 in
  let ga := gearAccel t2 in
  let t3 := set_speed (accelerate k autoBraking ga dt (speed t2)) t2 in
  set_speed (clampSpeed (speed t3)) t3.

(** The whole speed-update step: from the auto-brake countdown to the
    full-stop snap. *)
Definition speedUpdate (k : Keys) (dt : R) (t : Truck) : Truck :=
  let t4 := speedClamped k dt t in
  let autoBraking := JS.gtb (autoBrakeTimer t4) 0 in
  set_speed (settleSpeed autoBraking (autoBrakeTimer t4) (speed t4)) t4.

(** Lazily initialised fields read after their [=== undefined] guard. *)
Definition turnInputOf (t : Truck) : R :=
  match turnInput t with Some v => v | None => 0 end.

Definition driftAngleOf (t : Truck) : R :=
  match driftAngle t with Some v => v | None => 0 end.

Definition isDriftingOf (t : Truck) : bool :=
  match isDrifting t with Some b => b | None => false end.

(** The two [if (this.turnInput > 0.01)] / [if (this.turnInput < -0.01)]
    blocks: the rotation increment, the turn rate and the drift angle they
    leave.  [boost] is [driftTurnBoost] while drifting and [1] otherwise,
    [drifting] tells whether the drift angle builds up. *)
Definition steer (drifting : bool) (boost ets dt turnFactor ti : R)
                 (rate0 drift0 : R) : R * R * R :=
  let inputScale := Rmin 1 (Rabs ti) in
  let '(dRot, rate, drift) :=
    if JS.gtb ti 0.01 then
      (ets * dt * turnFactor * boost * inputScale,
       ets * turnFactor * boost * inputScale,
       if drifting then Rmin 0.15 (drift0 + dt * 0.8) else drift0)
    else (0, rate0, drift0) in
  if JS.ltb ti (-0.01) then
    (- ets * dt * turnFactor * boost * inputScale,
     - ets * turnFactor * boost * inputScale,
     if drifting then Rmax (-0.15) (drift - dt * 0.8) else drift)
  else (dRot, rate, drift).

(** Turning: from [this.turnRate = 0] to the end of the
    [if (Math.abs(this.speed) > 0.1)] statement. *)
Definition turning (k : Keys) (autoBraking : bool) (dt : R) (t : Truck) : Truck :=
  let t := set_turnRate 0 t in
  let rawTurnInput :=
    (if key_a k then 1 else 0) + (if key_d k then -1 else 0) in
  let turnLerp := Rmin 1 (dt * 12) in
  let t :=
    set_turnInput
      (Some (turnInputOf t + (rawTurnInput - turnInputOf t) * turnLerp)) t in
  let isTurning := JS.gtb (Rabs rawTurnInput) 0.01 in
  let isBraking := key_space k || key_s k || autoBraking in
  let t := set_driftAngle (Some (driftAngleOf t)) t in
  let t := set_isDrifting (Some (isDriftingOf t)) t in
  let speedThreshold := maxSpeed * 0.3 in
  let canDrift :=
    isBraking && isTurning && JS.gtb (Rabs (speed t)) speedThreshold in
  if JS.gtb (Rabs (speed t)) 0.1 then
    let turnFactor := if JS.ltb (speed t) 0 then -1 else 1 in
    let absSpeed := Rabs (speed t) in
    let speedTurnScale := Rmin 1 (absSpeed / 20) in
    let effectiveTurnSpeed := turnSpeed * speedTurnScale in
    let pivotBlend := Rmin 1 (absSpeed / 15) in
    let effectivePivotOffset := rearAxleOffset * pivotBlend in
    let pivotX := position_x t + sin (rotation t) * effectivePivotOffset in
    let pivotZ := position_z t + cos (rotation t) * effectivePivotOffset in
    let t := set_isDrifting (Some canDrift) t in
    let '(deltaRotation, rate, drift) :=
      steer canDrift (if canDrift then 1.3 else 1) effectiveTurnSpeed dt
            turnFactor (turnInputOf t) (turnRate t) (driftAngleOf t) in
    let t := set_driftAngle (Some drift) (set_turnRate rate t) in
    if negb (JS.eqb deltaRotation 0) then
      let t := set_rotation (rotation t + deltaRotation) t in
      let t :=
        set_position_x (pivotX - sin (rotation t) * effectivePivotOffset) t in
      set_position_z (pivotZ - cos (rotation t) * effectivePivotOffset) t
    else t
  else set_isDrifting (Some false) t.

(** "Decay drift angle when not drifting". *)
Definition driftDecay (t : Truck) : Truck :=
  if negb (isDriftingOf t) then
    let t := set_driftAngle (Some (driftAngleOf t * 0.9)) t in
    if JS.ltb (Rabs (driftAngleOf t)) 0.01
    then set_driftAngle (Some 0) t else t
  else t.

(** [applyTransform], restricted to the root node ([syncPhysicsBodies] and
    [updateCargoBounds] drive the bed's own bodies and the placement
    volume). *)
Definition applyTransform (t : Truck) : Truck :=
  set_root (mkRootNode (position_x t) (position_z t) (rotation t)) t.

(** [applyAutoBrake(duration)] *)
Definition applyAutoBrake (duration : R) (t : Truck) : Truck :=
  set_autoBrakeTimer (Rmax (autoBrakeTimer t) duration) t.

(** ** Collision broker *)

(** [truckHalfWidth], [truckFront], [truckBack] of [checkCollision]. *)
Definition truckHalfWidth : R := 1.3.
Definition truckFront : R := -4.3.
Definition truckBack : R := 2.4.

(** The perimeter sample points of [checkCollision], as (x, z) pairs in the
    order of the source (the [name] field only feeds the log). *)
Definition checkPoints : list (R * R) :=
  [ (- truckHalfWidth, truckFront); (truckHalfWidth, truckFront);
    (- truckHalfWidth, truckBack); (truckHalfWidth, truckBack);
    (- truckHalfWidth * 0.75, truckFront); (- truckHalfWidth * 0.5, truckFront);
    (- truckHalfWidth * 0.25, truckFront); (0, truckFront);
    (truckHalfWidth * 0.25, truckFront); (truckHalfWidth * 0.5, truckFront);
    (truckHalfWidth * 0.75, truckFront);
    (- truckHalfWidth * 0.75, truckBack); (- truckHalfWidth * 0.5, truckBack);
    (- truckHalfWidth * 0.25, truckBack); (0, truckBack);
    (truckHalfWidth * 0.25, truckBack); (truckHalfWidth * 0.5, truckBack);
    (truckHalfWidth * 0.75, truckBack);
    (- truckHalfWidth, truckFront * 0.85); (- truckHalfWidth, truckFront * 0.7);
    (- truckHalfWidth, truckFront * 0.55); (- truckHalfWidth, truckFront * 0.4);
    (- truckHalfWidth, truckFront * 0.25); (- truckHalfWidth, truckFront * 0.1);
    (- truckHalfWidth, 0);
    (- truckHalfWidth, truckBack * 0.33); (- truckHalfWidth, truckBack * 0.66);
    (truckHalfWidth, truckFront * 0.85); (truckHalfWidth, truckFront * 0.7);
    (truckHalfWidth, truckFront * 0.55); (truckHalfWidth, truckFront * 0.4);
    (truckHalfWidth, truckFront * 0.25); (truckHalfWidth, truckFront * 0.1);
    (truckHalfWidth, 0);
    (truckHalfWidth, truckBack * 0.33); (truckHalfWidth, truckBack * 0.66) ].

(** Number of elements of [l] on which the test [p] succeeds: what a
    [counter++] guarded by [p] adds up to over a loop on [l]. *)
Definition countIf {A : Type} (p : A -> bool) (l : list A) : nat :=
  length (filter p l).

(** A truck point carried to world space at the pose (px, pz, cos, sin). *)
Definition toWorldX (px truckCos truckSin : R) (pt : R * R) : R :=
  px + fst pt * truckCos - snd pt * truckSin.

Definition toWorldZ (pz truckCos truckSin : R) (pt : R * R) : R :=
  pz + fst pt * truckSin + snd pt * truckCos.

(** The point-in-rectangle test of [countWallCollisions]; [wallBuffer] is 0. *)
Definition insideWall (wall : WallBound) (wx wz : R) : bool :=
  let wallBuffer := 0 in
  let lowX := Rmin (minX wall) (maxX wall) in
  let highX := Rmax (minX wall) (maxX wall) in
  let lowZ := Rmin (minZ wall) (maxZ wall) in
  let highZ := Rmax (minZ wall) (maxZ wall) in
  JS.geb wx (lowX - wallBuffer) && JS.leb wx (highX + wallBuffer)
  && JS.geb wz (lowZ - wallBuffer) && JS.leb wz (highZ + wallBuffer).

(** Hits of the perimeter points, placed at (px, pz), on one wall. *)
Definition wallHits (wall : WallBound) (px pz truckCos truckSin : R)
                    (pts : list (R * R)) : nat :=
  countIf (fun pt => insideWall wall (toWorldX px truckCos truckSin pt)
                                     (toWorldZ pz truckCos truckSin pt)) pts.

(** [countWallCollisions]: the pair (newCollisions, currentCollisions). *)
Definition countWallCollisions (t : Truck) (sm : SceneManager)
    (newX newZ truckCos truckSin : R) (pts : list (R * R)) : nat * nat :=
  match destinationWallBounds sm with
  | None => (0, 0)%nat
  | Some walls =>
      fold_left
        (fun acc wall =>
           (fst acc + wallHits wall newX newZ truckCos truckSin pts,
            snd acc + wallHits wall (position_x t) (position_z t)
                               truckCos truckSin pts)%nat)
        walls (0, 0)%nat
  end.

(** [checkWallCollision] *)
Definition checkWallCollision (t : Truck) (sm : SceneManager)
    (newX newZ truckCos truckSin : R) (pts : list (R * R)) : bool :=
  (0 <? fst (countWallCollisions t sm newX newZ truckCos truckSin pts))%nat.

(** [allHouses]: the tile arrays in enumeration order, then the pickup
    house. *)
Definition allHouses (sm : SceneManager)
    (tiles : list (TileKey * option (list (option House)))) : list (option House) :=
  flat_map (fun kv => match snd kv with Some hs => hs | None => [] end) tiles
  ++ match pickupHouse sm with Some h => [Some h] | None => [] end.

(** The strict point-in-box test against a house footprint. *)
Definition insideHouse (house : House) (wx wz : R) : bool :=
  let houseHalfWidth := JS.or_default (houseWidth house) 6 / 2 in
  let houseHalfDepth := JS.or_default (houseDepth house) 6 / 2 in
  let houseRot := JS.or_default (houseRotation house) 0 in
  let houseCos := cos (- houseRot) in
  let houseSin := sin (- houseRot) in
  let relX := wx - house_x house in
  let relZ := wz - house_z house in
  let localX := relX * houseCos - relZ * houseSin in
  let localZ := relX * houseSin + relZ * houseCos in
  JS.ltb (Rabs localX) houseHalfWidth && JS.ltb (Rabs localZ) houseHalfDepth.

Definition houseHits (house : House) (px pz truckCos truckSin : R)
                     (pts : list (R * R)) : nat :=
  countIf (fun pt => insideHouse house (toWorldX px truckCos truckSin pt)
                                       (toWorldZ pz truckCos truckSin pt)) pts.

(** The house loop of [checkCollision]: null and disposed houses and houses
    further than [checkRadius] from the candidate position are skipped (a
    mesh always carries a position, so the [!house.position] guard never
    fires). *)
Definition countHouseCollisions (t : Truck) (sm : SceneManager)
    (newX newZ truckCos truckSin : R) (pts : list (R * R)) : nat * nat :=
  match housesByTile sm with
  | None => (0, 0)%nat
  | Some tiles =>
      let checkRadius := 20 in
      fold_left
        (fun acc oh =>
           match oh with
           | None => acc
           | Some house =>
               if house_isDisposed house then acc
               else
                 let dx := house_x house - newX in
                 let dz := house_z house - newZ in
                 let distSq := dx * dx + dz * dz in
                 if JS.gtb distSq (checkRadius * checkRadius) then acc
                 else
                   (fst acc + houseHits house newX newZ truckCos truckSin pts,
                    snd acc + houseHits house (position_x t) (position_z t)
                                        truckCos truckSin pts)%nat
           end)
        (allHouses sm tiles) (0, 0)%nat
  end.

(** The totals [checkCollision] decides on: (newCollisions,
    currentCollisions) over walls and houses together. *)
Definition collisionCounts (t : Truck) (sm : SceneManager) (newX newZ : R)
  : nat * nat :=
  let truckCos := cos (rotation t) in
  let truckSin := sin (rotation t) in
  let wallc := countWallCollisions t sm newX newZ truckCos truckSin checkPoints in
  let housec := countHouseCollisions t sm newX newZ truckCos truckSin checkPoints in
  (fst wallc + fst housec, snd wallc + snd housec)%nat.

(** [checkCollision(newX, newZ)]: [true] means the move is blocked.  The
    log cooldown counters do not influence the result and are left out. *)
Definition checkCollision (t : Truck) (newX newZ : R) : bool :=
  match sceneManager t with
  | None => false
  | Some sm =>
      let '(newCollisions, currentCollisions) := collisionCounts t sm newX newZ in
      if (0 <? currentCollisions)%nat then
        (currentCollisions <=? newCollisions)%nat
      else if (0 <? newCollisions)%nat then true
      else false
  end.

(** The truck's collision proxies, [this.collisionMeshes] as [create]
    caches it. *)
Inductive TruckMesh := collisionProxyCargo | collisionProxyCab.

Definition collisionMeshes : list TruckMesh :=
  [collisionProxyCargo; collisionProxyCab].

(** [this.collisionRadiusXZ = Math.hypot(truckHalfWidth, truckHalfLength)] *)
Definition truckCollisionRadiusXZ : R := sqrt (1.3 * 1.3 + 4.3 * 4.3).

(** What a truck mesh can be tested against. *)
Inductive Obstacle :=
| HouseObstacle (h : House)
| WallObstacle (wm : WallMesh).

Definition lookupTile (tiles : list (TileKey * option (list (option House))))
                      (gx gz : Z) : option (list (option House)) :=
  match find (fun kv => (fst (fst kv) =? gx)%Z && (snd (fst kv) =? gz)%Z) tiles with
  | Some kv => snd kv
  | None => None
  end.

Section MeshCollision.

(** [mesh.intersectsMesh(other, true)] of the rendering engine.  The truck
    meshes are children of the root node, so after
    [computeWorldMatrix(true)] their world pose — all the test can observe of
    the truck — is a function of the root node's position and rotation. *)
Variable intersectsMesh : RootNode -> TruckMesh -> Obstacle -> bool.

(** The inner [for (let t = 0; ...)] loops. *)
Definition anyTruckMeshHits (r : RootNode) (o : Obstacle) : bool :=
  existsb (fun m => intersectsMesh r m o) collisionMeshes.

Definition withinBroadPhase (h : House) (posX posZ : R) : bool :=
  let truckRadius := JS.or_default truckCollisionRadiusXZ 5 in
  let dx := house_x h - posX in
  let dz := house_z h - posZ in
  let houseRadius := JS.or_default (collisionRadiusXZ h) 10 in
  let maxDist := truckRadius + houseRadius in
  JS.leb (dx * dx + dz * dz) (maxDist * maxDist).

Definition houseCollides (r : RootNode) (posX posZ : R) (oh : option House) : bool :=
  match oh with
  | None => false
  | Some h =>
      negb (house_isDisposed h) && withinBroadPhase h posX posZ
      && anyTruckMeshHits r (HouseObstacle h)
  end.

(** The three obstacle passes of [checkMeshCollision], run with the root
    node at the test pose [r]. *)
Definition detectCollision (sm : SceneManager) (r : RootNode) (posX posZ : R) : bool :=
  let tileSize := JS.or_default (groundTileSize sm) 50 in
  let baseTileX := JS.round (posX / tileSize) in
  let baseTileZ := JS.round (posZ / tileSize) in
  let tileHit :=
    match housesByTile sm with
    | None => false
    | Some tiles =>
        existsb
          (fun gx =>
             existsb
               (fun gz =>
                  match lookupTile tiles gx gz with
                  | None => false
                  | Some houses => existsb (houseCollides r posX posZ) houses
                  end)
               [baseTileZ - 1; baseTileZ; baseTileZ + 1]%Z)
          [baseTileX - 1; baseTileX; baseTileX + 1]%Z
    end in
  let pickupHit :=
    tileHit
    || match pickupHouse sm with
       | None => false
       | Some h => houseCollides r posX posZ (Some h)
       end in
  pickupHit
  || match destinationWalls sm with
     | None => false
     | Some walls =>
         existsb
           (fun ow =>
              match ow with
              | None => false
              | Some wm =>
                  negb (wall_isDisposed wm)
                  && anyTruckMeshHits r (WallObstacle wm)
              end)
           walls
     end.

Definition cacheHit (c : option CollisionCache) (frameId : Z) (posX posZ rotY : R)
  : option bool :=
  match c with
  | Some e =>
      if (cache_frameId e =? frameId)%Z && JS.eqb (cache_posX e) posX
         && JS.eqb (cache_posZ e) posZ && JS.eqb (cache_rotY e) rotY
      then Some (cache_result e) else None
  | None => None
  end.

(** [checkMeshCollision(posX, posZ, rotY)]: the answer and the truck it
    leaves.  [frameId] is [scene.getFrameId()]. *)
Definition checkMeshCollision (frameId : Z) (posX posZ rotY : R) (t : Truck)
  : bool * Truck :=
  match sceneManager t with
  | None => (false, t)
  | Some sm =>
      match cacheHit (_collisionCache t) frameId posX posZ rotY with
      | Some result => (result, t)
      | None =>
          let oldX := root_x (root t) in
          let oldZ := root_z (root t) in
          let oldRotY := root_rotY (root t) in
          let t := set_root (mkRootNode posX posZ rotY) t in
          let collision := detectCollision sm (root t) posX posZ in
          let t := set_root (mkRootNode oldX oldZ oldRotY) t in
          (collision,
           set_collisionCache
             (Some (mkCollisionCache frameId posX posZ rotY collision)) t)
      end
  end.

(** "Prevent rotation that would intersect with nearby obstacles". *)
Definition rotationVeto (frameId : Z) (prevRotation prevPosX prevPosZ : R)
                        (t : Truck) : Truck :=
  if negb (JS.eqb (rotation t) prevRotation) then
    let '(rotationCollides, t) :=
      checkMeshCollision frameId (position_x t) (position_z t) (rotation t) t in
    if rotationCollides then
      let t := set_rotation prevRotation t in
      let t := set_position_x prevPosX t in
      let t := set_position_z prevPosZ t in
      let t := set_turnRate 0 t in
      set_driftAngle (Some 0) t
    else t
  else t.

(** The turn of one frame: the steering update followed by the veto, with
    the pose saved before the update as [updateDriving] saves it. *)
Definition rotationAttempt (frameId : Z) (k : Keys) (autoBraking : bool)
                           (dt : R) (t : Truck) : Truck :=
  let prevRotation := rotation t in
  let prevPosX := position_x t in
  let prevPosZ := position_z t in
  rotationVeto frameId prevRotation prevPosX prevPosZ
               (turning k autoBraking dt t).

(** Translation and final veto; returns the truck together with
    (moveX, moveZ). *)
Definition translate (frameId : Z) (dt : R) (t : Truck) : Truck * (R * R) :=
  let moveDirection := rotation t + driftAngleOf t in
  let speedMps := speed t * 0.44704 in
  let moveX := sin moveDirection * speedMps * dt in
  let moveZ := cos moveDirection * speedMps * dt in
  let t := set_truckWorldVelX (Some (if JS.gtb dt 0 then moveX / dt else 0)) t in
  let t := set_truckWorldVelZ (Some (if JS.gtb dt 0 then moveZ / dt else 0)) t in
  let newPosX := position_x t + moveX in
  let newPosZ := position_z t + moveZ in
  let '(wouldCollide, t) :=
    checkMeshCollision frameId newPosX newPosZ (rotation t) t in
  let t :=
    if negb wouldCollide
    then set_position_z newPosZ (set_position_x newPosX t)
    else set_speed (speed t * 0.5) t in
  (t, (moveX, moveZ)).

End MeshCollision.

(** ** Cargo items *)

Record Vec3 := mkVec3 { vx : R; vy : R; vz : R }.

Definition Vec3_Zero : Vec3 := mkVec3 0 0 0.

(** [BABYLON.PhysicsMotionType]: its three members. *)
Inductive MotionType := STATIC | ANIMATED | DYNAMIC.

(** A rigid body of the physics engine, as far as the truck reads and
    writes it.  The engine's bodies carry every accessor the source probes
    for ([setMotionType], [getLinearVelocity], ...), and their velocity
    getters return vectors. *)
Record Body := mkBody {
  motionType : MotionType;
  linearVelocity : Vec3;
  angularVelocity : Vec3;
  linearDamping : R;
  angularDamping : R;
  targetTransform : option Vec3
}.

Record PhysicsAggregate := mkPhysicsAggregate { body : option Body }.

Record PhysicsParams := mkPhysicsParams {
  params_mass : R;
  params_restitution : R;
  params_friction : R
}.

Record Mesh := mkMesh {
  mesh_position : Vec3;
  physicsAggregate : option PhysicsAggregate;
  _pendingPhysics : option PhysicsParams
}.

(** A placed item.  The timestamp fields ([createPhysicsAt],
    [becomeDynamicAt], [dampingBoostUntil], [lockLateralUntil],
    [_restoreMotionAt]) and the damping overrides are only read behind a
    truthiness test or [|| default], so an absent field is the falsy number
    [0].  [isParented] stands for
    [item.isParented && item.mesh.parent === truck.root]. *)
Record Item := mkItem {
  mesh : option Mesh;
  size : option Vec3;
  isFallen : bool;
  createPhysicsAt : R;
  becomeDynamicAt : R;
  dampingBoostUntil : R;
  _dampingBoosted : bool;
  lockLateralUntil : R;
  _restoreMotionAt : R;
  _restoreMotionType : option MotionType;
  localX : option R;
  localZ : option R;
  localY : option R;
  baseLinearDamping : R;
  baseAngularDamping : R;
  isParented : bool
}.

Definition set_motionType (v : MotionType) (t : Body) : Body :=
  {| motionType := v; linearVelocity := linearVelocity t;
     angularVelocity := angularVelocity t; linearDamping := linearDamping t;
     angularDamping := angularDamping t;
     targetTransform := targetTransform t |}.

Definition set_linearVelocity (v : Vec3) (t : Body) : Body :=
  {| motionType := motionType t; linearVelocity := v;
     angularVelocity := angularVelocity t; linearDamping := linearDamping t;
     angularDamping := angularDamping t;
     targetTransform := targetTransform t |}.

Definition set_angularVelocity (v : Vec3) (t : Body) : Body :=
  {| motionType := motionType t; linearVelocity := linearVelocity t;
     angularVelocity := v; linearDamping := linearDamping t;
     angularDamping := angularDamping t;
     targetTransform := targetTransform t |}.

Definition set_linearDamping (v : R) (t : Body) : Body :=
  {| motionType := motionType t; linearVelocity := linearVelocity t;
     angularVelocity := angularVelocity t; linearDamping := v;
     angularDamping := angularDamping t;
     targetTransform := targetTransform t |}.

Definition set_angularDamping (v : R) (t : Body) : Body :=
  {| motionType := motionType t; linearVelocity := linearVelocity t;
     angularVelocity := angularVelocity t; linearDamping := linearDamping t;
     angularDamping := v; targetTransform := targetTransform t |}.

Definition set_targetTransform (v : option Vec3) (t : Body) : Body :=
  {| motionType := motionType t; linearVelocity := linearVelocity t;
     angularVelocity := angularVelocity t; linearDamping := linearDamping t;
     angularDamping := angularDamping t; targetTransform := v |}.

Definition set_mesh_position (v : Vec3) (t : Mesh) : Mesh :=
  {| mesh_position := v; physicsAggregate := physicsAggregate t;
     _pendingPhysics := _pendingPhysics t |}.

Definition set_physicsAggregate (v : option PhysicsAggregate) (t : Mesh) : Mesh :=
  {| mesh_position := mesh_position t; physicsAggregate := v;
     _pendingPhysics := _pendingPhysics t |}.

Definition set_pendingPhysics (v : option PhysicsParams) (t : Mesh) : Mesh :=
  {| mesh_position := mesh_position t;
     physicsAggregate := physicsAggregate t; _pendingPhysics := v |}.

Definition set_mesh (v : option Mesh) (t : Item) : Item :=
  {| mesh := v; size := size t; isFallen := isFallen t;
     createPhysicsAt := createPhysicsAt t;
     becomeDynamicAt := becomeDynamicAt t;
     dampingBoostUntil := dampingBoostUntil t;
     _dampingBoosted := _dampingBoosted t;
     lockLateralUntil := lockLateralUntil t;
     _restoreMotionAt := _restoreMotionAt t;
     _restoreMotionType := _restoreMotionType t; localX := localX t;
     localZ := localZ t; localY := localY t;
     baseLinearDamping := baseLinearDamping t;
     baseAngularDamping := baseAngularDamping t;
     isParented := isParented t |}.

Definition set_isFallen (v : bool) (t : Item) : Item :=
  {| mesh := mesh t; size := size t; isFallen := v;
     createPhysicsAt := createPhysicsAt t;
     becomeDynamicAt := becomeDynamicAt t;
     dampingBoostUntil := dampingBoostUntil t;
     _dampingBoosted := _dampingBoosted t;
     lockLateralUntil := lockLateralUntil t;
     _restoreMotionAt := _restoreMotionAt t;
     _restoreMotionType := _restoreMotionType t; localX := localX t;
     localZ := localZ t; localY := localY t;
     baseLinearDamping := baseLinearDamping t;
     baseAngularDamping := baseAngularDamping t;
     isParented := isParented t |}.

Definition set_createPhysicsAt (v : R) (t : Item) : Item :=
  {| mesh := mesh t; size := size t; isFallen := isFallen t;
     createPhysicsAt := v; becomeDynamicAt := becomeDynamicAt t;
     dampingBoostUntil := dampingBoostUntil t;
     _dampingBoosted := _dampingBoosted t;
     lockLateralUntil := lockLateralUntil t;
     _restoreMotionAt := _restoreMotionAt t;
     _restoreMotionType := _restoreMotionType t; localX := localX t;
     localZ := localZ t; localY := localY t;
     baseLinearDamping := baseLinearDamping t;
     baseAngularDamping := baseAngularDamping t;
     isParented := isParented t |}.

Definition set_becomeDynamicAt (v : R) (t : Item) : Item :=
  {| mesh := mesh t; size := size t; isFallen := isFallen t;
     createPhysicsAt := createPhysicsAt t; becomeDynamicAt := v;
     dampingBoostUntil := dampingBoostUntil t;
     _dampingBoosted := _dampingBoosted t;
     lockLateralUntil := lockLateralUntil t;
     _restoreMotionAt := _restoreMotionAt t;
     _restoreMotionType := _restoreMotionType t; localX := localX t;
     localZ := localZ t; localY := localY t;
     baseLinearDamping := baseLinearDamping t;
     baseAngularDamping := baseAngularDamping t;
     isParented := isParented t |}.

Definition set_dampingBoostUntil (v : R) (t : Item) : Item :=
  {| mesh := mesh t; size := size t; isFallen := isFallen t;
     createPhysicsAt := createPhysicsAt t;
     becomeDynamicAt := becomeDynamicAt t; dampingBoostUntil := v;
     _dampingBoosted := _dampingBoosted t;
     lockLateralUntil := lockLateralUntil t;
     _restoreMotionAt := _restoreMotionAt t;
     _restoreMotionType := _restoreMotionType t; localX := localX t;
     localZ := localZ t; localY := localY t;
     baseLinearDamping := baseLinearDamping t;
     baseAngularDamping := baseAngularDamping t;
     isParented := isParented t |}.

Definition set_dampingBoosted (v : bool) (t : Item) : Item :=
  {| mesh := mesh t; size := size t; isFallen := isFallen t;
     createPhysicsAt := createPhysicsAt t;
     becomeDynamicAt := becomeDynamicAt t;
     dampingBoostUntil := dampingBoostUntil t; _dampingBoosted := v;
     lockLateralUntil := lockLateralUntil t;
     _restoreMotionAt := _restoreMotionAt t;
     _restoreMotionType := _restoreMotionType t; localX := localX t;
     localZ := localZ t; localY := localY t;
     baseLinearDamping := baseLinearDamping t;
     baseAngularDamping := baseAngularDamping t;
     isParented := isParented t |}.

Definition set_lockLateralUntil (v : R) (t : Item) : Item :=
  {| mesh := mesh t; size := size t; isFallen := isFallen t;
     createPhysicsAt := createPhysicsAt t;
     becomeDynamicAt := becomeDynamicAt t;
     dampingBoostUntil := dampingBoostUntil t;
     _dampingBoosted := _dampingBoosted t; lockLateralUntil := v;
     _restoreMotionAt := _restoreMotionAt t;
     _restoreMotionType := _restoreMotionType t; localX := localX t;
     localZ := localZ t; localY := localY t;
     baseLinearDamping := baseLinearDamping t;
     baseAngularDamping := baseAngularDamping t;
     isParented := isParented t |}.

Definition set_restoreMotionAt (v : R) (t : Item) : Item :=
  {| mesh := mesh t; size := size t; isFallen := isFallen t;
     createPhysicsAt := createPhysicsAt t;
     becomeDynamicAt := becomeDynamicAt t;
     dampingBoostUntil := dampingBoostUntil t;
     _dampingBoosted := _dampingBoosted t;
     lockLateralUntil := lockLateralUntil t; _restoreMotionAt := v;
     _restoreMotionType := _restoreMotionType t; localX := localX t;
     localZ := localZ t; localY := localY t;
     baseLinearDamping := baseLinearDamping t;
     baseAngularDamping := baseAngularDamping t;
     isParented := isParented t |}.

Definition set_restoreMotionType (v : option MotionType) (t : Item) : Item :=
  {| mesh := mesh t; size := size t; isFallen := isFallen t;
     createPhysicsAt := createPhysicsAt t;
     becomeDynamicAt := becomeDynamicAt t;
     dampingBoostUntil := dampingBoostUntil t;
     _dampingBoosted := _dampingBoosted t;
     lockLateralUntil := lockLateralUntil t;
     _restoreMotionAt := _restoreMotionAt t; _restoreMotionType := v;
     localX := localX t; localZ := localZ t; localY := localY t;
     baseLinearDamping := baseLinearDamping t;
     baseAngularDamping := baseAngularDamping t;
     isParented := isParented t |}.

Definition set_localX (v : option R) (t : Item) : Item :=
  {| mesh := mesh t; size := size t; isFallen := isFallen t;
     createPhysicsAt := createPhysicsAt t;
     becomeDynamicAt := becomeDynamicAt t;
     dampingBoostUntil := dampingBoostUntil t;
     _dampingBoosted := _dampingBoosted t;
     lockLateralUntil := lockLateralUntil t;
     _restoreMotionAt := _restoreMotionAt t;
     _restoreMotionType := _restoreMotionType t; localX := v;
     localZ := localZ t; localY := localY t;
     baseLinearDamping := baseLinearDamping t;
     baseAngularDamping := baseAngularDamping t;
     isParented := isParented t |}.

Definition set_localZ (v : option R) (t : Item) : Item :=
  {| mesh := mesh t; size := size t; isFallen := isFallen t;
     createPhysicsAt := createPhysicsAt t;
     becomeDynamicAt := becomeDynamicAt t;
     dampingBoostUntil := dampingBoostUntil t;
     _dampingBoosted := _dampingBoosted t;
     lockLateralUntil := lockLateralUntil t;
     _restoreMotionAt := _restoreMotionAt t;
     _restoreMotionType := _restoreMotionType t; localX := localX t;
     localZ := v; localY := localY t;
     baseLinearDamping := baseLinearDamping t;
     baseAngularDamping := baseAngularDamping t;
     isParented := isParented t |}.

Definition set_localY (v : option R) (t : Item) : Item :=
  {| mesh := mesh t; size := size t; isFallen := isFallen t;
     createPhysicsAt := createPhysicsAt t;
     becomeDynamicAt := becomeDynamicAt t;
     dampingBoostUntil := dampingBoostUntil t;
     _dampingBoosted := _dampingBoosted t;
     lockLateralUntil := lockLateralUntil t;
     _restoreMotionAt := _restoreMotionAt t;
     _restoreMotionType := _restoreMotionType t; localX := localX t;
     localZ := localZ t; localY := v;
     baseLinearDamping := baseLinearDamping t;
     baseAngularDamping := baseAngularDamping t;
     isParented := isParented t |}.

(** The item store: items are objects shared between
    [ItemManager.placedItems] and [Truck.loadedItems]; both lists hold
    indices into one store, so a flag set through one list is seen through
    the other. *)
Definition Store : Type := list Item.

Fixpoint storeSet (i : nat) (it : Item) (st : Store) : Store :=
  match st, i with
  | [], _ => []
  | _ :: rest, O => it :: rest
  | x :: rest, S j => x :: storeSet j it rest
  end.

(** A loop [for (...) { const item = refs[i]; ... }] whose body rewrites
    the item it visits. *)
Definition forEachItem (f : Item -> Item) (refs : list nat) (st : Store) : Store :=
  fold_left
    (fun acc i =>
       match nth_error acc i with
       | Some it => storeSet i (f it) acc
       | None => acc
       end)
    refs st.

(** [item.mesh.physicsAggregate && item.mesh.physicsAggregate.body] *)
Definition bodyOfMesh (m : Mesh) : option Body :=
  match physicsAggregate m with
  | Some agg => body agg
  | None => None
  end.

Definition bodyOf (it : Item) : option Body :=
  match mesh it with
  | Some m => bodyOfMesh m
  | None => None
  end.

(** Writes through the [body] reference of an item. *)
Definition withBody (f : Body -> Body) (it : Item) : Item :=
  match mesh it with
  | Some m =>
      match physicsAggregate m with
      | Some agg =>
          match body agg with
          | Some b =>
              set_mesh
                (Some (set_physicsAggregate
                         (Some (mkPhysicsAggregate (Some (f b)))) m)) it
          | None => it
          end
      | None => it
      end
  | None => it
  end.

(** Writes [item.mesh.position.x] and [.z]. *)
Definition setMeshXZ (x z : R) (it : Item) : Item :=
  match mesh it with
  | Some m =>
      set_mesh
        (Some (set_mesh_position (mkVec3 x (vy (mesh_position m)) z) m)) it
  | None => it
  end.

Definition meshPos (it : Item) : Vec3 :=
  match mesh it with
  | Some m => mesh_position m
  | None => Vec3_Zero
  end.

(** [item.size ? item.size.x / 2 : dflt] and its Z twin. *)
Definition halfExtentX (dflt : R) (it : Item) : R :=
  match size it with Some sz => vx sz / 2 | None => dflt end.

Definition halfExtentZ (dflt : R) (it : Item) : R :=
  match size it with Some sz => vz sz / 2 | None => dflt end.

(** World-to-local and local-to-world maps as the cargo code writes them,
    for the pair ([c], [sn]) it calls [cos] and [sin]. *)
Definition localXOf (t : Truck) (c sn : R) (p : Vec3) : R :=
  (vx p - position_x t) * c + (vz p - position_z t) * sn.

Definition localZOf (t : Truck) (c sn : R) (p : Vec3) : R :=
  - (vx p - position_x t) * sn + (vz p - position_z t) * c.

Definition worldXOf (t : Truck) (c sn lx lz : R) : R :=
  position_x t + lx * c - lz * sn.

Definition worldZOf (t : Truck) (c sn lx lz : R) : R :=
  position_z t + lx * sn + lz * c.

(** [restoreItemMotionType(item, body, nowMs)] *)
Definition restoreItemMotionType (nowMs : R) (it : Item) : Item :=
  match bodyOf it with
  | None => it
  | Some _ =>
      if negb (JS.truthy (_restoreMotionAt it)) || JS.ltb nowMs (_restoreMotionAt it)
      then it
      else
        let restoreType :=
          match _restoreMotionType it with Some m => m | None => DYNAMIC end in
        let it :=
          withBody (fun b => set_motionType restoreType
                               (set_angularVelocity Vec3_Zero
                                  (set_linearVelocity Vec3_Zero b))) it in
        set_restoreMotionType None (set_restoreMotionAt 0 it)
  end.

(** [body.setMotionType(BABYLON.PhysicsMotionType.KINEMATIC)].  The enum
    has no member of that name, so the argument is [undefined]; the engine
    does not take it for a motion type and the body keeps the one it has. *)
Definition setMotionTypeUndefined (b : Body) : Body := b.

(** [teleportItemBody(item, body, position, rotation, nowMs)]; the rotation
    passed on is the mesh's own and is not tracked. *)
Definition teleportItemBody (position : Vec3) (nowMs : R) (it : Item) : Item :=
  match bodyOf it with
  | None => it
  | Some b =>
      let currentType := motionType b in
      let it := set_restoreMotionType (Some currentType) it in
      let it := set_restoreMotionAt (nowMs + 150) it in
      withBody (fun b => set_targetTransform (Some position)
                           (set_angularVelocity Vec3_Zero
                              (set_linearVelocity Vec3_Zero
                                 (setMotionTypeUndefined b)))) it
  end.

(** Velocity ceilings, the same constants in both passes. *)
Definition MAX_REL_LINEAR_VELOCITY : R := 8.0.
Definition MAX_ANGULAR_VELOCITY : R := 3.0.
Definition MAX_VERTICAL_VELOCITY : R := 4.0.

(** "Cap angular velocity", identical in both passes. *)
Definition capAngular (b : Body) : Body :=
  let angVel := angularVelocity b in
  let angSpeed :=
    sqrt (vx angVel * vx angVel + vy angVel * vy angVel + vz angVel * vz angVel) in
  if JS.gtb angSpeed MAX_ANGULAR_VELOCITY then
    let scale := MAX_ANGULAR_VELOCITY / angSpeed in
    set_angularVelocity
      (mkVec3 (vx angVel * scale) (vy angVel * scale) (vz angVel * scale)) b
  else b.

(** ** Cargo stabilizer: pre-step pass ([updateLoadedItems]) *)

(** What the per-item body of [updateLoadedItems] reads from the frame:
    the truck, [cos]/[sin] of its heading, the clock reading taken once at
    the top, [isTruckMoving] and the truck's world velocity. *)
Record PreStep := mkPreStep {
  pre_truck : Truck;
  pre_cos : R;
  pre_sin : R;
  itemsNowMs : R;
  isTruckMoving : bool;
  pre_truckVelX : R;
  pre_truckVelZ : R
}.

Definition preStepOf (t : Truck) (nowMs dt moveX moveZ : R) : PreStep :=
  {| pre_truck := t;
     pre_cos := cos (rotation t);
     pre_sin := sin (rotation t);
     itemsNowMs := nowMs;
     isTruckMoving := JS.gtb (Rabs (speed t)) 0.5;
     pre_truckVelX := if JS.gtb dt 0 then moveX / dt else 0;
     pre_truckVelZ := if JS.gtb dt 0 then moveZ / dt else 0 |}.

Section PreStepPass.

(** [new BABYLON.PhysicsAggregate(item.mesh, BOX, params, scene)]: what the
    engine builds, before the truck overrides its motion type, velocities
    and damping. *)
Variable newPhysicsAggregate : Mesh -> PhysicsParams -> PhysicsAggregate.

(** "Create physics for newly placed items after settling period".
    [Some] is the branch that ends with [continue]. *)
Definition createPhysics (p : PreStep) (it : Item) : option Item :=
  match mesh it with
  | None => None
  | Some m =>
      match bodyOfMesh m, _pendingPhysics m with
      | None, Some params =>
          if JS.truthy (createPhysicsAt it)
             && JS.geb (itemsNowMs p) (createPhysicsAt it)
          then
            let aggregate := newPhysicsAggregate m params in
            let aggregate :=
              match body aggregate with
              | Some b =>
                  mkPhysicsAggregate
                    (Some (set_angularDamping 20.0
                             (set_linearDamping 15.0
                                (set_angularVelocity Vec3_Zero
                                   (set_linearVelocity Vec3_Zero
                                      (setMotionTypeUndefined b))))))
              | None => aggregate
              end in
            let m := set_pendingPhysics None
                       (set_physicsAggregate (Some aggregate) m) in
            let it := set_mesh (Some m) it in
            let it := set_createPhysicsAt 0 it in
            let it := set_becomeDynamicAt (itemsNowMs p + 100) it in
            let it := set_dampingBoostUntil (itemsNowMs p + 500) it in
            let it := set_dampingBoosted true it in
            Some (set_lockLateralUntil (itemsNowMs p + 300) it)
          else None
      | _, _ => None
      end
  end.

(** "Transition from KINEMATIC to DYNAMIC after physics creation". *)
Definition becomeDynamic (p : PreStep) (hasBody : bool) (it : Item) : Item :=
  if hasBody && JS.truthy (becomeDynamicAt it)
     && JS.geb (itemsNowMs p) (becomeDynamicAt it)
  then
    let it :=
      withBody (fun b => set_motionType DYNAMIC
                           (set_angularVelocity Vec3_Zero
                              (set_linearVelocity Vec3_Zero b))) it in
    set_becomeDynamicAt 0 it
  else it.

Definition isSettling (it : Item) : bool :=
  (JS.truthy (createPhysicsAt it) && JS.gtb (createPhysicsAt it) 0)
  || (JS.truthy (becomeDynamicAt it) && JS.gtb (becomeDynamicAt it) 0).

(** The settling branch: the item rides along at its stored local
    position (its orientation, driven from [localQuat], is not tracked). *)
Definition rideAlong (p : PreStep) (hasBody : bool) (it : Item) : Item :=
  match localX it, localZ it with
  | Some lx, Some lz =>
      let t := pre_truck p in
      let newWorldX := worldXOf t (pre_cos p) (pre_sin p) lx lz in
      let newWorldZ := worldZOf t (pre_cos p) (pre_sin p) lx lz in
      let it := setMeshXZ newWorldX newWorldZ it in
      if hasBody
      then withBody (set_targetTransform (Some (meshPos it))) it
      else it
  | _, _ => it
  end.

(** The damping boost for just-placed items. *)
Definition dampingBoost (p : PreStep) (hasBody : bool) (it : Item) : Item :=
  if hasBody && JS.truthy (dampingBoostUntil it)
     && JS.ltb (itemsNowMs p) (dampingBoostUntil it)
     && negb (isTruckMoving p)
  then
    let boostedLinear := Rmax (JS.or_default (baseLinearDamping it) 3.0) 12.0 in
    let boostedAngular := Rmax (JS.or_default (baseAngularDamping it) 8.0) 16.0 in
    if negb (_dampingBoosted it) then
      let it := set_dampingBoosted true it in
      withBody (fun b => set_angularDamping boostedAngular
                           (set_linearDamping boostedLinear b)) it
    else it
  else if hasBody && _dampingBoosted it then
    let it :=
      withBody
        (fun b => set_angularDamping (JS.or_default (baseAngularDamping it) 8.0)
                    (set_linearDamping (JS.or_default (baseLinearDamping it) 3.0) b))
        it in
    set_dampingBoosted false it
  else it.

(** "Keep just-placed items from sliding while truck is stationary". *)
Definition lateralLock (p : PreStep) (it : Item) : Item :=
  if JS.truthy (lockLateralUntil it)
     && JS.ltb (itemsNowMs p) (lockLateralUntil it)
     && negb (isTruckMoving p)
  then
    withBody (fun b => set_angularVelocity Vec3_Zero
                         (set_linearVelocity
                            (mkVec3 0 (Rmin (vy (linearVelocity b)) 0) 0) b)) it
  else if JS.truthy (lockLateralUntil it)
          && (JS.geb (itemsNowMs p) (lockLateralUntil it) || isTruckMoving p)
  then set_lockLateralUntil 0 it
  else it.

(** "Update local position tracking". *)
Definition trackLocal (lx lz : R) (it : Item) : Item :=
  match mesh it with
  | Some m =>
      match physicsAggregate m with
      | Some _ =>
          set_localY (Some (vy (mesh_position m)))
            (set_localZ (Some lz) (set_localX (Some lx) it))
      | None => it
      end
  | None => it
  end.

(** The velocity part of the hard clamp: the component pointing further
    into a breached wall is zeroed in truck-local space. *)
Definition clampVelocityTowardWall (p : PreStep) (lx lz maxLocalX minLocalZ : R)
                                   (b : Body) : Body :=
  let c := pre_cos p in
  let sn := pre_sin p in
  let vel := linearVelocity b in
  let localVelX := vx vel * c + vz vel * sn in
  let localVelZ := - vx vel * sn + vz vel * c in
  let newLocalVelX :=
    if JS.ltb lx (- maxLocalX) && JS.ltb localVelX 0 then 0 else localVelX in
  let newLocalVelX :=
    if JS.gtb lx maxLocalX && JS.gtb localVelX 0 then 0 else newLocalVelX in
  let newLocalVelZ :=
    if JS.ltb lz minLocalZ && JS.ltb localVelZ 0 then 0 else localVelZ in
  let newWorldVelX := newLocalVelX * c - newLocalVelZ * sn in
  let newWorldVelZ := newLocalVelX * sn + newLocalVelZ * c in
  set_linearVelocity (mkVec3 newWorldVelX (vy vel) newWorldVelZ) b.

(** "HARD POSITION CLAMP". *)
Definition hardClamp (p : PreStep) (lx lz : R) (it : Item) : Item :=
  let t := pre_truck p in
  let halfX := halfExtentX 0.3 it in
  let halfZ := halfExtentZ 0.3 it in
  let maxLocalX := cargoWidth / 2 - halfX - 0.05 in
  let minLocalZ := - cargoLength / 2 + halfZ + 0.05 in
  let clampedLocalX := if JS.ltb lx (- maxLocalX) then - maxLocalX else lx in
  let clampedLocalX := if JS.gtb lx maxLocalX then maxLocalX else clampedLocalX in
  let clampedLocalZ := if JS.ltb lz minLocalZ then minLocalZ else lz in
  let needsClamp :=
    JS.ltb lx (- maxLocalX) || JS.gtb lx maxLocalX || JS.ltb lz minLocalZ in
  if needsClamp && negb (isFallen it) then
    let newWorldX := worldXOf t (pre_cos p) (pre_sin p) clampedLocalX clampedLocalZ in
    let newWorldZ := worldZOf t (pre_cos p) (pre_sin p) clampedLocalX clampedLocalZ in
    let it := setMeshXZ newWorldX newWorldZ it in
    let it :=
      teleportItemBody (mkVec3 newWorldX (vy (meshPos it)) newWorldZ)
                       (itemsNowMs p) it in
    withBody (clampVelocityTowardWall p lx lz maxLocalX minLocalZ) it
  else it.

(** "Cap linear velocity" of the pre-step pass. *)
Definition capLinearPre (p : PreStep) (b : Body) : Body :=
  let vel := linearVelocity b in
  let relX := vx vel - pre_truckVelX p in
  let relZ := vz vel - pre_truckVelZ p in
  let relSpeed := sqrt (relX * relX + relZ * relZ) in
  if JS.gtb relSpeed MAX_REL_LINEAR_VELOCITY then
    let scale := MAX_REL_LINEAR_VELOCITY / relSpeed in
    set_linearVelocity
      (mkVec3 (pre_truckVelX p + relX * scale)
              (Rmax (- MAX_VERTICAL_VELOCITY) (Rmin MAX_VERTICAL_VELOCITY (vy vel)))
              (pre_truckVelZ p + relZ * scale)) b
  else if JS.gtb (Rabs (vy vel)) MAX_VERTICAL_VELOCITY then
    set_linearVelocity
      (mkVec3 (vx vel) (JS.sign (vy vel) * MAX_VERTICAL_VELOCITY) (vz vel)) b
  else b.

(** "AGGRESSIVE VELOCITY CAPPING". *)
Definition capVelocity (p : PreStep) (it : Item) : Item :=
  if negb (isFallen it)
  then withBody (fun b => capAngular (capLinearPre p b)) it
  else it.

(** "Check if item has fallen out of truck". *)
Definition fallenCheck (lx lz : R) (it : Item) : Item :=
  if negb (isFallen it) then
    let itemHalfX := halfExtentX 0.25 it in
    let itemHalfZ := halfExtentZ 0.25 it in
    let limitX := cargoWidth / 2 + 1.0 in
    let limitZ := cargoLength / 2 + 1.0 in
    if JS.ltb (vy (meshPos it)) (floorTopY - 0.5)
       || JS.gtb (Rabs lx) (limitX + itemHalfX)
       || JS.gtb lz (limitZ + itemHalfZ)
    then set_isFallen true it
    else it
  else it.

(** The body of the [for] loop of [updateLoadedItems]. *)
Definition updateLoadedItem (p : PreStep) (it : Item) : Item :=
  match mesh it with
  | None => it
  | Some m =>
      let hasBody := match bodyOfMesh m with Some _ => true | None => false end in
      let it := restoreItemMotionType (itemsNowMs p) it in
      match createPhysics p it with
      | Some created => created
      | None =>
          let it := becomeDynamic p hasBody it in
          if isSettling it then rideAlong p hasBody it
          else
            let lx := localXOf (pre_truck p) (pre_cos p) (pre_sin p) (meshPos it) in
            let lz := localZOf (pre_truck p) (pre_cos p) (pre_sin p) (meshPos it) in
            let it := dampingBoost p hasBody it in
            let it := lateralLock p it in
            let it := trackLocal lx lz it in
            let it := hardClamp p lx lz it in
            let it := capVelocity p it in
            fallenCheck lx lz it
      end
  end.

(** [updateLoadedItems(dt, moveX, moveZ, rotationDelta)] on the item store;
    [nowMs] is the reading of [performance.now()]. *)
Definition updateLoadedItems (t : Truck) (nowMs dt moveX moveZ : R)
                             (st : Store) : Store :=
  forEachItem (updateLoadedItem (preStepOf t nowMs dt moveX moveZ))
              (loadedItems t) st.

End PreStepPass.

(** ** Cargo stabilizer: post-step pass ([enforceItemBounds]) *)

(** A loop as [forEachItem] whose body also depends on the iteration
    count (used for the clock readings taken inside the loop). *)
Definition forEachItemAt (f : nat -> Item -> Item) (refs : list nat) (st : Store)
  : Store :=
  fold_left
    (fun acc ki =>
       match nth_error acc (snd ki) with
       | Some it => storeSet (snd ki) (f (fst ki) it) acc
       | None => acc
       end)
    (combine (seq 0 (length refs)) refs) st.

(** What the per-item body of [enforceItemBounds] reads from the truck.
    The pass negates the heading before taking [cos] and [sin]. *)
Record PostStep := mkPostStep {
  post_truck : Truck;
  post_cos : R;
  post_sin : R;
  post_truckVelX : R;
  post_truckVelZ : R
}.

Definition postStepOf (t : Truck) : PostStep :=
  {| post_truck := t;
     post_cos := cos (- rotation t);
     post_sin := sin (- rotation t);
     post_truckVelX :=
       JS.or_default (match _truckWorldVelX t with Some v => v | None => 0 end) 0;
     post_truckVelZ :=
       JS.or_default (match _truckWorldVelZ t with Some v => v | None => 0 end) 0 |}.

(** Wall planes and margins of [enforceItemBounds]. *)
Definition wallInnerX : R := cargoWidth / 2.
Definition wallInnerFrontZ : R := - cargoLength / 2.
Definition safeMargin : R := 0.1.
Definition outerHalfX : R := cargoWidth / 2 + 1.0.
Definition outerFrontZ : R := - cargoLength / 2 - 1.0.
Definition outerBackZ : R := cargoLength / 2 + 2.0.
Definition fallFloorY : R := floorTopY - 0.5.

(** "POST-PHYSICS VELOCITY CAPPING", linear part. *)
Definition capLinearPost (p : PostStep) (b : Body) : Body :=
  let vel := linearVelocity b in
  let relX := vx vel - post_truckVelX p in
  let relZ := vz vel - post_truckVelZ p in
  let relSpeed := sqrt (relX * relX + relZ * relZ) in
  let overLimit := JS.gtb relSpeed MAX_REL_LINEAR_VELOCITY in
  let scale := MAX_REL_LINEAR_VELOCITY / relSpeed in
  let newVelX := if overLimit then post_truckVelX p + relX * scale else vx vel in
  let newVelZ := if overLimit then post_truckVelZ p + relZ * scale else vz vel in
  let overVertical := JS.gtb (Rabs (vy vel)) MAX_VERTICAL_VELOCITY in
  let newVelY :=
    if overVertical then JS.sign (vy vel) * MAX_VERTICAL_VELOCITY else vy vel in
  let linearCapped := overLimit || overVertical in
  if linearCapped
  then set_linearVelocity (mkVec3 newVelX newVelY newVelZ) b
  else b.

(** The left, right and front wall checks: the corrected local position
    and whether any check fired. *)
Definition snapLocalX (halfX lx : R) : R * bool :=
  let '(newLocalX, correctedX) :=
    if JS.ltb (lx - halfX) (- wallInnerX)
    then (- wallInnerX + halfX + safeMargin, true)
    else (lx, false) in
  if JS.gtb (lx + halfX) wallInnerX
  then (wallInnerX - halfX - safeMargin, true)
  else (newLocalX, correctedX).

Definition snapLocalZ (halfZ lz : R) : R * bool :=
  if JS.ltb (lz - halfZ) wallInnerFrontZ
  then (wallInnerFrontZ + halfZ + safeMargin, true)
  else (lz, false).

(** "TELEPORT THE PHYSICS BODY". *)
Definition teleportInside (p : PostStep) (nowMs newLocalX newLocalZ : R)
                          (it : Item) : Item :=
  let t := post_truck p in
  let worldX := worldXOf t (post_cos p) (post_sin p) newLocalX newLocalZ in
  let worldZ := worldZOf t (post_cos p) (post_sin p) newLocalX newLocalZ in
  let worldY := vy (meshPos it) in
  let it :=
    withBody (fun b => set_angularVelocity Vec3_Zero
                         (set_linearVelocity Vec3_Zero b)) it in
  let it :=
    match mesh it with
    | Some m => set_mesh (Some (set_mesh_position (mkVec3 worldX worldY worldZ) m)) it
    | None => it
    end in
  teleportItemBody (mkVec3 worldX worldY worldZ) nowMs it.

(** "Mark as fallen if WAY outside bounds". *)
Definition wayOutside (halfX halfZ lx lz y : R) : bool :=
  JS.gtb (Rabs lx) (outerHalfX + halfX)
  || JS.ltb lz (outerFrontZ - halfZ)
  || JS.gtb lz (outerBackZ + halfZ)
  || JS.ltb y fallFloorY.

(** Whether the loop body of [enforceItemBounds] skips the item. *)
Definition skippedByEnforce (it : Item) : bool :=
  match mesh it with
  | None => true
  | Some _ =>
      isFallen it
      || (JS.truthy (createPhysicsAt it) && JS.gtb (createPhysicsAt it) 0)
  end.

(** The body of the [for] loop of [enforceItemBounds]; [nowRestore] and
    [nowTeleport] are the two readings of [performance.now()]. *)
Definition enforceItem (p : PostStep) (nowRestore nowTeleport : R) (it : Item)
  : Item :=
  if skippedByEnforce it then it
  else
    let hasBody := match bodyOf it with Some _ => true | None => false end in
    let it := restoreItemMotionType nowRestore it in
    let it := withBody (fun b => capAngular (capLinearPost p b)) it in
    let halfX := halfExtentX 0.3 it in
    let halfZ := halfExtentZ 0.3 it in
    let lx := localXOf (post_truck p) (post_cos p) (post_sin p) (meshPos it) in
    let lz := localZOf (post_truck p) (post_cos p) (post_sin p) (meshPos it) in
    let it :=
      set_localY (Some (vy (meshPos it)))
        (set_localZ (Some lz) (set_localX (Some lx) it)) in
    let '(newLocalX, correctedX) := snapLocalX halfX lx in
    let '(newLocalZ, correctedZ) := snapLocalZ halfZ lz in
    let it :=
      if (correctedX || correctedZ) && hasBody
      then teleportInside p nowTeleport newLocalX newLocalZ it
      else it in
    if wayOutside halfX halfZ lx lz (vy (meshPos it)) && negb (isFallen it)
    then set_isFallen true it
    else it.

(** [enforceItemBounds()] on the item store.  [nowRestore k] and
    [nowTeleport k] are the clock readings during iteration [k]. *)
Definition enforceItemBounds (t : Truck) (nowRestore nowTeleport : nat -> R)
                             (st : Store) : Store :=
  forEachItemAt
    (fun k => enforceItem (postStepOf t) (nowRestore k) (nowTeleport k))
    (loadedItems t) st.

(** ** Other writers of the fallen flag *)

(** The body of the loop of [updateLoadedItemsLegacy]. *)
Definition updateLoadedItemLegacy (t : Truck) (it : Item) : Item :=
  match mesh it with
  | None => it
  | Some m =>
      if isFallen it then it
      else
        match physicsAggregate m with
        | None => it
        | Some _ =>
            let c := cos (- rotation t) in
            let sn := sin (- rotation t) in
            let lx := localXOf t c sn (mesh_position m) in
            let lz := localZOf t c sn (mesh_position m) in
            let it :=
              set_localY (Some (vy (mesh_position m)))
                (set_localZ (Some lz) (set_localX (Some lx) it)) in
            let itemHalfX := halfExtentX 0.25 it in
            let itemHalfZ := halfExtentZ 0.25 it in
            let limitX := cargoWidth / 2 + 0.5 in
            let limitZ := cargoLength / 2 + 0.5 in
            let lowZ := - cargoLength / 2 - 0.5 in
            if JS.gtb (Rabs lx) (limitX + itemHalfX)
               || JS.gtb lz (limitZ + itemHalfZ)
               || JS.ltb lz (lowZ - itemHalfZ)
            then set_isFallen true it
            else it
        end
  end.

Definition updateLoadedItemsLegacy (t : Truck) (st : Store) : Store :=
  forEachItem (updateLoadedItemLegacy t) (loadedItems t) st.

(** ** Game loop: fallen check and fall-out callback *)

(** The part of [Game] the fallen check touches.  [placedItems] is
    [itemManager.placedItems]; [callbackCalls] counts the invocations of
    [onItemFellOut] and [lossTriggers] the invocations that got past the
    [fallOutTriggered] latch (error sound and loss screen timer). *)
Record Game := mkGame {
  isRunning : bool;
  isPaused : bool;
  fallOutTriggered : bool;
  placedItems : list nat;
  callbackCalls : nat;
  lossTriggers : nat
}.

(** [onItemFellOut(item)]; the argument is not used by the body. *)
Definition onItemFellOut (g : Game) : Game :=
  let g :=
    {| isRunning := isRunning g; isPaused := isPaused g;
       fallOutTriggered := fallOutTriggered g; placedItems := placedItems g;
       callbackCalls := S (callbackCalls g); lossTriggers := lossTriggers g |} in
  if fallOutTriggered g then g
  else
    {| isRunning := isRunning g; isPaused := isPaused g;
       fallOutTriggered := true; placedItems := placedItems g;
       callbackCalls := callbackCalls g; lossTriggers := S (lossTriggers g) |}.

(** The test inside [placedItems.forEach] of [Game.update]: whether a
    not-yet-fallen item with a mesh is now out of the truck. *)
Definition fellOut (t : Truck) (it : Item) : bool :=
  let floorY := floorTopY in
  let c := cos (- rotation t) in
  let sn := sin (- rotation t) in
  let halfW := cargoWidth / 2 in
  let halfL := cargoLength / 2 in
  let itemHalfHeight := match size it with Some sz => vy sz / 2 | None => 0.3 end in
  let pos := meshPos it in
  let lx := if isParented it then vx pos else localXOf t c sn pos in
  let lz := if isParented it then vz pos else localZOf t c sn pos in
  let ly := vy pos in
  let itemBottomY := ly - itemHalfHeight in
  let fellBelowFloor := JS.ltb itemBottomY (floorY - 0.3) in
  let outsideX := JS.gtb (Rabs lx) (halfW + 0.5) in
  let outsideFront := JS.ltb lz (- halfL - 0.5) in
  let outsideBack := JS.gtb lz (halfL + 1.0) in
  let outsideBounds := outsideX || outsideFront || outsideBack in
  fellBelowFloor || outsideBounds.

(** Whether the loop body of the fallen check marks the item. *)
Definition newlyFallenItem (t : Truck) (it : Item) : bool :=
  match mesh it with
  | Some _ => negb (isFallen it) && fellOut t it
  | None => false
  end.

(** The callback of [placedItems.forEach] in [Game.update], on the store
    and the counter [newlyFallen]. *)
Definition markStep (t : Truck) (acc : Store * nat) (i : nat) : Store * nat :=
  match nth_error (fst acc) i with
  | Some it =>
      if newlyFallenItem t it
      then (storeSet i (set_isFallen true it) (fst acc), S (snd acc))
      else acc
  | None => acc
  end.

(** The [placedItems.forEach] of [Game.update]: the store it leaves and
    the value of [newlyFallen]. *)
Definition markFallen (t : Truck) (refs : list nat) (st : Store) : Store * nat :=
  fold_left (markStep t) refs (st, O).

(** [Game.update()], restricted to the fallen check and the loss trigger. *)
Definition Game_update (g : Game) (t : Truck) (st : Store) : Game * Store :=
  if negb (isRunning g) || isPaused g then (g, st)
  else
    let '(st, newlyFallen) := markFallen t (placedItems g) st in
    let g := if (0 <? newlyFallen)%nat then onItemFellOut g else g in
    (g, st).

(** [startAtLevel]: the reset of the latch and of the item lists at the
    start of a round ([itemManager.clearAll()] empties [placedItems]). *)
Definition startAtLevel (g : Game) (t : Truck) : Game * Truck :=
  ({| isRunning := true; isPaused := isPaused g; fallOutTriggered := false;
      placedItems := []; callbackCalls := callbackCalls g;
      lossTriggers := lossTriggers g |},
   {| position_x := 0; position_z := 0; rotation := 0; speed := 0;
      prevSpeed := prevSpeed t; currentAcceleration := currentAcceleration t;
      turnRate := turnRate t; autoBrakeTimer := autoBrakeTimer t;
      currentGear := currentGear t; gearJustChanged := gearJustChanged t;
      keys := keys t; turnInput := turnInput t; driftAngle := driftAngle t;
      isDrifting := isDrifting t; _truckWorldVelX := _truckWorldVelX t;
      _truckWorldVelZ := _truckWorldVelZ t; root := mkRootNode 0 0 0;
      _collisionCache := _collisionCache t; sceneManager := sceneManager t;
      loadedItems := []; enableItemPhysics := enableItemPhysics t |}).

(** [PhysicsSystem.checkFallenItems(items, truckBounds)]: the store, the
    number of newly fallen items and the game after the per-item
    callbacks ([setFallOutCallback] binds [onItemFellOut]). *)
Record TruckBounds := mkTruckBounds {
  bounds_minX : R; bounds_maxX : R; bounds_minZ : R; bounds_maxZ : R
}.

Definition fellAway (tb : option TruckBounds) (pos : Vec3) : bool :=
  let fellBelow := JS.ltb (vy pos) 0.5 in
  let fellOffSide :=
    match tb with
    | Some b =>
        JS.ltb (vx pos) (bounds_minX b - 1) || JS.gtb (vx pos) (bounds_maxX b + 1)
        || JS.ltb (vz pos) (bounds_minZ b - 1) || JS.gtb (vz pos) (bounds_maxZ b + 1)
    | None => false
    end in
  let fellOffBack :=
    match tb with
    | Some b => JS.gtb (vz pos) (bounds_maxZ b + 2)
    | None => false
    end in
  fellBelow || fellOffSide || fellOffBack.

(** The callback of [items.forEach] in [checkFallenItems]. *)
Definition checkFallenStep (tb : option TruckBounds) (acc : Game * Store * nat)
                           (i : nat) : Game * Store * nat :=
  let '(g, st, newlyFallen) := acc in
  match nth_error st i with
  | Some it =>
      if isFallen it then acc
      else
        match mesh it with
        | Some m =>
            if fellAway tb (mesh_position m)
            then (onItemFellOut g, storeSet i (set_isFallen true it) st,
                  S newlyFallen)
            else acc
        | None => acc
        end
  | None => acc
  end.

Definition checkFallenItems (tb : option TruckBounds) (refs : list nat)
                            (g : Game) (st : Store) : Game * Store * nat :=
  fold_left (checkFallenStep tb) refs (g, st, O).

(** ** One frame of driving *)

Section Frame.

Variable intersectsMesh : RootNode -> TruckMesh -> Obstacle -> bool.
Variable newPhysicsAggregate : Mesh -> PhysicsParams -> PhysicsAggregate.

(** [updateDriving(deltaTime, { inputEnabled })] on the truck and the item
    store.  [frameId] is [scene.getFrameId()] and [nowMs] the reading of
    [performance.now()] inside [updateLoadedItems].  Wheel, tail-light,
    engine-sound and CCD-flag updates are left out. *)
Definition updateDriving (frameId : Z) (nowMs deltaTime : R) (inputEnabled : bool)
                         (t : Truck) (st : Store) : Truck * Store :=
  let dt := Rmin deltaTime 0.05 in
  let k := effectiveKeys inputEnabled t in
  let t := speedUpdate k dt t in
  let autoBraking := JS.gtb (autoBrakeTimer t) 0 in
  let t := updateGear t in
  let t := set_currentAcceleration ((speed t - prevSpeed t) / dt) t in
  let t := rotationAttempt intersectsMesh frameId k autoBraking dt t in
  let t := driftDecay t in
  let '(t, (moveX, moveZ)) := translate intersectsMesh frameId dt t in
  let t := applyTransform t in
  let st :=
    if enableItemPhysics t
    then updateLoadedItems newPhysicsAggregate t nowMs dt moveX moveZ st
    else st in
  (t, st).

End Frame.

(** ** Vocabulary of the properties and sample inputs *)

(** One step of an indexed loop over item references: the item [snd ki]
    points to is replaced by its image under the loop body. *)
Definition visit (f : nat -> Item -> Item) (acc : Store) (ki : nat * nat) : Store :=
  match nth_error acc (snd ki) with
  | Some it => storeSet (snd ki) (f (fst ki) it) acc
  | None => acc
  end.

Definition keyW : Keys := mkKeys true false false false false.

(** Gear [g] is the highest forward gear whose threshold is met. *)
Definition highestGearMet (cur : Z) (absSpeed : R) (g : Z) : Prop :=
  (1 <= g <= 5)%Z
  /\ gearThresholdMet cur absSpeed g = true
  /\ forall g', (g < g' <= 5)%Z -> gearThresholdMet cur absSpeed g' = false.

Definition noGearMet (cur : Z) (absSpeed : R) : Prop :=
  forall g, (1 <= g <= 5)%Z -> gearThresholdMet cur absSpeed g = false.

Definition crawlingTruck : Truck := set_speed (-10) (newTruck None).

(** A scene with one destination wall mesh, and an engine that reports an
    intersection for every test. *)
Definition wallScene : SceneManager :=
  {| destinationWallBounds := None; housesByTile := None; pickupHouse := None;
     destinationWalls := Some [Some (mkWallMesh 0 false)];
     groundTileSize := 50 |}.

Definition alwaysHit (_ : RootNode) (_ : TruckMesh) (_ : Obstacle) : bool := true.

(** Steering left with the brake held. *)
Definition keyABrake : Keys := mkKeys false true false false true.

(** A truck in a braking slide at 50 mph whose drift angle has saturated
    at its ceiling of 0.15. *)
Definition slidingTruck : Truck :=
  set_driftAngle (Some 0.15) (set_speed (-50) (newTruck (Some wallScene))).

(** A destination wall running along the left side of a truck that stands
    at the origin with heading 0: the eleven sample points of the left
    flank are inside it. *)
Definition sideWallScene : SceneManager :=
  {| destinationWallBounds := Some [mkWallBound (-2) (-1) (-10) 10];
     housesByTile := None; pickupHouse := None; destinationWalls := None;
     groundTileSize := 50 |}.

Definition stuckTruck : Truck := newTruck (Some sideWallScene).

(** *** A round as a sequence of operations *)

(** The state a round evolves: the truck, the game and the item store. *)
Record World := mkWorld { w_truck : Truck; w_game : Game; w_store : Store }.

(** What the physics engine may do to the store during its step: it moves
    meshes and bodies, but the [isFallen] flag is a field of the game's own
    item objects which the engine does not know. *)
Definition engineStep (st st' : Store) : Prop :=
  Forall2 (fun before after => isFallen after = isFallen before) st st'.

Section Round.

Variable intersectsMesh : RootNode -> TruckMesh -> Obstacle -> bool.
Variable newPhysicsAggregate : Mesh -> PhysicsParams -> PhysicsAggregate.

(** The operations that run between [startAtLevel] and the end of a round:
    key events, the frame's driving update (with the pre-step pass), the
    engine's step, the post-step pass from the after-physics hook, the game
    update with its fallen check, the placement of a new item
    ([placeItem] creates it with [isFallen: false] and registers it in
    both lists), auto-brake requests, and the two fallen checks the source
    keeps beside the live ones. *)
Inductive roundStep : World -> World -> Prop :=
| step_keys (wd : World) (k : Keys) :
    roundStep wd (mkWorld (set_keys k (w_truck wd)) (w_game wd) (w_store wd))
| step_drive (wd : World) (frameId : Z) (nowMs deltaTime : R) (inputEnabled : bool) :
    roundStep wd
      (mkWorld
         (fst (updateDriving intersectsMesh newPhysicsAggregate frameId nowMs
                 deltaTime inputEnabled (w_truck wd) (w_store wd)))
         (w_game wd)
         (snd (updateDriving intersectsMesh newPhysicsAggregate frameId nowMs
                 deltaTime inputEnabled (w_truck wd) (w_store wd))))
| step_engine (wd : World) (st' : Store) :
    engineStep (w_store wd) st' ->
    roundStep wd (mkWorld (w_truck wd) (w_game wd) st')
| step_enforce (wd : World) (nowRestore nowTeleport : nat -> R) :
    roundStep wd
      (mkWorld (w_truck wd) (w_game wd)
         (enforceItemBounds (w_truck wd) nowRestore nowTeleport (w_store wd)))
| step_update (wd : World) :
    roundStep wd
      (mkWorld (w_truck wd)
         (fst (Game_update (w_game wd) (w_truck wd) (w_store wd)))
         (snd (Game_update (w_game wd) (w_truck wd) (w_store wd))))
| step_place (wd : World) (it : Item) :
    isFallen it = false ->
    roundStep wd
      (mkWorld
         (set_loadedItems (loadedItems (w_truck wd) ++ [length (w_store wd)])
            (w_truck wd))
         {| isRunning := isRunning (w_game wd); isPaused := isPaused (w_game wd);
            fallOutTriggered := fallOutTriggered (w_game wd);
            placedItems := placedItems (w_game wd) ++ [length (w_store wd)];
            callbackCalls := callbackCalls (w_game wd);
            lossTriggers := lossTriggers (w_game wd) |}
         (w_store wd ++ [it]))
| step_autoBrake (wd : World) (duration : R) :
    roundStep wd
      (mkWorld (applyAutoBrake duration (w_truck wd)) (w_game wd) (w_store wd))
| step_legacy (wd : World) :
    roundStep wd
      (mkWorld (w_truck wd) (w_game wd)
         (updateLoadedItemsLegacy (w_truck wd) (w_store wd)))
| step_checkFallen (wd : World) (tb : option TruckBounds) :
    roundStep wd
      (mkWorld (w_truck wd)
         (fst (fst (checkFallenItems tb (placedItems (w_game wd)) (w_game wd)
                      (w_store wd))))
         (snd (fst (checkFallenItems tb (placedItems (w_game wd)) (w_game wd)
                      (w_store wd))))).

Inductive round : World -> World -> Prop :=
| round_here (wd : World) : round wd wd
| round_then (wd wd1 wd2 : World) :
    roundStep wd wd1 -> round wd1 wd2 -> round wd wd2.

End Round.

(** Item [i] of the store is marked fallen. *)
Definition fallenAt (st : Store) (i : nat) : Prop :=
  exists it, nth_error st i = Some it /\ isFallen it = true.

(** *** Sample items *)

(** A body at rest, damped as [placeItem] sets it up. *)
Definition restingBody : Body :=
  {| motionType := DYNAMIC; linearVelocity := Vec3_Zero;
     angularVelocity := Vec3_Zero; linearDamping := 3.0; angularDamping := 8.0;
     targetTransform := None |}.

(** A placed item of size [sz] with body [b] and its mesh at [pos], as
    [placeItem] and [addLoadedItem] leave it (no pending physics, no
    timers running). *)
Definition placedItemAt (pos sz : Vec3) (b : Body) : Item :=
  {| mesh := Some (mkMesh pos (Some (mkPhysicsAggregate (Some b))) None);
     size := Some sz; isFallen := false; createPhysicsAt := 0;
     becomeDynamicAt := 0; dampingBoostUntil := 0; _dampingBoosted := false;
     lockLateralUntil := 0; _restoreMotionAt := 0; _restoreMotionType := None;
     localX := Some (vx pos); localZ := Some (vz pos); localY := Some (vy pos);
     baseLinearDamping := 0; baseAngularDamping := 0; isParented := false |}.

(** A small box lying on the road under the truck. *)
Definition sunkBox : Item :=
  placedItemAt (mkVec3 0 0 0) (mkVec3 0.4 0.4 0.4) restingBody.

Definition runningGame (refs : list nat) : Game :=
  {| isRunning := true; isPaused := false; fallOutTriggered := false;
     placedItems := refs; callbackCalls := 0; lossTriggers := 0 |}.

(** The same box already marked fallen. *)
Definition lostBox : Item := set_isFallen true sunkBox.

(** No item at index [i] is still waiting to be marked. *)
Definition settledAt (t : Truck) (st : Store) (i : nat) : Prop :=
  forall it, nth_error st i = Some it -> newlyFallenItem t it = false.


(** *** Containment and velocity vocabulary *)

(** Truck-local coordinates of an item's mesh, as the post-step pass
    computes them. *)
Definition itemLocalX (t : Truck) (it : Item) : R :=
  localXOf t (post_cos (postStepOf t)) (post_sin (postStepOf t)) (meshPos it).

Definition itemLocalZ (t : Truck) (it : Item) : R :=
  localZOf t (post_cos (postStepOf t)) (post_sin (postStepOf t)) (meshPos it).




(** One of the three wall checks of the post-step pass fires. *)
Definition breachesWall (t : Truck) (it : Item) : bool :=
  snd (snapLocalX (halfExtentX 0.3 it) (itemLocalX t it))
  || snd (snapLocalZ (halfExtentZ 0.3 it) (itemLocalZ t it)).

(** Where the wall checks put the item, in truck-local coordinates. *)
Definition snappedLocalX (t : Truck) (it : Item) : R :=
  fst (snapLocalX (halfExtentX 0.3 it) (itemLocalX t it)).

Definition snappedLocalZ (t : Truck) (it : Item) : R :=
  fst (snapLocalZ (halfExtentZ 0.3 it) (itemLocalZ t it)).

(** Horizontal magnitude of (body velocity - truck velocity). *)
Definition relativeSpeed (p : PostStep) (b : Body) : R :=
  sqrt ((vx (linearVelocity b) - post_truckVelX p)
        * (vx (linearVelocity b) - post_truckVelX p)
        + (vz (linearVelocity b) - post_truckVelZ p)
          * (vz (linearVelocity b) - post_truckVelZ p)).

Definition angularSpeed (b : Body) : R :=
  sqrt (vx (angularVelocity b) * vx (angularVelocity b)
        + vy (angularVelocity b) * vy (angularVelocity b)
        + vz (angularVelocity b) * vz (angularVelocity b)).

(** The state [teleportItemBody] leaves a body in: at rest and targeted
    at [pos].  (Its motion type is the one it had.) *)
Definition heldAt (pos : Vec3) (b : Body) : Prop :=
  linearVelocity b = Vec3_Zero
  /\ angularVelocity b = Vec3_Zero
  /\ targetTransform b = Some pos.


(** A truck carrying the item stored at index 0. *)
Definition loadedTruck : Truck := set_loadedItems [0%nat] (newTruck None).

(** A small box sitting well inside the bed of [loadedTruck]. *)
Definition snugBox : Item :=
  placedItemAt (mkVec3 0 1.5 0) (mkVec3 0.4 0.4 0.4) restingBody.

(** A truck driving straight ahead at 20 m/s (about 45 mph) with heading 0,
    and a small box that moves with it but has been pushed through the
    left wall. *)
Definition fastTruck : Truck :=
  set_truckWorldVelZ (Some (-20)) (set_truckWorldVelX (Some 0) loadedTruck).

Definition ridingBody : Body :=
  {| motionType := DYNAMIC; linearVelocity := mkVec3 0 0 (-20);
     angularVelocity := Vec3_Zero; linearDamping := 3.0; angularDamping := 8.0;
     targetTransform := None |}.

Definition escapedBox : Item :=
  placedItemAt (mkVec3 (-1.5) 1.5 0) (mkVec3 0.4 0.4 0.4) ridingBody.


(** A truck at the origin carrying the items stored at indices 0 and 1. *)
Definition twoItemTruck : Truck := set_loadedItems [0%nat; 1%nat] (newTruck None).

(** A small box well inside the bed of [loadedTruck] that the engine step
    left tumbling: 10 m/s sideways, 6 m/s upwards and spinning at 5 rad/s. *)
Definition tumblingBody : Body :=
  {| motionType := DYNAMIC; linearVelocity := mkVec3 10 6 0;
     angularVelocity := mkVec3 5 0 0; linearDamping := 3.0; angularDamping := 8.0;
     targetTransform := None |}.

Definition tumblingBox : Item :=
  placedItemAt (mkVec3 0 1.5 0) (mkVec3 0.4 0.4 0.4) tumblingBody.

(** Two boxes that have fallen off the truck and still slide and spin on
    the road beside it.  The first was placed less than 700 ms ago, so its
    lateral lock (set by [placeItem]) has not run out at 1000 ms; the
    second was teleported shortly before it fell, so that its motion type
    is due to be restored at 100 ms. *)
Definition slidingBody : Body :=
  {| motionType := DYNAMIC; linearVelocity := mkVec3 1 (-1) 2;
     angularVelocity := mkVec3 0 1 0; linearDamping := 3.0; angularDamping := 8.0;
     targetTransform := None |}.

Definition fallenLockedBox : Item :=
  set_lockLateralUntil 1000
    (set_isFallen true
       (placedItemAt (mkVec3 5 0.2 0) (mkVec3 0.4 0.4 0.4) slidingBody)).

Definition fallenHeldBox : Item :=
  set_restoreMotionType (Some DYNAMIC)
    (set_restoreMotionAt 100
       (set_isFallen true
          (placedItemAt (mkVec3 5 0.2 1) (mkVec3 0.4 0.4 0.4) slidingBody))).

(** ** Vocabulary of the further properties *)

(** A house the mesh test cannot hit from (posX, posZ): it is gone or too
    far away for the broad phase. *)
Definition houseOutOfReach (posX posZ : R) (oh : option House) : Prop :=
  match oh with
  | None => True
  | Some h => house_isDisposed h = true \/ withinBroadPhase h posX posZ = false
  end.

Definition wallGone (ow : option WallMesh) : Prop :=
  match ow with
  | None => True
  | Some wm => wall_isDisposed wm = true
  end.

(** No live obstacle of the scene is within reach of (posX, posZ). *)
Definition nothingInReach (sm : SceneManager) (posX posZ : R) : Prop :=
  (forall tiles key houses oh,
      housesByTile sm = Some tiles -> In (key, Some houses) tiles ->
      In oh houses -> houseOutOfReach posX posZ oh)
  /\ houseOutOfReach posX posZ (pickupHouse sm)
  /\ (forall walls ow,
        destinationWalls sm = Some walls -> In ow walls -> wallGone ow).

(** A scene whose only wall and only house have been disposed of. *)
Definition abandonedScene : SceneManager :=
  {| destinationWallBounds := None;
     housesByTile := Some [((0, 0)%Z, Some [None; Some (mkHouse 3 4 true 10 6 6 0)])];
     pickupHouse := None;
     destinationWalls := Some [Some (mkWallMesh 0 true); None];
     groundTileSize := 50 |}.

(** *** Teleports *)

(** The two operations that write a body's motion type around a
    teleport, as a script. *)
Inductive BodyOp :=
| OpTeleport (position : Vec3) (nowMs : R)
| OpRestore (nowMs : R).

Definition applyBodyOp (it : Item) (op : BodyOp) : Item :=
  match op with
  | OpTeleport position nowMs => teleportItemBody position nowMs it
  | OpRestore nowMs => restoreItemMotionType nowMs it
  end.

Definition applyBodyOps (ops : list BodyOp) (it : Item) : Item :=
  fold_left applyBodyOp ops it.

Definition motionTypeOf (it : Item) : option MotionType :=
  option_map motionType (bodyOf it).

(** The item's body has motion type [m], and the type to restore, if a
    restore is pending, is [m] too. *)
Definition keepsMotionType (m : MotionType) (it : Item) : Prop :=
  motionTypeOf it = Some m
  /\ (JS.truthy (_restoreMotionAt it) = true ->
      _restoreMotionType it = Some m).

(** *** Pre-step vocabulary *)

(** Truck-local coordinates of an item's mesh, as the pre-step pass
    computes them. *)
Definition preLocalX (p : PreStep) (it : Item) : R :=
  localXOf (pre_truck p) (pre_cos p) (pre_sin p) (meshPos it).

Definition preLocalZ (p : PreStep) (it : Item) : R :=
  localZOf (pre_truck p) (pre_cos p) (pre_sin p) (meshPos it).

(** The limits of the hard clamp. *)
Definition preMaxLocalX (it : Item) : R :=
  cargoWidth / 2 - halfExtentX 0.3 it - 0.05.

Definition preMinLocalZ (it : Item) : R :=
  - cargoLength / 2 + halfExtentZ 0.3 it + 0.05.

(** Horizontal magnitude of (body velocity - truck velocity) in the
    pre-step pass. *)
Definition relativeSpeedPre (p : PreStep) (b : Body) : R :=
  sqrt ((vx (linearVelocity b) - pre_truckVelX p)
        * (vx (linearVelocity b) - pre_truckVelX p)
        + (vz (linearVelocity b) - pre_truckVelZ p)
          * (vz (linearVelocity b) - pre_truckVelZ p)).

(** An item with a mesh that has not fallen and has no creation or
    activation timer running: the items the main branch of the pre-step
    loop body handles. *)
Definition inMainBranch (it : Item) : Prop :=
  mesh it <> None /\ isFallen it = false
  /\ createPhysicsAt it = 0 /\ becomeDynamicAt it = 0.

(** ** The placement volume ([updateCargoBounds], [isInsideCargo]) *)

Definition cargoHeight : R := 2.2.
Definition cargoFloorHeight : R := 1.0.

(** [this.cargoBounds] *)
Record CargoBounds := mkCargoBounds {
  cb_minX : R; cb_maxX : R; cb_minY : R; cb_maxY : R; cb_minZ : R; cb_maxZ : R
}.

(** [if (w < min) min = w] and [if (w > max) max = w]; [None] is the
    [Infinity] or [-Infinity] the running bound starts from, which every
    number beats. *)
Definition takeMin (m : option R) (w : R) : option R :=
  match m with
  | None => Some w
  | Some v => if JS.ltb w v then Some w else Some v
  end.

Definition takeMax (m : option R) (w : R) : option R :=
  match m with
  | None => Some w
  | Some v => if JS.gtb w v then Some w else Some v
  end.

(** The four corners of the shrunk bed rectangle in local space, in the
    order the source visits them. *)
Definition cargoCorners : list (R * R) :=
  let halfW := cargoWidth / 2 - 0.15 in
  let halfL := cargoLength / 2 - 0.15 in
  [(- halfW, - halfL); (halfW, - halfL); (- halfW, halfL); (halfW, halfL)].

(** The running bounds after the corners of [l]. *)
Definition cornerBounds (t : Truck) (l : list (R * R))
  : option R * option R * option R * option R :=
  let c := cos (- rotation t) in
  let sn := sin (- rotation t) in
  fold_left
    (fun acc corner =>
       let '(minX, maxX, minZ, maxZ) := acc in
       let worldX := worldXOf t c sn (fst corner) (snd corner) in
       let worldZ := worldZOf t c sn (fst corner) (snd corner) in
       (takeMin minX worldX, takeMax maxX worldX,
        takeMin minZ worldZ, takeMax maxZ worldZ))
    l (None, None, None, None).

(** A running bound read after the last corner. *)
Definition boundValue (m : option R) : R :=
  match m with Some v => v | None => 0 end.

(** [updateCargoBounds()]: the value it assigns to [this.cargoBounds]. *)
Definition updateCargoBounds (t : Truck) : CargoBounds :=
  let '(minX, maxX, minZ, maxZ) := cornerBounds t cargoCorners in
  {| cb_minX := boundValue minX; cb_maxX := boundValue maxX;
     cb_minY := floorTopY;
     cb_maxY := cargoFloorHeight + cargoHeight - 0.1;
     cb_minZ := boundValue minZ; cb_maxZ := boundValue maxZ |}.

(** [isInsideCargo(pos)] on the bounds [getBounds()] returns. *)
Definition isInsideCargo (b : CargoBounds) (pos : Vec3) : bool :=
  JS.geb (vx pos) (cb_minX b) && JS.leb (vx pos) (cb_maxX b)
  && JS.geb (vy pos) (cb_minY b)
  && JS.geb (vz pos) (cb_minZ b) && JS.leb (vz pos) (cb_maxZ b).

(** ** Loading an item ([addLoadedItem]) *)


(** ** Touch joystick ([InputSystem.setupJoystick]) *)

Definition maxDistance : R := 35.

(** The bounding rectangle of the joystick base. *)
Record Rect := mkRect {
  rect_left : R; rect_top : R; rect_width : R; rect_height : R
}.

(** [updateStick(clientX, clientY)]: the normalised ([state.x], [state.y]). *)
Definition updateStick (rect : Rect) (clientX clientY : R) : R * R :=
  let centerX := rect_left rect + rect_width rect / 2 in
  let centerY := rect_top rect + rect_height rect / 2 in
  let dx := clientX - centerX in
  let dy := clientY - centerY in
  let distance := sqrt (dx * dx + dy * dy) in
  let '(dx, dy) :=
    if JS.gtb distance maxDistance
    then (dx / distance * maxDistance, dy / distance * maxDistance)
    else (dx, dy) in
  (dx / maxDistance, dy / maxDistance).

(** The [onMove] callback of the move joystick, on [truck.keys]. *)
Definition onMove (x y : R) (k : Keys) : Keys :=
  {| key_w := JS.ltb y (-0.3); key_a := JS.ltb x (-0.3);
     key_s := JS.gtb y 0.3; key_d := JS.gtb x 0.3;
     key_space := key_space k |}.

(** A touch at (clientX, clientY), and the release of the stick. *)
Definition touchMove (rect : Rect) (clientX clientY : R) (k : Keys) : Keys :=
  onMove (fst (updateStick rect clientX clientY))
         (snd (updateStick rect clientX clientY)) k.

Definition resetStick (k : Keys) : Keys := onMove 0 0 k.

(** ** Pickup and destination ([Game]) *)

Definition destinationRadius : R := 15.
Definition pickupRadius : R := 40.

(** The snap both generators apply to each raw coordinate: the nearest
    tile centre (multiples of 50), moved by 25 towards the raw value. *)
Definition snapToQuadrant (raw : R) : R :=
  let tile := IZR (JS.round (raw / 50)) * 50 in
  let quadrantCenter := 25 in
  let quadrant := if JS.geb raw tile then quadrantCenter else - quadrantCenter in
  tile + quadrant.

(** [generatePickup()]; [angle] is [Math.random() * Math.PI * 2]. *)
Definition generatePickup (angle : R) : R * R :=
  let baseDistance := 100 in
  let rawX := cos angle * baseDistance in
  let rawZ := sin angle * baseDistance in
  (snapToQuadrant rawX, snapToQuadrant rawZ).

(** [generateDestination()] *)
Definition generateDestination (currentLevel : R) (angle : R) : R * R :=
  let baseDistance := 200 + currentLevel * 150 in
  let rawX := cos angle * baseDistance in
  let rawZ := sin angle * baseDistance in
  (snapToQuadrant rawX, snapToQuadrant rawZ).

(** [checkPickupProximity()]: the new value of [isAtPickup]. *)
Definition checkPickupProximity (pickup : R * R) (t : Truck) : bool :=
  let dx := fst pickup - position_x t in
  let dz := snd pickup - position_z t in
  let distance := sqrt (dx * dx + dz * dz) in
  JS.leb distance pickupRadius.

(** The part of [Game] that [checkDestinationArrival] reads and writes;
    [completions] counts the [completeLevel] timers it starts. *)
Record Delivery := mkDelivery {
  hasArrivedAtDestination : bool;
  destination : R * R;
  completions : nat
}.

(** [checkDestinationArrival()]; [allPlaced] is
    [itemManager.areAllItemsPlaced()]. *)
Definition checkDestinationArrival (d : Delivery) (allPlaced : bool) (t : Truck)
  : Delivery * Truck :=
  if hasArrivedAtDestination d then (d, t)
  else
    let dx := fst (destination d) - position_x t in
    let dz := snd (destination d) - position_z t in
    let distance := sqrt (dx * dx + dz * dz) in
    if JS.leb distance destinationRadius then
      if negb allPlaced then (d, t)
      else
        ({| hasArrivedAtDestination := true; destination := destination d;
            completions := S (completions d) |},
         applyAutoBrake 0.7 t)
    else (d, t).

(** ** Continuous collision detection ([ItemManager.applyCcdSettings]) *)

(** The motion threshold and the swept-sphere radius handed to the body. *)
Definition applyCcdSettings (boxSize : Vec3) : R * R :=
  let minDimension := Rmin (Rmin (vx boxSize) (vy boxSize)) (vz boxSize) in
  let ccdThreshold := Rmin 0.1 (minDimension * 0.25) in
  let minHalfExtent := minDimension * 0.5 in
  let sweptRadius := Rmax 0.05 (minHalfExtent * 0.8) in
  (ccdThreshold, sweptRadius).

(** ** Front wheels ([updateWheelSteering]) *)

(** The new [currentSteerAngle] of a truck that has front wheel nodes
    (without them the method returns at once); [None] is the field before
    its first use. *)
Definition updateWheelSteering (k : Keys) (currentSteerAngle : option R) : R :=
  let maxSteerAngle := PI / 6 in
  let targetAngle := 0 in
  let targetAngle := if key_a k then - maxSteerAngle else targetAngle in
  let targetAngle := if key_d k then maxSteerAngle else targetAngle in
  let current := match currentSteerAngle with Some a => a | None => 0 end in
  let steerSpeed := 0.15 in
  current + (targetAngle - current) * steerSpeed.

(** The steering target the keys select. *)
Definition steerTarget (k : Keys) : R :=
  if key_d k then PI / 6 else if key_a k then - (PI / 6) else 0.

(** [n] updates with the same keys. *)
Fixpoint steerFor (n : nat) (k : Keys) (angle : option R) : option R :=
  match n with
  | O => angle
  | S m => steerFor m k (Some (updateWheelSteering k angle))
  end.

(** ** Counting items ([getFallenCount], [getStableItemCount], [updateScore]) *)

(** The items a list of references points to. *)
Definition itemsOf (refs : list nat) (st : Store) : list Item :=
  flat_map (fun i => match nth_error st i with Some it => [it] | None => [] end) refs.

(** [PhysicsSystem.getFallenCount(items)] *)
Definition getFallenCount (items : list Item) : nat :=
  length (filter isFallen items).

(** [ItemManager.getStableItemCount()] *)
Definition getStableItemCount (placed : list Item) : nat :=
  length (filter (fun item => negb (isFallen item)) placed).

(** [score.stability] as [updateScore] computes it. *)
Definition stability (placed : list Item) : Z :=
  let totalItems := length placed in
  let stableItems := getStableItemCount placed in
  if (0 <? totalItems)%nat
  then JS.round (INR stableItems / INR totalItems * 100)
  else 100%Z.

(** ** The loss latch across a round *)

(** Where the latch and the loss counter of [g] can be, started from
    [g0]: either the latch is set and at most one loss was added (none if
    it was set before), or it is still open and nothing was added. *)
Definition latchedSince (g0 g : Game) : Prop :=
  (fallOutTriggered g = true
   /\ (lossTriggers g0 <= lossTriggers g)%nat
   /\ (lossTriggers g <= lossTriggers g0 + (if fallOutTriggered g0 then 0 else 1))%nat)
  \/ (fallOutTriggered g = false /\ fallOutTriggered g0 = false
      /\ lossTriggers g = lossTriggers g0).

(** ** Texture coordinates ([Coords]) *)

(** [Coords.worldToCanvas] and [Coords.canvasToWorld] *)
Definition worldToCanvas (worldX worldZ tileSize texSize tileCenterX tileCenterZ : R)
  : R * R :=
  let halfTile := tileSize / 2 in
  let relX := worldX - (tileCenterX - halfTile) in
  let relZ := (tileCenterZ + halfTile) - worldZ in
  (relX / tileSize * texSize, relZ / tileSize * texSize).

Definition canvasToWorld (canvasX canvasY tileSize texSize tileCenterX tileCenterZ : R)
  : R * R :=
  let halfTile := tileSize / 2 in
  let relX := canvasX / texSize * tileSize in
  let relZ := canvasY / texSize * tileSize in
  ((tileCenterX - halfTile) + relX, (tileCenterZ + halfTile) - relZ).

(** ** Counting what a fallen check marks *)

(** The shape the loop bodies of both reporting checks share: an item
    selected by [mark] is flagged and counted. *)
Definition markWhen (mark : Item -> bool) (acc : Store * nat) (i : nat)
  : Store * nat :=
  match nth_error (fst acc) i with
  | Some it =>
      if mark it
      then (storeSet i (set_isFallen true it) (fst acc), S (snd acc))
      else acc
  | None => acc
  end.

(** The test of [PhysicsSystem.checkFallenItems] on one item. *)
Definition fellAwayItem (tb : option TruckBounds) (it : Item) : bool :=
  negb (isFallen it)
  && match mesh it with
     | Some m => fellAway tb (mesh_position m)
     | None => false
     end.

(** [n] invocations of the fall-out callback. *)
Fixpoint callbacks (n : nat) (g : Game) : Game :=
  match n with
  | O => g
  | S m => onItemFellOut (callbacks m g)
  end.

(** ** Comparing the fall detectors *)

(** The "way outside" test of the post-step pass on an item, at the
    truck's pose. *)
Definition wayOutsideItem (t : Truck) (it : Item) : bool :=
  wayOutside (halfExtentX 0.3 it) (halfExtentZ 0.3 it) (itemLocalX t it)
             (itemLocalZ t it) (vy (meshPos it)).

(** No dimension of the item's box is negative. *)
Definition sizeNonNegative (it : Item) : Prop :=
  match size it with
  | Some sz => 0 <= vx sz /\ 0 <= vy sz /\ 0 <= vz sz
  | None => True
  end.

(** A box flung far off to the left of the truck. *)
Definition flungBox : Item :=
  placedItemAt (mkVec3 (-5) 1.5 0) (mkVec3 0.4 0.4 0.4) restingBody.

(** The game with [itemManager.placedItems] replaced. *)
Definition withPlacedItems (refs : list nat) (g : Game) : Game :=
  {| isRunning := isRunning g; isPaused := isPaused g;
     fallOutTriggered := fallOutTriggered g; placedItems := refs;
     callbackCalls := callbackCalls g; lossTriggers := lossTriggers g |}.
(** * Properties *)

(** ** Comparison lemmas *)

Module JSFacts.
Import JS.

Lemma ltb_true a b : ltb a b = true <-> a < b.
Proof. unfold ltb. destruct (Rlt_dec a b); split; intros; auto; discriminate. Qed.

Lemma ltb_false a b : ltb a b = false <-> b <= a.
Proof.
  unfold ltb. destruct (Rlt_dec a b); split; intros; auto; try discriminate; lra.
Qed.

Lemma leb_true a b : leb a b = true <-> a <= b.
Proof. unfold leb. destruct (Rle_dec a b); split; intros; auto; discriminate. Qed.

Lemma leb_false a b : leb a b = false <-> b < a.
Proof.
  unfold leb. destruct (Rle_dec a b); split; intros; auto; try discriminate; lra.
Qed.

Lemma gtb_true a b : gtb a b = true <-> b < a.
Proof. apply ltb_true. Qed.

Lemma gtb_false a b : gtb a b = false <-> a <= b.
Proof. apply ltb_false. Qed.

Lemma geb_true a b : geb a b = true <-> b <= a.
Proof. apply leb_true. Qed.

Lemma geb_false a b : geb a b = false <-> a < b.
Proof. apply leb_false. Qed.

Lemma eqb_true a b : eqb a b = true <-> a = b.
Proof. unfold eqb. destruct (Req_dec_T a b); split; intros; auto; discriminate. Qed.

Lemma eqb_false a b : eqb a b = false <-> a <> b.
Proof.
  unfold eqb. destruct (Req_dec_T a b); split; intros; auto; try discriminate.
  contradiction.
Qed.

End JSFacts.

(** Case analysis on every comparison of the goal, each branch recording the
    outcome as an inequality. *)
Ltac js_cases :=
  repeat match goal with
  | |- context [JS.ltb ?a ?b] =>
      let H := fresh "C" in
      destruct (JS.ltb a b) eqn:H;
      [apply JSFacts.ltb_true in H | apply JSFacts.ltb_false in H]
  | |- context [JS.leb ?a ?b] =>
      let H := fresh "C" in
      destruct (JS.leb a b) eqn:H;
      [apply JSFacts.leb_true in H | apply JSFacts.leb_false in H]
  | |- context [JS.gtb ?a ?b] =>
      let H := fresh "C" in
      destruct (JS.gtb a b) eqn:H;
      [apply JSFacts.gtb_true in H | apply JSFacts.gtb_false in H]
  | |- context [JS.geb ?a ?b] =>
      let H := fresh "C" in
      destruct (JS.geb a b) eqn:H;
      [apply JSFacts.geb_true in H | apply JSFacts.geb_false in H]
  | |- context [JS.eqb ?a ?b] =>
      let H := fresh "C" in
      destruct (JS.eqb a b) eqn:H;
      [apply JSFacts.eqb_true in H | apply JSFacts.eqb_false in H]
  end.

(** Rewrites a comparison whose outcome follows from the context by [lra]. *)
Ltac js_decide :=
  repeat match goal with
  | |- context [JS.ltb ?a ?b] =>
      first [ replace (JS.ltb a b) with true by (symmetry; apply JSFacts.ltb_true; lra)
            | replace (JS.ltb a b) with false by (symmetry; apply JSFacts.ltb_false; lra) ]
  | |- context [JS.leb ?a ?b] =>
      first [ replace (JS.leb a b) with true by (symmetry; apply JSFacts.leb_true; lra)
            | replace (JS.leb a b) with false by (symmetry; apply JSFacts.leb_false; lra) ]
  | |- context [JS.gtb ?a ?b] =>
      first [ replace (JS.gtb a b) with true by (symmetry; apply JSFacts.gtb_true; lra)
            | replace (JS.gtb a b) with false by (symmetry; apply JSFacts.gtb_false; lra) ]
  | |- context [JS.geb ?a ?b] =>
      first [ replace (JS.geb a b) with true by (symmetry; apply JSFacts.geb_true; lra)
            | replace (JS.geb a b) with false by (symmetry; apply JSFacts.geb_false; lra) ]
  | |- context [JS.eqb ?a ?b] =>
      first [ replace (JS.eqb a b) with true by (symmetry; apply JSFacts.eqb_true; lra)
            | replace (JS.eqb a b) with false by (symmetry; apply JSFacts.eqb_false; lra) ]
  end.

(** Evaluates [Rmin], [Rmax] and [Rabs] where [lra] can tell which side
    wins. *)
Ltac r_decide :=
  repeat match goal with
  | |- context [Rmin ?x ?y] =>
      first [ rewrite (Rmin_left x y) by lra | rewrite (Rmin_right x y) by lra ]
  | |- context [Rmax ?x ?y] =>
      first [ rewrite (Rmax_left x y) by lra | rewrite (Rmax_right x y) by lra ]
  | |- context [Rabs ?x] =>
      first [ rewrite (Rabs_pos_eq x) by lra | rewrite (Rabs_left1 x) by lra ]
  end.

Lemma Rabs_le_between (x b : R) : Rabs x <= b -> - b <= x <= b.
Proof. unfold Rabs. destruct (Rcase_abs x); lra. Qed.

Lemma Rabs_lt_between (x b : R) : Rabs x < b -> - b < x < b.
Proof. unfold Rabs. destruct (Rcase_abs x); lra. Qed.

Lemma Rabs_gt_outside (x b : R) : b < Rabs x -> x < - b \/ b < x.
Proof. unfold Rabs. destruct (Rcase_abs x); lra. Qed.

Lemma truthy_nonzero a : a <> 0 -> JS.truthy a = true.
Proof.
  intros H. unfold JS.truthy.
  replace (JS.eqb a 0) with false by (symmetry; apply JSFacts.eqb_false; exact H).
  reflexivity.
Qed.

Lemma truthy_zero : JS.truthy 0 = false.
Proof.
  unfold JS.truthy.
  replace (JS.eqb 0 0) with true by (symmetry; apply JSFacts.eqb_true; reflexivity).
  reflexivity.
Qed.

(** ** Drivetrain: speed *)

Lemma clampSpeed_bounds spd :
  - maxSpeed <= clampSpeed spd <= maxSpeed * 0.3.
Proof.
  unfold clampSpeed, maxSpeed.
  split.
  - apply Rmax_l.
  - apply Rmax_lub; [lra | apply Rmin_l].
Qed.

Lemma settleSpeed_cases autoBraking timer spd :
  settleSpeed autoBraking timer spd = 0 \/ settleSpeed autoBraking timer spd = spd.
Proof.
  unfold settleSpeed.
  destruct (negb autoBraking && JS.eqb timer 0 && JS.ltb (Rabs spd) 0.2); auto.
Qed.

Lemma autoBrakeTimer_speedClamped k dt t :
  autoBrakeTimer (speedClamped k dt t) = autoBrakeTimer (autoBrakeCountdown dt t).
Proof. reflexivity. Qed.

(** C4.  After the speed-update step of [updateDriving], whatever the keys
    held, the auto-brake state and the time step, the speed lies in
    [[-maxSpeed, maxSpeed * 0.3]]. *)
Theorem speed_within_limits (k : Keys) (dt : R) (t : Truck) :
  - maxSpeed <= speed (speedUpdate k dt t) <= maxSpeed * 0.3.
Proof.
  unfold speedUpdate.
  set (t4 := speedClamped k dt t).
  assert (Hc : - maxSpeed <= speed t4 <= maxSpeed * 0.3)
    by (unfold t4, speedClamped; cbn; apply clampSpeed_bounds).
  change (- maxSpeed
          <= settleSpeed (JS.gtb (autoBrakeTimer t4) 0) (autoBrakeTimer t4) (speed t4)
          <= maxSpeed * 0.3).
  destruct (settleSpeed_cases (JS.gtb (autoBrakeTimer t4) 0)
              (autoBrakeTimer t4) (speed t4)) as [E | E];
    rewrite E; [unfold maxSpeed in *; lra | exact Hc].
Qed.

(** C10.  In a frame whose auto-brake timer is 0 after the countdown, a
    clamped speed of magnitude below 0.2 is replaced by exactly 0, so the
    speed update never ends with [0 < |speed| < 0.2]; nothing requires
    auto-brake to have been engaged before. *)
Theorem full_stop_when_timer_idle (k : Keys) (dt : R) (t : Truck) :
  autoBrakeTimer (autoBrakeCountdown dt t) = 0 ->
  (Rabs (speed (speedClamped k dt t)) < 0.2 -> speed (speedUpdate k dt t) = 0)
  /\ (speed (speedUpdate k dt t) = 0 \/ 0.2 <= Rabs (speed (speedUpdate k dt t))).
Proof.
  intros Htimer.
  unfold speedUpdate.
  rewrite autoBrakeTimer_speedClamped, Htimer.
  cbn. unfold settleSpeed.
  js_decide. cbn.
  js_cases; split; intros; auto; try lra.
Qed.

Lemma full_stop_when_timer_idle_witness :
  autoBrakeTimer (autoBrakeCountdown 0.01 (newTruck None)) = 0
  /\ speed (speedUpdate keyW 0.01 (newTruck None)) = 0.
Proof.
  assert (H0 : autoBrakeTimer (autoBrakeCountdown 0.01 (newTruck None)) = 0).
  { unfold autoBrakeCountdown. cbn. js_decide. reflexivity. }
  split; [exact H0 |].
  apply (full_stop_when_timer_idle keyW 0.01 (newTruck None) H0).
  unfold speedClamped, autoBrakeCountdown. cbn. js_decide. cbn.
  unfold accelerate, gearAccel, clampSpeed, maxSpeed. cbn.
  unfold JS.or_default, JS.truthy. js_decide. cbn. js_decide.
  r_decide. lra.
Defined.

(** ** Drivetrain: gears *)

Lemma forward_gear_cases (g : Z) :
  (1 <= g <= 5)%Z -> g = 1%Z \/ g = 2%Z \/ g = 3%Z \/ g = 4%Z \/ g = 5%Z.
Proof. lia. Qed.

Lemma forwardGear_highest cur absSpeed :
  highestGearMet cur absSpeed (forwardGear cur absSpeed)
  \/ (forwardGear cur absSpeed = 1%Z /\ noGearMet cur absSpeed).
Proof.
  unfold forwardGear, highestGearMet, noGearMet. cbn [fold_left].
  destruct (gearThresholdMet cur absSpeed 5) eqn:M5.
  { left. split; [lia | split; [assumption |]]. intros g' Hg. lia. }
  destruct (gearThresholdMet cur absSpeed 4) eqn:M4.
  { left. split; [lia | split; [assumption |]]. intros g' Hg.
    assert (g' = 5%Z) by lia. subst. exact M5. }
  destruct (gearThresholdMet cur absSpeed 3) eqn:M3.
  { left. split; [lia | split; [assumption |]]. intros g' Hg.
    assert (g' = 4%Z \/ g' = 5%Z) as [-> | ->] by lia; assumption. }
  destruct (gearThresholdMet cur absSpeed 2) eqn:M2.
  { left. split; [lia | split; [assumption |]]. intros g' Hg.
    assert (g' = 3%Z \/ g' = 4%Z \/ g' = 5%Z) as [-> | [-> | ->]] by lia;
      assumption. }
  destruct (gearThresholdMet cur absSpeed 1) eqn:M1.
  { left. split; [lia | split; [assumption |]]. intros g' Hg.
    assert (g' = 2%Z \/ g' = 3%Z \/ g' = 4%Z \/ g' = 5%Z)
      as [-> | [-> | [-> | ->]]] by lia; assumption. }
  right. split; [reflexivity |].
  intros g Hg.
  destruct (forward_gear_cases g Hg) as [-> | [-> | [-> | [-> | ->]]]];
    assumption.
Qed.

(** Inside the hysteresis band of gear [k] the gear neither shifts up
    from [k - 1] nor down from [k]. *)
Lemma forwardGear_band (k cur : Z) (absSpeed : R) :
  (2 <= k <= 5)%Z ->
  cur = (k - 1)%Z \/ cur = k ->
  nth (Z.to_nat k) gearDownSpeeds 0 <= absSpeed < nth (Z.to_nat k) gearSpeeds 0 ->
  forwardGear cur absSpeed = cur.
Proof.
  intros Hk Hcur Hband.
  assert (Hk' : k = 2%Z \/ k = 3%Z \/ k = 4%Z \/ k = 5%Z) by lia.
  unfold forwardGear, gearThresholdMet, gearThreshold. cbn [fold_left].
  destruct Hk' as [-> | [-> | [-> | ->]]];
    destruct Hcur as [-> | ->];
    simpl in Hband |- *; js_decide; reflexivity.
Qed.

Lemma currentGear_updateGear t :
  currentGear (updateGear t) = nextGear (currentGear t) (speed t).
Proof. reflexivity. Qed.

(** C7, as the code has it.  [updateGear] makes the new gear a function of
    the previous gear and the speed: -1 above 0.5, 0 when [|speed| <= 0.5],
    and for forward motion the highest gear of 1..5 whose threshold
    (downshift table if the truck is in that gear or higher, upshift table
    otherwise) is met, or gear 1 when no threshold is met.  Inside the band
    between the downshift and the upshift threshold of a gear the gear does
    not change, whichever side of the boundary the truck is on. *)
Theorem updateGear_hysteresis (t : Truck) :
  let cur := currentGear t in
  let spd := speed t in
  let g := currentGear (updateGear t) in
  g = nextGear cur spd
  /\ (0.5 < spd -> g = (-1)%Z)
  /\ (Rabs spd <= 0.5 -> g = 0%Z)
  /\ (spd < -0.5 ->
      highestGearMet cur (Rabs spd) g
      \/ (g = 1%Z /\ noGearMet cur (Rabs spd)))
  /\ (forall k : Z,
        (2 <= k <= 5)%Z -> spd < -0.5 ->
        cur = (k - 1)%Z \/ cur = k ->
        nth (Z.to_nat k) gearDownSpeeds 0 <= Rabs spd
          < nth (Z.to_nat k) gearSpeeds 0 ->
        g = cur).
Proof.
  cbv zeta. rewrite currentGear_updateGear.
  unfold nextGear.
  repeat split.
  - intros H. js_decide. reflexivity.
  - intros H. apply Rabs_le_between in H. js_decide. reflexivity.
  - intros H. js_decide. apply forwardGear_highest.
  - intros k Hk H Hcur Hband. js_decide.
    apply (forwardGear_band k); assumption.
Qed.

(** C7, as stated, fails: crawling forward at 10 mph from neutral the
    truck is put in gear 1 although the threshold of gear 1 (25, the
    upshift table, since the truck is in a lower gear) is not met. *)
Lemma gear_one_without_threshold :
  speed crawlingTruck < -0.5
  /\ currentGear (updateGear crawlingTruck) = 1%Z
  /\ gearThresholdMet (currentGear crawlingTruck)
                      (Rabs (speed crawlingTruck)) 1 = false
  /\ ~ highestGearMet (currentGear crawlingTruck) (Rabs (speed crawlingTruck))
                      (currentGear (updateGear crawlingTruck)).
Proof.
  assert (Hs : speed crawlingTruck = -10) by reflexivity.
  assert (Hc : currentGear crawlingTruck = 0%Z) by reflexivity.
  assert (Hm : gearThresholdMet 0 (Rabs (-10)) 1 = false).
  { unfold gearThresholdMet, gearThreshold. simpl. r_decide. js_decide. reflexivity. }
  assert (Hg : currentGear (updateGear crawlingTruck) = 1%Z).
  { rewrite currentGear_updateGear, Hs, Hc. unfold nextGear. js_decide.
    unfold forwardGear, gearThresholdMet, gearThreshold. simpl. r_decide.
    js_decide. reflexivity. }
  rewrite Hg, Hs, Hc.
  repeat split; try lra; try exact Hm.
  intros [_ [Hmet _]]. rewrite Hm in Hmet. discriminate.
Qed.

(** ** Collision broker: mesh test and rotation veto *)

Section MeshCollisionFacts.

Variable intersectsMesh : RootNode -> TruckMesh -> Obstacle -> bool.

Lemma rootNode_eta (r : RootNode) :
  mkRootNode (root_x r) (root_z r) (root_rotY r) = r.
Proof. destruct r; reflexivity. Qed.

(** C9.  [checkMeshCollision] leaves the root node where it found it —
    position x and z and rotation y — on the early return, on a cache hit
    and after a full test, whatever the outcome; the committed pose and
    speed of the truck are not touched either. *)
Theorem checkMeshCollision_restores_root
    (frameId : Z) (posX posZ rotY : R) (t : Truck) :
  let t' := snd (checkMeshCollision intersectsMesh frameId posX posZ rotY t) in
  root_x (root t') = root_x (root t)
  /\ root_z (root t') = root_z (root t)
  /\ root_rotY (root t') = root_rotY (root t)
  /\ position_x t' = position_x t
  /\ position_z t' = position_z t
  /\ rotation t' = rotation t
  /\ speed t' = speed t.
Proof.
  unfold checkMeshCollision.
  destruct (sceneManager t) as [sm |]; [| cbn; repeat split].
  destruct (cacheHit (_collisionCache t) frameId posX posZ rotY);
    cbn; repeat split.
Qed.

Lemma checkMeshCollision_steering (frameId : Z) (posX posZ rotY : R) (t : Truck) :
  let t' := snd (checkMeshCollision intersectsMesh frameId posX posZ rotY t) in
  turnRate t' = turnRate t /\ driftAngle t' = driftAngle t
  /\ turnInput t' = turnInput t /\ isDrifting t' = isDrifting t.
Proof.
  unfold checkMeshCollision.
  destruct (sceneManager t) as [sm |]; [| cbn; repeat split].
  destruct (cacheHit (_collisionCache t) frameId posX posZ rotY);
    cbn; repeat split.
Qed.

(** The veto branch of [rotationAttempt]. *)
Lemma rotationAttempt_vetoed
    (frameId : Z) (k : Keys) (autoBraking : bool) (dt : R) (t : Truck) :
  rotation (turning k autoBraking dt t) <> rotation t ->
  fst (checkMeshCollision intersectsMesh frameId
         (position_x (turning k autoBraking dt t))
         (position_z (turning k autoBraking dt t))
         (rotation (turning k autoBraking dt t))
         (turning k autoBraking dt t)) = true ->
  rotation (rotationAttempt intersectsMesh frameId k autoBraking dt t) = rotation t
  /\ position_x (rotationAttempt intersectsMesh frameId k autoBraking dt t)
     = position_x t
  /\ position_z (rotationAttempt intersectsMesh frameId k autoBraking dt t)
     = position_z t
  /\ turnRate (rotationAttempt intersectsMesh frameId k autoBraking dt t) = 0
  /\ driftAngle (rotationAttempt intersectsMesh frameId k autoBraking dt t)
     = Some 0.
Proof.
  intros Hrot Hhit.
  unfold rotationAttempt, rotationVeto.
  set (attempted := turning k autoBraking dt t) in *.
  replace (JS.eqb (rotation attempted) (rotation t)) with false
    by (symmetry; apply JSFacts.eqb_false; exact Hrot).
  cbn [negb].
  destruct (checkMeshCollision intersectsMesh frameId (position_x attempted)
              (position_z attempted) (rotation attempted) attempted)
    as [hit t1].
  cbn in Hhit. subst hit. cbn. repeat split.
Qed.

(** C5, as the code has it.  When the turn of a frame changes the heading
    and the mesh test at the rotated pose reports a collision, the heading
    and the position are put back to their values from before the turn,
    and the turn rate and the drift angle are both set to 0. *)
Theorem rotation_veto_reverts_pose
    (frameId : Z) (k : Keys) (autoBraking : bool) (dt : R) (t : Truck) :
  let attempted := turning k autoBraking dt t in
  rotation attempted <> rotation t ->
  fst (checkMeshCollision intersectsMesh frameId (position_x attempted)
         (position_z attempted) (rotation attempted) attempted) = true ->
  let t' := rotationAttempt intersectsMesh frameId k autoBraking dt t in
  rotation t' = rotation t
  /\ position_x t' = position_x t
  /\ position_z t' = position_z t
  /\ turnRate t' = 0
  /\ driftAngle t' = Some 0.
Proof.
  intros attempted Hrot Hhit t'.
  exact (rotationAttempt_vetoed frameId k autoBraking dt t Hrot Hhit).
Qed.

End MeshCollisionFacts.

Lemma slidingTruck_turns :
  rotation (turning keyABrake false 0.05 slidingTruck)
  = 0 + 1.9 * 1 * 0.05 * -1 * 1.3 * 0.6
  /\ driftAngle (turning keyABrake false 0.05 slidingTruck) = Some 0.15.
Proof.
  unfold turning, slidingTruck, steer, turnInputOf, driftAngleOf, isDriftingOf,
    maxSpeed, turnSpeed, rearAxleOffset.
  cbn.
  replace ((1 + 0 - 0) * Rmin 1 (0.05 * 12)) with 0.6
    by (rewrite (Rmin_right 1 (0.05 * 12)) by lra; lra).
  replace (0 + 0.6) with 0.6 by lra.
  replace (Rabs (-50)) with 50 by (rewrite Rabs_left1 by lra; lra).
  replace (Rabs (1 + 0)) with 1 by (rewrite Rabs_pos_eq by lra; lra).
  replace (Rabs 0.6) with 0.6 by (rewrite Rabs_pos_eq by lra; lra).
  replace (Rmin 1 (50 / 20)) with 1 by (rewrite Rmin_left by lra; lra).
  replace (Rmin 1 0.6) with 0.6 by (rewrite Rmin_right by lra; lra).
  js_decide. cbn. js_decide. cbn. js_decide. cbn.
  replace (Rmin 0.15 (0.15 + 0.05 * 0.8)) with 0.15
    by (rewrite Rmin_left by lra; lra).
  js_decide. cbn.
  split; reflexivity.
Qed.

Lemma turning_scene k autoBraking dt t :
  sceneManager (turning k autoBraking dt t) = sceneManager t
  /\ _collisionCache (turning k autoBraking dt t) = _collisionCache t
  /\ root (turning k autoBraking dt t) = root t.
Proof.
  unfold turning. cbn.
  destruct (JS.gtb (Rabs (speed t)) 0.1); [| cbn; repeat split].
  match goal with |- context [steer ?a ?b ?c ?d ?e ?f ?g ?h] =>
    destruct (steer a b c d e f g h) as [[dRot rate] drift] end.
  destruct (negb (JS.eqb dRot 0)); cbn; repeat split.
Qed.

Lemma slidingTruck_collides posX posZ rotY t :
  sceneManager t = Some wallScene ->
  _collisionCache t = None ->
  fst (checkMeshCollision alwaysHit 0 posX posZ rotY t) = true.
Proof.
  intros Hsm Hc. unfold checkMeshCollision. rewrite Hsm, Hc. cbn.
  unfold detectCollision. cbn. reflexivity.
Qed.

Lemma rotation_veto_reverts_pose_witness :
  rotation (rotationAttempt alwaysHit 0 keyABrake false 0.05 slidingTruck)
  = rotation slidingTruck.
Proof.
  refine (proj1 (rotation_veto_reverts_pose alwaysHit 0 keyABrake false 0.05
                   slidingTruck _ _)).
  - destruct slidingTruck_turns as [Hr _]. rewrite Hr.
    change (rotation slidingTruck) with 0. lra.
  - apply slidingTruck_collides;
      [rewrite (proj1 (turning_scene _ _ _ _)) | rewrite (proj1 (proj2 (turning_scene _ _ _ _)))];
      reflexivity.
Defined.

(** C5, as stated, fails for the drift angle: the vetoed turn leaves it at
    0, not at the 0.15 it had before the rotation attempt. *)
Lemma veto_does_not_restore_drift_angle :
  rotation (turning keyABrake false 0.05 slidingTruck) <> rotation slidingTruck
  /\ fst (checkMeshCollision alwaysHit 0
            (position_x (turning keyABrake false 0.05 slidingTruck))
            (position_z (turning keyABrake false 0.05 slidingTruck))
            (rotation (turning keyABrake false 0.05 slidingTruck))
            (turning keyABrake false 0.05 slidingTruck)) = true
  /\ driftAngle slidingTruck = Some 0.15
  /\ driftAngle (rotationAttempt alwaysHit 0 keyABrake false 0.05 slidingTruck)
     = Some 0
  /\ driftAngle (rotationAttempt alwaysHit 0 keyABrake false 0.05 slidingTruck)
     <> driftAngle slidingTruck.
Proof.
  assert (Hrot : rotation (turning keyABrake false 0.05 slidingTruck)
                 <> rotation slidingTruck).
  { destruct slidingTruck_turns as [Hr _]. rewrite Hr.
    change (rotation slidingTruck) with 0. lra. }
  assert (Hhit : fst (checkMeshCollision alwaysHit 0
            (position_x (turning keyABrake false 0.05 slidingTruck))
            (position_z (turning keyABrake false 0.05 slidingTruck))
            (rotation (turning keyABrake false 0.05 slidingTruck))
            (turning keyABrake false 0.05 slidingTruck)) = true)
    by (apply slidingTruck_collides;
        [rewrite (proj1 (turning_scene _ _ _ _))
        | rewrite (proj1 (proj2 (turning_scene _ _ _ _)))]; reflexivity).
  destruct (rotationAttempt_vetoed alwaysHit 0 keyABrake false 0.05
              slidingTruck Hrot Hhit) as (_ & _ & _ & _ & Hd).
  repeat split; try assumption; try reflexivity.
  rewrite Hd. change (driftAngle slidingTruck) with (Some 0.15).
  intros E. injection E as E. lra.
Qed.

(** ** Collision broker: escape rule of [checkCollision] *)

Lemma checkCollision_when_stuck (t : Truck) (sm : SceneManager) (newX newZ : R) :
  sceneManager t = Some sm ->
  (0 < snd (collisionCounts t sm newX newZ))%nat ->
  checkCollision t newX newZ
  = (snd (collisionCounts t sm newX newZ)
     <=? fst (collisionCounts t sm newX newZ))%nat.
Proof.
  intros Hsm Hcur. unfold checkCollision. rewrite Hsm.
  destruct (collisionCounts t sm newX newZ) as [newCollisions currentCollisions].
  cbn [fst snd] in *.
  destruct currentCollisions as [| c]; [lia | reflexivity].
Qed.

Lemma countIf_nil {A : Type} (p : A -> bool) : countIf p [] = 0%nat.
Proof. reflexivity. Qed.

Lemma countIf_cons {A : Type} (p : A -> bool) (x : A) (l : list A) :
  countIf p (x :: l) = ((if p x then 1 else 0) + countIf p l)%nat.
Proof. unfold countIf. cbn. destruct (p x); reflexivity. Qed.

(** C6, as the code has it.  When the current pose already penetrates
    walls or houses, [checkCollision] approves a candidate move exactly
    when it lowers the penetration count, and blocks every move that keeps
    the count or raises it. *)
Theorem stuck_truck_may_only_reduce_penetration
    (t : Truck) (sm : SceneManager) (newX newZ : R) :
  sceneManager t = Some sm ->
  let newCollisions := fst (collisionCounts t sm newX newZ) in
  let currentCollisions := snd (collisionCounts t sm newX newZ) in
  (0 < currentCollisions)%nat ->
  (checkCollision t newX newZ = false <-> (newCollisions < currentCollisions)%nat)
  /\ (checkCollision t newX newZ = true <-> (currentCollisions <= newCollisions)%nat).
Proof.
  intros Hsm newCollisions currentCollisions Hcur.
  rewrite (checkCollision_when_stuck t sm newX newZ Hsm Hcur).
  fold newCollisions currentCollisions.
  split.
  - rewrite Nat.leb_gt. reflexivity.
  - rewrite Nat.leb_le. reflexivity.
Qed.

Lemma stuckTruck_counts (newZ : R) :
  -5 <= newZ <= 5 ->
  collisionCounts stuckTruck sideWallScene 0 newZ = (11, 11)%nat.
Proof.
  intros Hz.
  unfold collisionCounts, countHouseCollisions, countWallCollisions, stuckTruck.
  cbn [sideWallScene destinationWallBounds housesByTile newTruck rotation
       position_x position_z fold_left fst snd].
  rewrite cos_0, sin_0.
  unfold wallHits, checkPoints.
  rewrite !countIf_cons, !countIf_nil.
  unfold insideWall, toWorldX, toWorldZ, truckHalfWidth, truckFront, truckBack.
  cbn [minX maxX minZ maxZ fst snd].
  rewrite (Rmin_left (-2) (-1)) by lra.
  rewrite (Rmax_right (-2) (-1)) by lra.
  rewrite (Rmin_left (-10) 10) by lra.
  rewrite (Rmax_right (-10) 10) by lra.
  js_decide.
  reflexivity.
Qed.

Lemma stuck_truck_may_only_reduce_penetration_witness :
  checkCollision stuckTruck 0 (-0.5) = true
  <-> (snd (collisionCounts stuckTruck sideWallScene 0 (-0.5))
       <= fst (collisionCounts stuckTruck sideWallScene 0 (-0.5)))%nat.
Proof.
  refine (proj2 (stuck_truck_may_only_reduce_penetration stuckTruck sideWallScene
                   0 (-0.5) eq_refl _)).
  rewrite stuckTruck_counts by lra. cbn. lia.
Defined.

(** C6, as stated, fails: sliding half a metre forward along the wall does
    not increase the penetration count (eleven points before, eleven after),
    yet the move is blocked. *)
Lemma move_keeping_penetration_is_blocked :
  (0 < snd (collisionCounts stuckTruck sideWallScene 0 (-0.5)))%nat
  /\ (fst (collisionCounts stuckTruck sideWallScene 0 (-0.5))
      <= snd (collisionCounts stuckTruck sideWallScene 0 (-0.5)))%nat
  /\ checkCollision stuckTruck 0 (-0.5) = true.
Proof.
  assert (Hc : collisionCounts stuckTruck sideWallScene 0 (-0.5) = (11, 11)%nat)
    by (apply stuckTruck_counts; lra).
  rewrite (checkCollision_when_stuck stuckTruck sideWallScene 0 (-0.5) eq_refl)
    by (rewrite Hc; cbn; lia).
  rewrite Hc. cbn. repeat split; lia.
Qed.

(** ** The item store and its loops *)

Lemma storeSet_length i it st : length (storeSet i it st) = length st.
Proof.
  revert i. induction st as [| x rest IH]; intros [| j]; cbn; auto.
Qed.

Lemma storeSet_same i it st :
  (i < length st)%nat -> nth_error (storeSet i it st) i = Some it.
Proof.
  revert i. induction st as [| x rest IH]; intros [| j] H; cbn in *; try lia; auto.
  apply IH. lia.
Qed.

Lemma storeSet_other i j it st :
  i <> j -> nth_error (storeSet i it st) j = nth_error st j.
Proof.
  revert i j. induction st as [| x rest IH]; intros [| i] [| j] H; cbn; auto.
  contradiction.
Qed.

Lemma nth_error_in_range {A : Type} (l : list A) i x :
  nth_error l i = Some x -> (i < length l)%nat.
Proof. intros H. apply nth_error_Some. rewrite H. discriminate. Qed.

Section IndexedLoop.

Variable f : nat -> Item -> Item.

Lemma visit_length acc ki : length (visit f acc ki) = length acc.
Proof.
  unfold visit. destruct (nth_error acc (snd ki)); auto using storeSet_length.
Qed.

Lemma visits_length l st : length (fold_left (visit f) l st) = length st.
Proof.
  revert st. induction l as [| ki l IH]; intros st; cbn; auto.
  rewrite IH. apply visit_length.
Qed.

Lemma visit_other acc ki i :
  snd ki <> i -> nth_error (visit f acc ki) i = nth_error acc i.
Proof.
  intros H. unfold visit.
  destruct (nth_error acc (snd ki)); auto using storeSet_other.
Qed.

Lemma visit_same acc k i x :
  nth_error acc i = Some x -> nth_error (visit f acc (k, i)) i = Some (f k x).
Proof.
  intros H. unfold visit. cbn. rewrite H.
  apply storeSet_same. eapply nth_error_in_range; eauto.
Qed.

(** An item no reference of the loop points to is left alone. *)
Lemma visits_untouched l st i :
  ~ In i (map snd l) -> nth_error (fold_left (visit f) l st) i = nth_error st i.
Proof.
  revert st. induction l as [| ki l IH]; intros st Hn; cbn; auto.
  cbn in Hn. rewrite IH by tauto. apply visit_other. tauto.
Qed.

(** An item some reference points to leaves the loop as the image of the
    loop body. *)
Lemma visits_visited l st i x :
  In i (map snd l) -> nth_error st i = Some x ->
  exists k z, nth_error (fold_left (visit f) l st) i = Some (f k z).
Proof.
  revert st x. induction l as [| [k r] l IH]; intros st x Hin Hx; cbn in *.
  - contradiction.
  - destruct (in_dec Nat.eq_dec i (map snd l)) as [Hl | Hl].
    + destruct (Nat.eq_dec r i) as [-> | Hne].
      * eapply IH; eauto. apply visit_same. exact Hx.
      * eapply IH; eauto. rewrite visit_other by (cbn; exact Hne). exact Hx.
    + destruct Hin as [-> | Hin]; [| contradiction].
      exists k, x. rewrite visits_untouched by exact Hl.
      apply visit_same. exact Hx.
Qed.

(** A property every run of the loop body preserves survives the loop. *)
Lemma visits_preserve (P : Item -> Prop) l st i x :
  (forall k y, P y -> P (f k y)) ->
  nth_error st i = Some x -> P x ->
  exists y, nth_error (fold_left (visit f) l st) i = Some y /\ P y.
Proof.
  intros HP. revert st x.
  induction l as [| [k r] l IH]; intros st x Hx Px; cbn.
  - eauto.
  - destruct (Nat.eq_dec r i) as [-> | Hne].
    + eapply IH; [apply visit_same; exact Hx | auto].
    + eapply IH; [rewrite visit_other by (cbn; exact Hne); exact Hx | auto].
Qed.

End IndexedLoop.

Lemma forEachItemAt_visits f refs st :
  forEachItemAt f refs st
  = fold_left (visit f) (combine (seq 0 (length refs)) refs) st.
Proof. reflexivity. Qed.

Lemma snd_combine_seq (refs : list nat) n :
  map snd (combine (seq n (length refs)) refs) = refs.
Proof.
  revert n. induction refs as [| r refs IH]; intros n; cbn; auto.
  rewrite IH. reflexivity.
Qed.

Lemma forEachItemAt_visited f refs st i x :
  In i refs -> nth_error st i = Some x ->
  exists k z, nth_error (forEachItemAt f refs st) i = Some (f k z).
Proof.
  intros Hin Hx. rewrite forEachItemAt_visits.
  eapply visits_visited; eauto. rewrite snd_combine_seq. exact Hin.
Qed.

Lemma forEachItemAt_preserve (P : Item -> Prop) f refs st i x :
  (forall k y, P y -> P (f k y)) ->
  nth_error st i = Some x -> P x ->
  exists y, nth_error (forEachItemAt f refs st) i = Some y /\ P y.
Proof.
  intros. rewrite forEachItemAt_visits. eapply visits_preserve; eauto.
Qed.

Lemma forEachItemAt_length f refs st :
  length (forEachItemAt f refs st) = length st.
Proof. rewrite forEachItemAt_visits. apply visits_length. Qed.

Lemma forEachItem_visits f refs st :
  forEachItem f refs st
  = fold_left (visit (fun _ => f)) (map (fun i => (O, i)) refs) st.
Proof.
  unfold forEachItem. revert st.
  induction refs as [| r refs IH]; intros st; cbn; auto.
Qed.

Lemma forEachItem_preserve (P : Item -> Prop) f refs st i x :
  (forall y, P y -> P (f y)) ->
  nth_error st i = Some x -> P x ->
  exists y, nth_error (forEachItem f refs st) i = Some y /\ P y.
Proof.
  intros. rewrite forEachItem_visits.
  eapply (visits_preserve (fun _ => f)); eauto.
Qed.

Lemma forEachItem_length f refs st :
  length (forEachItem f refs st) = length st.
Proof. rewrite forEachItem_visits. apply visits_length. Qed.

(** ** The fallen flag *)

Ltac item_cases :=
  repeat match goal with
  | |- context [match ?x with _ => _ end] => destruct x eqn:?
  end; cbn; try reflexivity.

Lemma isFallen_withBody g it : isFallen (withBody g it) = isFallen it.
Proof. unfold withBody. item_cases. Qed.

Lemma isFallen_setMeshXZ x z it : isFallen (setMeshXZ x z it) = isFallen it.
Proof. unfold setMeshXZ. item_cases. Qed.

Lemma isFallen_restore nowMs it :
  isFallen (restoreItemMotionType nowMs it) = isFallen it.
Proof.
  unfold restoreItemMotionType. item_cases; apply isFallen_withBody.
Qed.

Lemma isFallen_teleportItemBody pos nowMs it :
  isFallen (teleportItemBody pos nowMs it) = isFallen it.
Proof.
  unfold teleportItemBody. item_cases; rewrite isFallen_withBody; reflexivity.
Qed.

Lemma isFallen_teleportInside p nowMs lx lz it :
  isFallen (teleportInside p nowMs lx lz it) = isFallen it.
Proof.
  unfold teleportInside. rewrite isFallen_teleportItemBody.
  destruct (mesh (withBody _ it)); cbn; apply isFallen_withBody.
Qed.

Section PreStepFacts.

Variable newPhysicsAggregate : Mesh -> PhysicsParams -> PhysicsAggregate.

Lemma isFallen_createPhysics p it created :
  createPhysics newPhysicsAggregate p it = Some created ->
  isFallen created = isFallen it.
Proof.
  unfold createPhysics. intros H.
  destruct (mesh it) as [m |]; [| discriminate].
  destruct (bodyOfMesh m); [discriminate |].
  destruct (_pendingPhysics m); [| discriminate].
  destruct (JS.truthy (createPhysicsAt it) && JS.geb (itemsNowMs p) (createPhysicsAt it));
    [| discriminate].
  injection H as <-. reflexivity.
Qed.

Lemma isFallen_becomeDynamic p hasBody it :
  isFallen (becomeDynamic p hasBody it) = isFallen it.
Proof.
  unfold becomeDynamic. item_cases; apply isFallen_withBody.
Qed.

Lemma isFallen_rideAlong p hasBody it :
  isFallen (rideAlong p hasBody it) = isFallen it.
Proof.
  unfold rideAlong. item_cases;
    rewrite ?isFallen_withBody, ?isFallen_setMeshXZ; reflexivity.
Qed.

Lemma isFallen_dampingBoost p hasBody it :
  isFallen (dampingBoost p hasBody it) = isFallen it.
Proof.
  unfold dampingBoost. item_cases; rewrite isFallen_withBody; reflexivity.
Qed.

Lemma isFallen_lateralLock p it : isFallen (lateralLock p it) = isFallen it.
Proof.
  unfold lateralLock. item_cases; apply isFallen_withBody.
Qed.

Lemma isFallen_trackLocal lx lz it : isFallen (trackLocal lx lz it) = isFallen it.
Proof. unfold trackLocal. item_cases. Qed.

Lemma isFallen_hardClamp p lx lz it : isFallen (hardClamp p lx lz it) = isFallen it.
Proof.
  unfold hardClamp. cbv zeta.
  match goal with |- context [if ?c then _ else _] => destruct c end;
    [| reflexivity].
  rewrite isFallen_withBody, isFallen_teleportItemBody, isFallen_setMeshXZ.
  reflexivity.
Qed.

Lemma isFallen_capVelocity p it : isFallen (capVelocity p it) = isFallen it.
Proof.
  unfold capVelocity. destruct (negb (isFallen it)); [| reflexivity].
  apply isFallen_withBody.
Qed.

Lemma fallenCheck_monotone lx lz it :
  isFallen it = true -> isFallen (fallenCheck lx lz it) = true.
Proof. intros H. unfold fallenCheck. rewrite H. exact H. Qed.

(** The pre-step pass never clears the flag. *)
Lemma updateLoadedItem_monotone p it :
  isFallen it = true ->
  isFallen (updateLoadedItem newPhysicsAggregate p it) = true.
Proof.
  intros H. unfold updateLoadedItem.
  destruct (mesh it) as [m |]; [| exact H].
  cbv zeta.
  destruct (createPhysics newPhysicsAggregate p
              (restoreItemMotionType (itemsNowMs p) it)) as [created |] eqn:Hc.
  - rewrite (isFallen_createPhysics _ _ _ Hc), isFallen_restore. exact H.
  - match goal with |- context [if ?c then _ else _] => destruct c end.
    + rewrite isFallen_rideAlong, isFallen_becomeDynamic, isFallen_restore.
      exact H.
    + apply fallenCheck_monotone.
      rewrite isFallen_capVelocity, isFallen_hardClamp, isFallen_trackLocal,
        isFallen_lateralLock, isFallen_dampingBoost, isFallen_becomeDynamic,
        isFallen_restore.
      exact H.
Qed.

End PreStepFacts.

(** A fallen item is skipped by the post-step pass altogether. *)
Lemma enforceItem_skips_fallen p nowRestore nowTeleport it :
  isFallen it = true -> enforceItem p nowRestore nowTeleport it = it.
Proof.
  intros H. unfold enforceItem, skippedByEnforce. rewrite H.
  destruct (mesh it); reflexivity.
Qed.

Lemma enforceItem_monotone p nowRestore nowTeleport it :
  isFallen it = true -> isFallen (enforceItem p nowRestore nowTeleport it) = true.
Proof. intros H. rewrite enforceItem_skips_fallen; assumption. Qed.

Lemma updateLoadedItemLegacy_monotone t it :
  isFallen it = true -> isFallen (updateLoadedItemLegacy t it) = true.
Proof.
  intros H. unfold updateLoadedItemLegacy. rewrite H.
  destruct (mesh it); exact H.
Qed.

(** The hard clamp and the velocity cap of the pre-step pass leave a
    fallen item as it is. *)
Lemma hardClamp_skips_fallen p lx lz it :
  isFallen it = true -> hardClamp p lx lz it = it.
Proof.
  intros H. unfold hardClamp. rewrite H. cbv zeta.
  rewrite andb_false_r. reflexivity.
Qed.

Lemma capVelocity_skips_fallen p it :
  isFallen it = true -> capVelocity p it = it.
Proof. intros H. unfold capVelocity. rewrite H. reflexivity. Qed.

Lemma newlyFallenItem_skips_fallen t it :
  isFallen it = true -> newlyFallenItem t it = false.
Proof.
  intros H. unfold newlyFallenItem. rewrite H. destruct (mesh it); reflexivity.
Qed.

(** Loops that only ever set the flag. *)
Lemma fallenAt_storeSet st i j it :
  fallenAt st i -> (j <> i \/ isFallen it = true) -> fallenAt (storeSet j it st) i.
Proof.
  intros (x & Hx & Hf) Hor. unfold fallenAt.
  destruct (Nat.eq_dec j i) as [-> | Hne].
  - exists it. split; [| destruct Hor; [contradiction | assumption]].
    apply storeSet_same. eapply nth_error_in_range; eauto.
  - exists x. rewrite storeSet_other by exact Hne. auto.
Qed.

Lemma markSteps_monotone t refs acc i :
  fallenAt (fst acc) i -> fallenAt (fst (fold_left (markStep t) refs acc)) i.
Proof.
  revert acc. induction refs as [| r refs IH]; intros acc H; cbn; auto.
  apply IH. unfold markStep.
  destruct (nth_error (fst acc) r) as [it |] eqn:Hr; [| exact H].
  destruct (newlyFallenItem t it); [| exact H].
  cbn. apply fallenAt_storeSet; auto.
Qed.

Lemma Game_update_monotone g t st i :
  fallenAt st i -> fallenAt (snd (Game_update g t st)) i.
Proof.
  intros H. unfold Game_update.
  destruct (negb (isRunning g) || isPaused g); [exact H |].
  pose proof (markSteps_monotone t (placedItems g) (st, O) i H) as Hm.
  unfold markFallen.
  destruct (fold_left (markStep t) (placedItems g) (st, O)) as [st' n]. exact Hm.
Qed.

Lemma checkFallenSteps_monotone tb refs acc i :
  fallenAt (snd (fst acc)) i ->
  fallenAt (snd (fst (fold_left (checkFallenStep tb) refs acc))) i.
Proof.
  revert acc. induction refs as [| r refs IH]; intros acc H; cbn; auto.
  apply IH. unfold checkFallenStep. destruct acc as [[g st] n]. cbn in H.
  destruct (nth_error st r) as [it |] eqn:Hr; [| exact H].
  destruct (isFallen it); [exact H |].
  destruct (mesh it) as [m |]; [| exact H].
  destruct (fellAway tb (mesh_position m)); [| exact H].
  cbn. apply fallenAt_storeSet; auto.
Qed.

Lemma engineStep_monotone st st' i :
  engineStep st st' -> fallenAt st i -> fallenAt st' i.
Proof.
  intros HF. revert i. induction HF as [| x y l l' Hxy HF IH]; intros i (it & Hi & Hf).
  - destruct i; discriminate.
  - destruct i as [| i]; cbn in Hi.
    + injection Hi as ->. exists y. split; [reflexivity | congruence].
    + destruct (IH i) as (z & Hz & Hfz); [exists it; auto |].
      exists z. auto.
Qed.

Lemma fallenAt_app st extra i : fallenAt st i -> fallenAt (st ++ extra) i.
Proof.
  intros (it & Hi & Hf). exists it. split; [| exact Hf].
  rewrite nth_error_app1 by (eapply nth_error_in_range; eauto). exact Hi.
Qed.

Lemma withBody_preserved g it :
  createPhysicsAt (withBody g it) = createPhysicsAt it
  /\ becomeDynamicAt (withBody g it) = becomeDynamicAt it
  /\ meshPos (withBody g it) = meshPos it.
Proof.
  unfold withBody, meshPos.
  destruct it as [m isz ifl icpa ibda idbu idb illu irma irmt ilx ilz ily ibld
                    ibad ipar].
  destruct m as [[ipos [[[ibody|]]|] ipp]|]; cbn; auto.
Qed.

Lemma restore_preserved nowMs it :
  createPhysicsAt (restoreItemMotionType nowMs it) = createPhysicsAt it
  /\ becomeDynamicAt (restoreItemMotionType nowMs it) = becomeDynamicAt it
  /\ meshPos (restoreItemMotionType nowMs it) = meshPos it.
Proof.
  unfold restoreItemMotionType.
  destruct (bodyOf it); [| auto].
  destruct (negb _ || _); [auto |].
  destruct (withBody_preserved
              (fun b => set_motionType
                          match _restoreMotionType it with
                          | Some m0 => m0
                          | None => DYNAMIC
                          end
                          (set_angularVelocity Vec3_Zero
                             (set_linearVelocity Vec3_Zero b))) it)
    as (A & B & C).
  unfold meshPos in *. cbn. auto.
Qed.

(** Without a creation or activation timer the loop body of the pre-step
    pass goes straight to its main branch. *)
Lemma createPhysics_idle (newPhysicsAggregate : Mesh -> PhysicsParams -> PhysicsAggregate)
    p it :
  createPhysicsAt it = 0 -> createPhysics newPhysicsAggregate p it = None.
Proof.
  intros H. unfold createPhysics. rewrite H, truthy_zero.
  destruct (mesh it) as [m |]; [| reflexivity].
  destruct (bodyOfMesh m); [reflexivity |].
  destruct (_pendingPhysics m); reflexivity.
Qed.

Lemma becomeDynamic_idle p hasBody it :
  becomeDynamicAt it = 0 -> becomeDynamic p hasBody it = it.
Proof.
  intros H. unfold becomeDynamic. rewrite H, truthy_zero.
  rewrite andb_false_r. reflexivity.
Qed.

Lemma isSettling_idle it :
  createPhysicsAt it = 0 -> becomeDynamicAt it = 0 -> isSettling it = false.
Proof.
  intros H1 H2. unfold isSettling. rewrite H1, H2, truthy_zero. reflexivity.
Qed.

Lemma fallenCheck_skips_fallen lx lz it :
  isFallen it = true -> fallenCheck lx lz it = it.
Proof. intros H. unfold fallenCheck. rewrite H. reflexivity. Qed.

(** What the pre-step pass does to a fallen item that has a mesh and no
    timer running: everything but the hard clamp, the velocity cap and the
    fallen check. *)
Lemma updateLoadedItem_fallen
    (newPhysicsAggregate : Mesh -> PhysicsParams -> PhysicsAggregate) p it :
  mesh it <> None -> isFallen it = true ->
  createPhysicsAt it = 0 -> becomeDynamicAt it = 0 ->
  updateLoadedItem newPhysicsAggregate p it
  = trackLocal (preLocalX p it) (preLocalZ p it)
      (lateralLock p
         (dampingBoost p (match bodyOf it with Some _ => true | None => false end)
            (restoreItemMotionType (itemsNowMs p) it))).
Proof.
  intros Hm Hf Hc Hb.
  unfold updateLoadedItem, preLocalX, preLocalZ.
  destruct (mesh it) as [m |] eqn:Em; [| contradiction].
  assert (Hbody : bodyOf it = bodyOfMesh m) by (unfold bodyOf; rewrite Em; reflexivity).
  rewrite Hbody.
  set (hasBody := match bodyOfMesh m with Some _ => true | None => false end).
  set (it1 := restoreItemMotionType (itemsNowMs p) it).
  assert (H1 : createPhysicsAt it1 = 0 /\ becomeDynamicAt it1 = 0
               /\ meshPos it1 = meshPos it /\ isFallen it1 = true).
  { destruct (restore_preserved (itemsNowMs p) it) as (A & B & C).
    unfold it1. rewrite A, B, C, isFallen_restore. auto. }
  destruct H1 as (Hc1 & Hb1 & Hp1 & Hf1).
  rewrite (createPhysics_idle newPhysicsAggregate p it1 Hc1).
  rewrite (becomeDynamic_idle p hasBody it1 Hb1).
  rewrite (isSettling_idle it1 Hc1 Hb1).
  rewrite Hp1.
  set (lx := localXOf (pre_truck p) (pre_cos p) (pre_sin p) (meshPos it)).
  set (lz := localZOf (pre_truck p) (pre_cos p) (pre_sin p) (meshPos it)).
  set (it3 := trackLocal lx lz (lateralLock p (dampingBoost p hasBody it1))).
  assert (Hf3 : isFallen it3 = true).
  { unfold it3. rewrite isFallen_trackLocal, isFallen_lateralLock,
      isFallen_dampingBoost. exact Hf1. }
  rewrite (hardClamp_skips_fallen p lx lz it3 Hf3).
  rewrite (capVelocity_skips_fallen p it3 Hf3).
  apply fallenCheck_skips_fallen. exact Hf3.
Qed.

Section RoundFacts.

Variable intersectsMesh : RootNode -> TruckMesh -> Obstacle -> bool.
Variable newPhysicsAggregate : Mesh -> PhysicsParams -> PhysicsAggregate.

Lemma updateLoadedItems_monotone t nowMs dt moveX moveZ st i :
  fallenAt st i ->
  fallenAt (updateLoadedItems newPhysicsAggregate t nowMs dt moveX moveZ st) i.
Proof.
  intros (it & Hi & Hf). unfold updateLoadedItems, fallenAt.
  eapply (forEachItem_preserve (fun y => isFallen y = true)); eauto.
  intros y. apply updateLoadedItem_monotone.
Qed.

Lemma enforceItemBounds_monotone t nowRestore nowTeleport st i :
  fallenAt st i -> fallenAt (enforceItemBounds t nowRestore nowTeleport st) i.
Proof.
  intros (it & Hi & Hf). unfold enforceItemBounds, fallenAt.
  eapply (forEachItemAt_preserve (fun y => isFallen y = true)); eauto.
  intros k y. apply enforceItem_monotone.
Qed.

Lemma updateLoadedItemsLegacy_monotone t st i :
  fallenAt st i -> fallenAt (updateLoadedItemsLegacy t st) i.
Proof.
  intros (it & Hi & Hf). unfold updateLoadedItemsLegacy, fallenAt.
  eapply (forEachItem_preserve (fun y => isFallen y = true)); eauto.
  intros y. apply updateLoadedItemLegacy_monotone.
Qed.

Lemma updateDriving_monotone frameId nowMs deltaTime inputEnabled t st i :
  fallenAt st i ->
  fallenAt (snd (updateDriving intersectsMesh newPhysicsAggregate frameId nowMs
                   deltaTime inputEnabled t st)) i.
Proof.
  intros H. unfold updateDriving. cbv zeta.
  match goal with |- context [translate ?a ?b ?c ?d] =>
    destruct (translate a b c d) as [t' [moveX moveZ]] end.
  cbn [snd].
  destruct (enableItemPhysics (applyTransform t')); [| exact H].
  apply updateLoadedItems_monotone. exact H.
Qed.

Lemma roundStep_monotone wd wd' i :
  roundStep intersectsMesh newPhysicsAggregate wd wd' ->
  fallenAt (w_store wd) i -> fallenAt (w_store wd') i.
Proof.
  intros Hstep H. destruct Hstep; cbn [w_store].
  - exact H.
  - apply updateDriving_monotone. exact H.
  - eapply engineStep_monotone; eauto.
  - apply enforceItemBounds_monotone. exact H.
  - apply Game_update_monotone. exact H.
  - apply fallenAt_app. exact H.
  - exact H.
  - apply updateLoadedItemsLegacy_monotone. exact H.
  - unfold checkFallenItems. apply checkFallenSteps_monotone. exact H.
Qed.

Lemma round_monotone wd wd' i :
  round intersectsMesh newPhysicsAggregate wd wd' ->
  fallenAt (w_store wd) i -> fallenAt (w_store wd') i.
Proof.
  intros Hr. induction Hr as [| wd wd1 wd2 Hstep Hr IH]; intros H; auto.
  apply IH. eapply roundStep_monotone; eauto.
Qed.

(** C3, as the code has it.  Once an item is marked fallen it stays marked
    through every operation of the round (driving frames with the pre-step
    pass, engine steps, the post-step pass, the game's fallen check,
    placements, and the dormant legacy checks).  A fallen item is skipped
    whole by the post-step pass; the hard clamp, the velocity cap and the
    fallen check of the pre-step pass leave it untouched, and the game's
    fallen check does not count it again.  The pre-step pass does not skip
    it, though: with no timer running it still restores a pending motion
    type, adjusts the damping, applies the lateral lock and tracks the
    local position. *)
Theorem fallen_is_terminal (wd wd' : World) (i : nat) :
  round intersectsMesh newPhysicsAggregate wd wd' ->
  fallenAt (w_store wd) i ->
  fallenAt (w_store wd') i
  /\ (forall it, nth_error (w_store wd') i = Some it ->
        (forall p nowRestore nowTeleport,
            enforceItem p nowRestore nowTeleport it = it)
        /\ (forall p lx lz, hardClamp p lx lz it = it)
        /\ (forall p, capVelocity p it = it)
        /\ (forall lx lz, fallenCheck lx lz it = it)
        /\ (forall t, newlyFallenItem t it = false)
        /\ (forall p,
              mesh it <> None ->
              createPhysicsAt it = 0 -> becomeDynamicAt it = 0 ->
              updateLoadedItem newPhysicsAggregate p it
              = trackLocal (preLocalX p it) (preLocalZ p it)
                  (lateralLock p
                     (dampingBoost p
                        (match bodyOf it with Some _ => true | None => false end)
                        (restoreItemMotionType (itemsNowMs p) it))))).
Proof.
  intros Hr H.
  pose proof (round_monotone wd wd' i Hr H) as (it' & Hi' & Hf').
  split; [exists it'; auto |].
  intros it Hi. assert (it = it') by congruence. subst it'.
  split; [intros; apply enforceItem_skips_fallen; assumption |].
  split; [intros; apply hardClamp_skips_fallen; assumption |].
  split; [intros; apply capVelocity_skips_fallen; assumption |].
  split; [intros; apply fallenCheck_skips_fallen; assumption |].
  split; [intros; apply newlyFallenItem_skips_fallen; assumption |].
  intros p Hm Hc Hb. apply updateLoadedItem_fallen; assumption.
Qed.

End RoundFacts.

(** ** Game loop: the fall-out callback *)

Lemma onItemFellOut_calls g : callbackCalls (onItemFellOut g) = S (callbackCalls g).
Proof. unfold onItemFellOut. cbn. destruct (fallOutTriggered g); reflexivity. Qed.

Lemma onItemFellOut_latched g : fallOutTriggered (onItemFellOut g) = true.
Proof.
  unfold onItemFellOut. cbn. destruct (fallOutTriggered g) eqn:E; cbn; auto.
Qed.

Lemma onItemFellOut_triggers g :
  lossTriggers (onItemFellOut g)
  = if fallOutTriggered g then lossTriggers g else S (lossTriggers g).
Proof. unfold onItemFellOut. cbn. destruct (fallOutTriggered g); reflexivity. Qed.

Lemma onItemFellOut_running g :
  isRunning (onItemFellOut g) = isRunning g
  /\ isPaused (onItemFellOut g) = isPaused g
  /\ placedItems (onItemFellOut g) = placedItems g.
Proof.
  unfold onItemFellOut. cbn. destruct (fallOutTriggered g); cbn; auto.
Qed.

Lemma newlyFallenItem_marked t it : newlyFallenItem t (set_isFallen true it) = false.
Proof. apply newlyFallenItem_skips_fallen. reflexivity. Qed.

Lemma markStep_keeps_settled t acc r i :
  settledAt t (fst acc) i -> settledAt t (fst (markStep t acc r)) i.
Proof.
  intros H. unfold markStep.
  destruct (nth_error (fst acc) r) as [x |] eqn:Hr; [| exact H].
  destruct (newlyFallenItem t x); [| exact H].
  cbn. intros it Hit.
  destruct (Nat.eq_dec r i) as [-> | Hne].
  - rewrite storeSet_same in Hit by (eapply nth_error_in_range; eauto).
    injection Hit as <-. apply newlyFallenItem_marked.
  - rewrite storeSet_other in Hit by exact Hne. apply H. exact Hit.
Qed.

Lemma markSteps_keep_settled t refs acc i :
  settledAt t (fst acc) i -> settledAt t (fst (fold_left (markStep t) refs acc)) i.
Proof.
  revert acc. induction refs as [| r refs IH]; intros acc H; cbn; auto.
  apply IH. apply markStep_keeps_settled. exact H.
Qed.

Lemma markStep_settles t acc r : settledAt t (fst (markStep t acc r)) r.
Proof.
  unfold markStep.
  destruct (nth_error (fst acc) r) as [x |] eqn:Hr.
  - destruct (newlyFallenItem t x) eqn:Hn.
    + cbn. intros it Hit.
      rewrite storeSet_same in Hit by (eapply nth_error_in_range; eauto).
      injection Hit as <-. apply newlyFallenItem_marked.
    + intros it Hit. rewrite Hr in Hit. injection Hit as <-. exact Hn.
  - intros it Hit. rewrite Hr in Hit. discriminate.
Qed.

(** After the fallen check every referenced item is settled. *)
Lemma markSteps_settle t refs acc i :
  In i refs -> settledAt t (fst (fold_left (markStep t) refs acc)) i.
Proof.
  revert acc. induction refs as [| r refs IH]; intros acc Hin; cbn in *.
  - contradiction.
  - destruct (in_dec Nat.eq_dec i refs) as [Hl | Hl]; [apply IH; exact Hl |].
    destruct Hin as [-> | Hin]; [| contradiction].
    apply markSteps_keep_settled. apply markStep_settles.
Qed.

(** On settled items the fallen check changes nothing and counts
    nothing. *)
Lemma markSteps_idle t refs acc :
  (forall i, In i refs -> settledAt t (fst acc) i) ->
  fold_left (markStep t) refs acc = acc.
Proof.
  revert acc. induction refs as [| r refs IH]; intros acc H; cbn; auto.
  assert (Hstep : markStep t acc r = acc).
  { unfold markStep.
    destruct (nth_error (fst acc) r) as [x |] eqn:Hr; [| reflexivity].
    rewrite (H r (or_introl eq_refl) x Hr). reflexivity. }
  rewrite Hstep. apply IH. intros i Hi. apply H. right. exact Hi.
Qed.

Lemma Game_update_running g t st :
  isRunning g = true -> isPaused g = false ->
  Game_update g t st
  = (if (0 <? snd (markFallen t (placedItems g) st))%nat
     then onItemFellOut g else g,
     fst (markFallen t (placedItems g) st)).
Proof.
  intros Hr Hp. unfold Game_update. rewrite Hr, Hp. cbn.
  destruct (markFallen t (placedItems g) st) as [st' n]. reflexivity.
Qed.

(** C8, as the code has it.  While the game runs, [Game.update] calls
    [onItemFellOut] once in a frame whose fallen check newly marks at least
    one placed item — however many it marks — and not at all otherwise;
    an item already marked, by an earlier frame or by one of the truck's
    passes, is not counted; a second check of the same scene marks
    nothing and makes no call; and the callback gets past its
    [fallOutTriggered] latch at most once until [startAtLevel] resets it. *)
Theorem fall_out_callback_per_frame (g : Game) (t : Truck) (st : Store) :
  isRunning g = true -> isPaused g = false ->
  let n := snd (markFallen t (placedItems g) st) in
  let g1 := fst (Game_update g t st) in
  let st1 := snd (Game_update g t st) in
  callbackCalls g1 = (callbackCalls g + if (0 <? n)%nat then 1 else 0)%nat
  /\ ((0 < n)%nat -> fallOutTriggered g1 = true)
  /\ (lossTriggers g1 <= lossTriggers g + 1)%nat
  /\ (fallOutTriggered g = true -> lossTriggers g1 = lossTriggers g)
  /\ (forall it, isFallen it = true -> newlyFallenItem t it = false)
  /\ Game_update g1 t st1 = (g1, st1).
Proof.
  intros Hr Hp n g1 st1.
  assert (Hu := Game_update_running g t st Hr Hp).
  assert (Hg1 : g1 = if (0 <? n)%nat then onItemFellOut g else g)
    by (unfold g1; rewrite Hu; reflexivity).
  assert (Hst1 : st1 = fst (markFallen t (placedItems g) st))
    by (unfold st1; rewrite Hu; reflexivity).
  assert (Hrun : isRunning g1 = true /\ isPaused g1 = false
                 /\ placedItems g1 = placedItems g).
  { rewrite Hg1. destruct (0 <? n)%nat; auto.
    destruct (onItemFellOut_running g) as (-> & -> & ->). auto. }
  destruct Hrun as (Hr1 & Hp1 & Hrefs).
  split; [| split; [| split; [| split; [| split]]]].
  - rewrite Hg1. destruct (0 <? n)%nat.
    + rewrite onItemFellOut_calls. lia.
    + lia.
  - intros Hn. rewrite Hg1. apply Nat.ltb_lt in Hn. rewrite Hn.
    apply onItemFellOut_latched.
  - rewrite Hg1. destruct (0 <? n)%nat; [| lia].
    rewrite onItemFellOut_triggers. destruct (fallOutTriggered g); lia.
  - intros Hl. rewrite Hg1. destruct (0 <? n)%nat; [| reflexivity].
    rewrite onItemFellOut_triggers, Hl. reflexivity.
  - intros it. apply newlyFallenItem_skips_fallen.
  - rewrite (Game_update_running g1 t st1 Hr1 Hp1), Hrefs.
    assert (Hidle : markFallen t (placedItems g) st1 = (st1, O)).
    { unfold markFallen. apply markSteps_idle. intros i Hi. cbn [fst].
      rewrite Hst1. unfold markFallen. apply markSteps_settle. exact Hi. }
    rewrite Hidle. reflexivity.
Qed.

Lemma sunkBox_newlyFallen t : newlyFallenItem t sunkBox = true.
Proof.
  unfold newlyFallenItem, fellOut, sunkBox, placedItemAt, meshPos, floorTopY.
  cbn. js_decide. reflexivity.
Qed.

Lemma fall_out_callback_per_frame_witness :
  callbackCalls (fst (Game_update (runningGame [0%nat]) (newTruck None) [sunkBox]))
  = 1%nat.
Proof.
  destruct (fall_out_callback_per_frame (runningGame [0%nat]) (newTruck None)
              [sunkBox] eq_refl eq_refl) as [H _].
  rewrite H. unfold markFallen. cbn [fold_left runningGame placedItems].
  unfold markStep. cbn [fst snd nth_error]. rewrite sunkBox_newlyFallen.
  reflexivity.
Defined.

(** C8, as stated, fails: two items become fallen in one frame (two
    transitions to fallen) and the callback is invoked once, not once per
    item. *)
Lemma two_items_fall_one_callback :
  let g := runningGame [0%nat; 1%nat] in
  let st := [sunkBox; sunkBox] in
  let g1 := fst (Game_update g (newTruck None) st) in
  let st1 := snd (Game_update g (newTruck None) st) in
  map isFallen st = [false; false]
  /\ map isFallen st1 = [true; true]
  /\ callbackCalls g1 = (callbackCalls g + 1)%nat.
Proof.
  cbv zeta.
  rewrite (Game_update_running (runningGame [0%nat; 1%nat]) (newTruck None)
             [sunkBox; sunkBox] eq_refl eq_refl).
  unfold markFallen. cbn [fold_left runningGame placedItems].
  unfold markStep. cbn [fst snd nth_error].
  rewrite sunkBox_newlyFallen. cbn [fst snd nth_error storeSet].
  rewrite sunkBox_newlyFallen. cbn. repeat split.
Qed.

(** ** Post-step pass: what one visit does to an item *)

(** Splits an item into the four shapes its mesh can have: with a body,
    with an aggregate but no body, without aggregate, without mesh. *)
Ltac destruct_item it :=
  let m := fresh "m" in
  destruct it as [m isz ifl icpa ibda idbu idb illu irma irmt ilx ilz ily ibld
                    ibad ipar];
  destruct m as [[ipos [[[ibody|]]|] ipp]|].

Lemma enforceItem_skipped p nowRestore nowTeleport it :
  skippedByEnforce it = true -> enforceItem p nowRestore nowTeleport it = it.
Proof. intros H. unfold enforceItem. rewrite H. reflexivity. Qed.



Lemma withBody_observed g it :
  meshPos (withBody g it) = meshPos it
  /\ size (withBody g it) = size it
  /\ bodyOf (withBody g it) = option_map g (bodyOf it).
Proof. destruct_item it; repeat split. Qed.

Lemma restore_observed nowMs it :
  meshPos (restoreItemMotionType nowMs it) = meshPos it
  /\ size (restoreItemMotionType nowMs it) = size it
  /\ (forall b, bodyOf it = Some b ->
        exists b1, bodyOf (restoreItemMotionType nowMs it) = Some b1)
  /\ (bodyOf it = None -> bodyOf (restoreItemMotionType nowMs it) = None).
Proof.
  unfold restoreItemMotionType.
  destruct_item it; cbn [bodyOf bodyOfMesh mesh physicsAggregate body];
    try (repeat split; [intros b Hb; discriminate]).
  cbn [_restoreMotionAt _restoreMotionType].
  destruct (negb (JS.truthy irma) || JS.ltb nowMs irma);
    repeat split; try discriminate; intros b _; eexists; reflexivity.
Qed.

Lemma tracked_observed lx lz y it :
  meshPos (set_localY y (set_localZ lz (set_localX lx it))) = meshPos it
  /\ size (set_localY y (set_localZ lz (set_localX lx it))) = size it
  /\ bodyOf (set_localY y (set_localZ lz (set_localX lx it))) = bodyOf it.
Proof. repeat split. Qed.

Lemma teleportInside_observed p nowMs lx lz it b :
  bodyOf it = Some b ->
  let pos :=
    mkVec3 (worldXOf (post_truck p) (post_cos p) (post_sin p) lx lz)
           (vy (meshPos it))
           (worldZOf (post_truck p) (post_cos p) (post_sin p) lx lz) in
  meshPos (teleportInside p nowMs lx lz it) = pos
  /\ size (teleportInside p nowMs lx lz it) = size it
  /\ exists b2, bodyOf (teleportInside p nowMs lx lz it) = Some b2 /\ heldAt pos b2.
Proof.
  intros Hb. destruct_item it; cbn in Hb; try discriminate.
  injection Hb as ->. cbn.
  repeat split. eexists. split; [reflexivity |].
  unfold heldAt. cbn. repeat split.
Qed.

Lemma marked_observed it :
  meshPos (set_isFallen true it) = meshPos it
  /\ size (set_isFallen true it) = size it
  /\ bodyOf (set_isFallen true it) = bodyOf it.
Proof. repeat split. Qed.

Lemma maybe_marked_observed (c : bool) it :
  meshPos (if c then set_isFallen true it else it) = meshPos it
  /\ size (if c then set_isFallen true it else it) = size it
  /\ bodyOf (if c then set_isFallen true it else it) = bodyOf it.
Proof. destruct c; repeat split. Qed.

Lemma skipped_withBody g it :
  skippedByEnforce (withBody g it) = skippedByEnforce it
  /\ isFallen (withBody g it) = isFallen it.
Proof. destruct_item it; split; reflexivity. Qed.

Lemma skipped_restore nowMs it :
  skippedByEnforce (restoreItemMotionType nowMs it) = skippedByEnforce it
  /\ isFallen (restoreItemMotionType nowMs it) = isFallen it.
Proof.
  unfold restoreItemMotionType.
  destruct_item it; cbn [bodyOf bodyOfMesh mesh physicsAggregate body];
    try (split; reflexivity).
  destruct (negb _ || _); split; reflexivity.
Qed.

Lemma skipped_teleportInside p nowMs lx lz it :
  skippedByEnforce (teleportInside p nowMs lx lz it) = skippedByEnforce it
  /\ isFallen (teleportInside p nowMs lx lz it) = isFallen it.
Proof. destruct_item it; split; reflexivity. Qed.

Lemma skipped_maybe_marked (c : bool) it :
  skippedByEnforce it = false ->
  skippedByEnforce (if c then set_isFallen true it else it) = c.
Proof.
  intros H. destruct c; [| exact H].
  unfold skippedByEnforce in *. cbn. destruct (mesh it); reflexivity.
Qed.

Lemma skipped_not_fallen it : skippedByEnforce it = false -> isFallen it = false.
Proof.
  unfold skippedByEnforce. destruct (mesh it); [| discriminate].
  intros H. apply orb_false_iff in H. tauto.
Qed.

Lemma halfExtentX_size dflt it it' : size it' = size it ->
  halfExtentX dflt it' = halfExtentX dflt it.
Proof. unfold halfExtentX. intros ->. reflexivity. Qed.

Lemma halfExtentZ_size dflt it it' : size it' = size it ->
  halfExtentZ dflt it' = halfExtentZ dflt it.
Proof. unfold halfExtentZ. intros ->. reflexivity. Qed.

(** The visit of an item that has a body and is not skipped. *)
Lemma enforceItem_visit t nowRestore nowTeleport it b0 :
  skippedByEnforce it = false ->
  bodyOf it = Some b0 ->
  let y := enforceItem (postStepOf t) nowRestore nowTeleport it in
  size y = size it
  /\ skippedByEnforce y
     = wayOutside (halfExtentX 0.3 it) (halfExtentZ 0.3 it) (itemLocalX t it)
                  (itemLocalZ t it) (vy (meshPos it))
  /\ (breachesWall t it = false ->
      meshPos y = meshPos it
      /\ exists b1, bodyOf y = Some (capAngular (capLinearPost (postStepOf t) b1)))
  /\ (breachesWall t it = true ->
      meshPos y
      = mkVec3 (worldXOf t (post_cos (postStepOf t)) (post_sin (postStepOf t))
                  (snappedLocalX t it) (snappedLocalZ t it))
               (vy (meshPos it))
               (worldZOf t (post_cos (postStepOf t)) (post_sin (postStepOf t))
                  (snappedLocalX t it) (snappedLocalZ t it))
      /\ exists b2, bodyOf y = Some b2 /\ heldAt (meshPos y) b2).
Proof.
  intros Hskip Hbody.
  unfold enforceItem. rewrite Hskip, Hbody. cbv zeta.
  set (p := postStepOf t).
  set (it1 := restoreItemMotionType nowRestore it).
  destruct (restore_observed nowRestore it) as (Hp1 & Hs1 & Hb1 & _).
  destruct (skipped_restore nowRestore it) as (Hk1 & _).
  destruct (Hb1 b0 Hbody) as [b1 Hb1']. fold it1 in Hp1, Hs1, Hb1', Hk1.
  set (it2 := withBody (fun b => capAngular (capLinearPost p b)) it1).
  destruct (withBody_observed (fun b => capAngular (capLinearPost p b)) it1)
    as (Hp2 & Hs2 & Hb2).
  destruct (skipped_withBody (fun b => capAngular (capLinearPost p b)) it1)
    as (Hk2 & _).
  fold it2 in Hp2, Hs2, Hb2, Hk2. rewrite Hb1' in Hb2. cbn in Hb2.
  rewrite Hp1 in Hp2. rewrite Hs1 in Hs2. rewrite Hk1, Hskip in Hk2.
  rewrite (halfExtentX_size 0.3 it it2 Hs2), (halfExtentZ_size 0.3 it it2 Hs2).
  rewrite Hp2.
  unfold breachesWall, snappedLocalX, snappedLocalZ, itemLocalX, itemLocalZ.
  fold p. change (post_truck p) with t.
  set (lx := localXOf t (post_cos p) (post_sin p) (meshPos it)).
  set (lz := localZOf t (post_cos p) (post_sin p) (meshPos it)).
  set (it3 := set_localY (Some (vy (meshPos it)))
                (set_localZ (Some lz) (set_localX (Some lx) it2))).
  assert (H3 : meshPos it3 = meshPos it /\ size it3 = size it
               /\ bodyOf it3 = Some (capAngular (capLinearPost p b1))
               /\ skippedByEnforce it3 = false).
  { destruct (tracked_observed (Some lx) (Some lz) (Some (vy (meshPos it))) it2)
      as (A & B & C).
    fold it3 in A, B, C. rewrite A, B, C. auto. }
  destruct H3 as (Hp3 & Hs3 & Hb3 & Hk3).
  destruct (snapLocalX (halfExtentX 0.3 it) lx) as [nlx cx].
  destruct (snapLocalZ (halfExtentZ 0.3 it) lz) as [nlz cz].
  cbn [fst snd]. rewrite andb_true_r.
  destruct (cx || cz) eqn:Hc.
  - destruct (teleportInside_observed p nowTeleport nlx nlz it3 _ Hb3)
      as (Hp4 & Hs4 & b2 & Hb4 & Hheld).
    destruct (skipped_teleportInside p nowTeleport nlx nlz it3) as (Hk4 & _).
    rewrite Hk3 in Hk4.
    change (post_truck p) with t in Hp4, Hheld. rewrite Hp3 in Hp4, Hheld.
    rewrite (skipped_not_fallen _ Hk4), andb_true_r.
    rewrite (skipped_maybe_marked _ _ Hk4).
    match goal with |- context [if ?c then set_isFallen true ?x else ?x] =>
      destruct (maybe_marked_observed c x) as (-> & -> & ->) end.
    rewrite Hp4. cbn [vy].
    split; [congruence |]. split; [reflexivity |]. split; [discriminate |].
    intros _. split; auto. exists b2. auto.
  - rewrite (skipped_not_fallen _ Hk3), andb_true_r.
    rewrite (skipped_maybe_marked _ _ Hk3).
    match goal with |- context [if ?c then set_isFallen true ?x else ?x] =>
      destruct (maybe_marked_observed c x) as (-> & -> & ->) end.
    rewrite Hp3.
    split; [congruence |]. split; [reflexivity |]. split; [| discriminate].
    intros _. split; [reflexivity | exists b1; exact Hb3].
Qed.

Lemma enforceItem_bodyless p nowRestore nowTeleport it :
  bodyOf it = None -> bodyOf (enforceItem p nowRestore nowTeleport it) = None.
Proof.
  intros Hb. unfold enforceItem.
  destruct (skippedByEnforce it); [exact Hb |].
  rewrite Hb. cbv zeta.
  destruct (restore_observed nowRestore it) as (_ & _ & _ & Hn).
  specialize (Hn Hb).
  match goal with |- context [withBody ?g ?x] =>
    destruct (withBody_observed g x) as (_ & _ & Hw) end.
  rewrite Hn in Hw. cbn in Hw.
  destruct (snapLocalX _ _) as [nlx cx]. destruct (snapLocalZ _ _) as [nlz cz].
  rewrite andb_false_r.
  match goal with |- context [if ?c then set_isFallen true ?x else ?x] =>
    destruct (maybe_marked_observed c x) as (_ & _ & ->) end.
  exact Hw.
Qed.


(** ** Post-step pass: containment *)


(** Local coordinates of a point placed from local coordinates. *)
Lemma local_of_world t c sn lx lz y :
  c * c + sn * sn = 1 ->
  localXOf t c sn (mkVec3 (worldXOf t c sn lx lz) y (worldZOf t c sn lx lz)) = lx
  /\ localZOf t c sn (mkVec3 (worldXOf t c sn lx lz) y (worldZOf t c sn lx lz)) = lz.
Proof.
  intros H. unfold localXOf, localZOf, worldXOf, worldZOf. cbn [vx vz].
  split.
  - replace ((position_x t + lx * c - lz * sn - position_x t) * c
             + (position_z t + lx * sn + lz * c - position_z t) * sn)
      with (lx * (c * c + sn * sn)) by ring.
    rewrite H. ring.
  - replace (- (position_x t + lx * c - lz * sn - position_x t) * sn
             + (position_z t + lx * sn + lz * c - position_z t) * c)
      with (lz * (c * c + sn * sn)) by ring.
    rewrite H. ring.
Qed.




(** The final item at a visited index is the image of a visit. *)
Lemma enforceItemBounds_last_visit t nowRestore nowTeleport st i it :
  In i (loadedItems t) ->
  nth_error (enforceItemBounds t nowRestore nowTeleport st) i = Some it ->
  exists k z, it = enforceItem (postStepOf t) (nowRestore k) (nowTeleport k) z.
Proof.
  intros Hin Hit. unfold enforceItemBounds in *.
  assert (Hlen : (i < length st)%nat).
  { rewrite <- (forEachItemAt_length
                  (fun k => enforceItem (postStepOf t) (nowRestore k) (nowTeleport k))
                  (loadedItems t) st).
    eapply nth_error_in_range; eauto. }
  destruct (nth_error st i) as [x |] eqn:Hx;
    [| apply nth_error_None in Hx; lia].
  destruct (forEachItemAt_visited
              (fun k => enforceItem (postStepOf t) (nowRestore k) (nowTeleport k))
              (loadedItems t) st i x Hin Hx) as (k & z & Hz).
  exists k, z. congruence.
Qed.


(** *** Sample runs of the post-step pass *)

Lemma origin_local t pos sz b :
  position_x t = 0 -> position_z t = 0 -> rotation t = 0 ->
  itemLocalX t (placedItemAt pos sz b) = vx pos
  /\ itemLocalZ t (placedItemAt pos sz b) = vz pos.
Proof.
  intros Hx Hz Hr. unfold itemLocalX, itemLocalZ, localXOf, localZOf. cbn.
  rewrite Hx, Hz, Hr, Ropp_0, cos_0, sin_0. split; ring.
Qed.

Lemma loadedTruck_local pos sz b :
  itemLocalX loadedTruck (placedItemAt pos sz b) = vx pos
  /\ itemLocalZ loadedTruck (placedItemAt pos sz b) = vz pos.
Proof. apply origin_local; reflexivity. Qed.

Lemma enforceItemBounds_single t nowRestore nowTeleport it :
  loadedItems t = [0%nat] ->
  enforceItemBounds t nowRestore nowTeleport [it]
  = [enforceItem (postStepOf t) (nowRestore 0%nat) (nowTeleport 0%nat) it].
Proof. intros H. unfold enforceItemBounds. rewrite H. reflexivity. Qed.

Lemma placedItemAt_not_skipped pos sz b :
  skippedByEnforce (placedItemAt pos sz b) = false.
Proof.
  unfold skippedByEnforce. cbn. unfold JS.truthy. js_decide. reflexivity.
Qed.

Lemma snugBox_stays :
  breachesWall loadedTruck snugBox = false
  /\ wayOutside (halfExtentX 0.3 snugBox) (halfExtentZ 0.3 snugBox)
       (itemLocalX loadedTruck snugBox) (itemLocalZ loadedTruck snugBox)
       (vy (meshPos snugBox)) = false.
Proof.
  unfold breachesWall, wayOutside.
  destruct (loadedTruck_local (mkVec3 0 1.5 0) (mkVec3 0.4 0.4 0.4) restingBody)
    as [Hx Hz].
  fold snugBox in Hx, Hz. rewrite Hx, Hz.
  unfold snapLocalX, snapLocalZ, wallInnerX, wallInnerFrontZ, safeMargin,
    outerHalfX, outerFrontZ, outerBackZ, fallFloorY, floorTopY, cargoWidth,
    cargoLength.
  cbn. r_decide. js_decide. cbn. js_decide. auto.
Qed.

Lemma tumblingBox_stays :
  breachesWall loadedTruck tumblingBox = false
  /\ wayOutside (halfExtentX 0.3 tumblingBox) (halfExtentZ 0.3 tumblingBox)
       (itemLocalX loadedTruck tumblingBox) (itemLocalZ loadedTruck tumblingBox)
       (vy (meshPos tumblingBox)) = false.
Proof.
  unfold breachesWall, wayOutside.
  destruct (loadedTruck_local (mkVec3 0 1.5 0) (mkVec3 0.4 0.4 0.4) tumblingBody)
    as [Hx Hz].
  fold tumblingBox in Hx, Hz. rewrite Hx, Hz.
  unfold snapLocalX, snapLocalZ, wallInnerX, wallInnerFrontZ, safeMargin,
    outerHalfX, outerFrontZ, outerBackZ, fallFloorY, floorTopY, cargoWidth,
    cargoLength.
  cbn. r_decide. js_decide. cbn. js_decide. auto.
Qed.

Lemma escapedBox_snapped :
  breachesWall fastTruck escapedBox = true
  /\ wayOutside (halfExtentX 0.3 escapedBox) (halfExtentZ 0.3 escapedBox)
       (itemLocalX fastTruck escapedBox) (itemLocalZ fastTruck escapedBox)
       (vy (meshPos escapedBox)) = false.
Proof.
  unfold breachesWall, wayOutside.
  destruct (origin_local fastTruck (mkVec3 (-1.5) 1.5 0) (mkVec3 0.4 0.4 0.4)
              ridingBody eq_refl eq_refl eq_refl) as [Hx Hz].
  fold escapedBox in Hx, Hz. rewrite Hx, Hz.
  unfold snapLocalX, snapLocalZ, wallInnerX, wallInnerFrontZ, safeMargin,
    outerHalfX, outerFrontZ, outerBackZ, fallFloorY, floorTopY, cargoWidth,
    cargoLength.
  cbn. r_decide. js_decide. cbn. js_decide. auto.
Qed.






(** ** Post-step pass: velocity ceilings *)

Lemma sqrt_le_bound x M : 0 <= M -> x <= M * M -> sqrt x <= M.
Proof.
  intros HM Hx. destruct (Rle_dec 0 x) as [H0 | H0].
  - rewrite <- (sqrt_square M HM). apply sqrt_le_1_alt. exact Hx.
  - rewrite sqrt_neg_0 by lra. exact HM.
Qed.

Lemma sqrt_gt_bound x M : 0 <= M -> M * M < x -> M < sqrt x.
Proof.
  intros HM Hx. rewrite <- (sqrt_square M HM) at 1.
  apply sqrt_lt_1_alt. split; [nra | exact Hx].
Qed.

Lemma sign_magnitude v M : M < Rabs v -> 0 <= M -> Rabs (JS.sign v * M) = M.
Proof.
  intros Hv HM. unfold JS.sign.
  apply Rabs_gt_outside in Hv.
  js_cases; destruct Hv; try lra.
  - rewrite Rabs_pos_eq by lra. lra.
  - rewrite Rabs_left1 by lra. lra.
Qed.

(** Scaling a planar vector of length [r > M] by [M / r] brings its
    length to [M]. *)
Lemma scaled_planar x z M :
  0 < M -> M < sqrt (x * x + z * z) ->
  let r := sqrt (x * x + z * z) in
  x * (M / r) * (x * (M / r)) + z * (M / r) * (z * (M / r)) = M * M.
Proof.
  intros HM Hr r.
  assert (Hq : 0 <= x * x + z * z) by nra.
  assert (Hrr : r * r = x * x + z * z) by (apply sqrt_sqrt; exact Hq).
  assert (Hsr : M / r * r = M) by (field; fold r in Hr; lra).
  replace (x * (M / r) * (x * (M / r)) + z * (M / r) * (z * (M / r)))
    with (M / r * (M / r) * (x * x + z * z)) by ring.
  rewrite <- Hrr.
  replace (M / r * (M / r) * (r * r)) with (M / r * r * (M / r * r)) by ring.
  rewrite Hsr. reflexivity.
Qed.

Lemma scaled_spatial x y z M :
  0 < M -> M < sqrt (x * x + y * y + z * z) ->
  let r := sqrt (x * x + y * y + z * z) in
  x * (M / r) * (x * (M / r)) + y * (M / r) * (y * (M / r))
  + z * (M / r) * (z * (M / r)) = M * M.
Proof.
  intros HM Hr r.
  assert (Hq : 0 <= x * x + y * y + z * z) by nra.
  assert (Hrr : r * r = x * x + y * y + z * z) by (apply sqrt_sqrt; exact Hq).
  assert (Hsr : M / r * r = M) by (field; fold r in Hr; lra).
  replace (x * (M / r) * (x * (M / r)) + y * (M / r) * (y * (M / r))
           + z * (M / r) * (z * (M / r)))
    with (M / r * (M / r) * (x * x + y * y + z * z)) by ring.
  rewrite <- Hrr.
  replace (M / r * (M / r) * (r * r)) with (M / r * r * (M / r * r)) by ring.
  rewrite Hsr. reflexivity.
Qed.

(** The linear cap of the post-step pass. *)
Lemma capLinearPost_bounds p b :
  relativeSpeed p (capLinearPost p b) <= MAX_REL_LINEAR_VELOCITY
  /\ Rabs (vy (linearVelocity (capLinearPost p b))) <= MAX_VERTICAL_VELOCITY
  /\ angularVelocity (capLinearPost p b) = angularVelocity b.
Proof.
  unfold capLinearPost, relativeSpeed, MAX_REL_LINEAR_VELOCITY,
    MAX_VERTICAL_VELOCITY.
  set (relX := vx (linearVelocity b) - post_truckVelX p).
  set (relZ := vz (linearVelocity b) - post_truckVelZ p).
  cbv zeta.
  destruct (JS.gtb (sqrt (relX * relX + relZ * relZ)) 8.0) eqn:Hover;
    destruct (JS.gtb (Rabs (vy (linearVelocity b))) 4.0) eqn:Hvert;
    cbn [orb set_linearVelocity linearVelocity angularVelocity vx vy vz];
    try apply JSFacts.gtb_true in Hover; try apply JSFacts.gtb_false in Hover;
    try apply JSFacts.gtb_true in Hvert; try apply JSFacts.gtb_false in Hvert;
    (split; [| split; [| reflexivity]]).
  - apply sqrt_le_bound; [lra |].
    replace (post_truckVelX p + relX * (8.0 / sqrt (relX * relX + relZ * relZ))
             - post_truckVelX p)
      with (relX * (8.0 / sqrt (relX * relX + relZ * relZ))) by ring.
    replace (post_truckVelZ p + relZ * (8.0 / sqrt (relX * relX + relZ * relZ))
             - post_truckVelZ p)
      with (relZ * (8.0 / sqrt (relX * relX + relZ * relZ))) by ring.
    rewrite (scaled_planar relX relZ 8.0) by lra. lra.
  - rewrite sign_magnitude by lra. lra.
  - apply sqrt_le_bound; [lra |].
    replace (post_truckVelX p + relX * (8.0 / sqrt (relX * relX + relZ * relZ))
             - post_truckVelX p)
      with (relX * (8.0 / sqrt (relX * relX + relZ * relZ))) by ring.
    replace (post_truckVelZ p + relZ * (8.0 / sqrt (relX * relX + relZ * relZ))
             - post_truckVelZ p)
      with (relZ * (8.0 / sqrt (relX * relX + relZ * relZ))) by ring.
    rewrite (scaled_planar relX relZ 8.0) by lra. lra.
  - lra.
  - fold relX relZ. lra.
  - rewrite sign_magnitude by lra. lra.
  - fold relX relZ. lra.
  - lra.
Qed.

(** The angular cap. *)
Lemma capAngular_bounds b :
  angularSpeed (capAngular b) <= MAX_ANGULAR_VELOCITY
  /\ linearVelocity (capAngular b) = linearVelocity b.
Proof.
  unfold capAngular, angularSpeed, MAX_ANGULAR_VELOCITY. cbv zeta.
  set (wx := vx (angularVelocity b)).
  set (wy := vy (angularVelocity b)).
  set (wz := vz (angularVelocity b)).
  destruct (JS.gtb (sqrt (wx * wx + wy * wy + wz * wz)) 3.0) eqn:Hover;
    [apply JSFacts.gtb_true in Hover | apply JSFacts.gtb_false in Hover];
    cbn [set_angularVelocity angularVelocity linearVelocity vx vy vz];
    (split; [| reflexivity]).
  - apply sqrt_le_bound; [lra |].
    rewrite (scaled_spatial wx wy wz 3.0) by lra. lra.
  - fold wx wy wz. exact Hover.
Qed.

Lemma capped_body_bounds p b1 :
  let b := capAngular (capLinearPost p b1) in
  angularSpeed b <= MAX_ANGULAR_VELOCITY
  /\ Rabs (vy (linearVelocity b)) <= MAX_VERTICAL_VELOCITY
  /\ relativeSpeed p b <= MAX_REL_LINEAR_VELOCITY.
Proof.
  cbv zeta.
  destruct (capAngular_bounds (capLinearPost p b1)) as (Ha & Hl).
  destruct (capLinearPost_bounds p b1) as (Hr & Hv & _).
  unfold relativeSpeed in *. rewrite Hl. auto.
Qed.

Lemma held_body_bounds pos b :
  heldAt pos b ->
  angularSpeed b <= MAX_ANGULAR_VELOCITY
  /\ Rabs (vy (linearVelocity b)) <= MAX_VERTICAL_VELOCITY.
Proof.
  intros (Hl & Ha & _).
  unfold angularSpeed, MAX_ANGULAR_VELOCITY, MAX_VERTICAL_VELOCITY.
  rewrite Hl, Ha. cbn.
  replace (0 * 0 + 0 * 0 + 0 * 0) with 0 by ring.
  rewrite sqrt_0, Rabs_R0. lra.
Qed.

(** The ceilings after one visit. *)
Lemma enforceItem_caps t nowRestore nowTeleport z b :
  let y := enforceItem (postStepOf t) nowRestore nowTeleport z in
  skippedByEnforce z = false ->
  bodyOf y = Some b ->
  angularSpeed b <= MAX_ANGULAR_VELOCITY
  /\ Rabs (vy (linearVelocity b)) <= MAX_VERTICAL_VELOCITY
  /\ (breachesWall t z = false ->
      relativeSpeed (postStepOf t) b <= MAX_REL_LINEAR_VELOCITY)
  /\ (breachesWall t z = true -> heldAt (meshPos y) b).
Proof.
  intros y Hz Hb.
  destruct (bodyOf z) as [b0 |] eqn:Hb0;
    [| unfold y in Hb; rewrite enforceItem_bodyless in Hb by exact Hb0;
       discriminate].
  destruct (enforceItem_visit t nowRestore nowTeleport z b0 Hz Hb0)
    as (_ & _ & Hstay & Hmove).
  fold y in Hstay, Hmove.
  destruct (breachesWall t z) eqn:Hbr.
  - destruct (Hmove eq_refl) as (_ & b2 & Hb2 & Hheld).
    assert (b2 = b) by congruence. subst b2.
    destruct (held_body_bounds _ _ Hheld) as (Ha & Hv).
    split; [exact Ha |]. split; [exact Hv |].
    split; [discriminate | intros _; exact Hheld].
  - destruct (Hstay eq_refl) as (_ & b1 & Hb1).
    assert (b = capAngular (capLinearPost (postStepOf t) b1)) by congruence.
    subst b.
    destruct (capped_body_bounds (postStepOf t) b1) as (Ha & Hv & Hr).
    split; [exact Ha |]. split; [exact Hv |].
    split; [intros _; exact Hr | discriminate].
Qed.

(** C2, as the code has it.  After [enforceItemBounds], for every loaded
    item with a physics body that the pass did not skip, the angular speed
    is at most 3 rad/s and the absolute vertical velocity at most 4 m/s;
    the horizontal speed relative to the truck is at most 8 m/s unless the
    pass teleported the item, in which case the body has zero linear and
    angular velocity (and so moves, relative to the truck, at the truck's
    own speed).  A visit that finds no wall breach always leaves the
    relative speed within the ceiling. *)
Theorem enforceItemBounds_caps_velocity
    (t : Truck) (nowRestore nowTeleport : nat -> R) (st : Store)
    (i : nat) (it : Item) (b : Body) :
  In i (loadedItems t) ->
  nth_error (enforceItemBounds t nowRestore nowTeleport st) i = Some it ->
  skippedByEnforce it = false ->
  bodyOf it = Some b ->
  angularSpeed b <= MAX_ANGULAR_VELOCITY
  /\ Rabs (vy (linearVelocity b)) <= MAX_VERTICAL_VELOCITY
  /\ (relativeSpeed (postStepOf t) b <= MAX_REL_LINEAR_VELOCITY
      \/ heldAt (meshPos it) b)
  /\ (forall z nowR nowT b',
        skippedByEnforce z = false ->
        breachesWall t z = false ->
        bodyOf (enforceItem (postStepOf t) nowR nowT z) = Some b' ->
        relativeSpeed (postStepOf t) b' <= MAX_REL_LINEAR_VELOCITY).
Proof.
  intros Hin Hit Hskip Hb.
  destruct (enforceItemBounds_last_visit t nowRestore nowTeleport st i it Hin Hit)
    as (k & z & ->).
  assert (Hz : skippedByEnforce z = false).
  { destruct (skippedByEnforce z) eqn:E; [| reflexivity].
    rewrite enforceItem_skipped in Hskip by exact E. congruence. }
  destruct (enforceItem_caps t (nowRestore k) (nowTeleport k) z b Hz Hb)
    as (Ha & Hv & Hstay & Hmove).
  split; [exact Ha |]. split; [exact Hv |]. split.
  - destruct (breachesWall t z); [right | left]; auto.
  - intros z' nowR nowT b' Hz' Hbr' Hb'.
    destruct (enforceItem_caps t nowR nowT z' b' Hz' Hb') as (_ & _ & H & _).
    auto.
Qed.

(** *** Sample runs: velocity ceilings and the fallen flag *)

Lemma loadedTruck_velocity :
  post_truckVelX (postStepOf loadedTruck) = 0
  /\ post_truckVelZ (postStepOf loadedTruck) = 0.
Proof.
  cbn. unfold JS.or_default, JS.truthy. js_decide. cbn. auto.
Qed.

(** A box that enters the pass above all three ceilings leaves it within
    them. *)
Lemma enforceItemBounds_caps_velocity_witness :
  MAX_ANGULAR_VELOCITY < angularSpeed tumblingBody
  /\ MAX_VERTICAL_VELOCITY < Rabs (vy (linearVelocity tumblingBody))
  /\ MAX_REL_LINEAR_VELOCITY < relativeSpeed (postStepOf loadedTruck) tumblingBody
  /\ exists b,
       bodyOf (enforceItem (postStepOf loadedTruck) 0 0 tumblingBox) = Some b
       /\ angularSpeed b <= MAX_ANGULAR_VELOCITY
       /\ Rabs (vy (linearVelocity b)) <= MAX_VERTICAL_VELOCITY
       /\ relativeSpeed (postStepOf loadedTruck) b <= MAX_REL_LINEAR_VELOCITY.
Proof.
  split.
  { unfold angularSpeed, MAX_ANGULAR_VELOCITY. simpl.
    apply sqrt_gt_bound; lra. }
  split.
  { unfold MAX_VERTICAL_VELOCITY. simpl. r_decide. lra. }
  split.
  { unfold relativeSpeed, MAX_REL_LINEAR_VELOCITY.
    destruct loadedTruck_velocity as [-> ->]. simpl.
    apply sqrt_gt_bound; lra. }
  destruct tumblingBox_stays as [Hstay Hin].
  destruct (enforceItem_visit loadedTruck 0 0 tumblingBox tumblingBody
              (placedItemAt_not_skipped _ _ _) eq_refl)
    as (_ & Hskip & Hkeep & _).
  destruct (Hkeep Hstay) as (_ & b1 & Hb1).
  exists (capAngular (capLinearPost (postStepOf loadedTruck) b1)).
  split; [exact Hb1 |].
  destruct (enforceItemBounds_caps_velocity loadedTruck
              (fun _ => 0) (fun _ => 0) [tumblingBox] 0%nat
              (enforceItem (postStepOf loadedTruck) 0 0 tumblingBox)
              (capAngular (capLinearPost (postStepOf loadedTruck) b1)))
    as (Ha & Hv & _ & Hr).
  - left. reflexivity.
  - reflexivity.
  - rewrite Hskip. exact Hin.
  - exact Hb1.
  - split; [exact Ha |]. split; [exact Hv |].
    apply (Hr tumblingBox 0 0).
    + apply placedItemAt_not_skipped.
    + exact Hstay.
    + exact Hb1.
Defined.

Lemma fastTruck_velocity :
  post_truckVelX (postStepOf fastTruck) = 0
  /\ post_truckVelZ (postStepOf fastTruck) = -20.
Proof.
  cbn. unfold JS.or_default, JS.truthy. js_decide. cbn. auto.
Qed.

(** C2, as stated, fails: on a truck driving at 20 m/s a box found beyond
    the left wall is teleported and its velocity zeroed, so right after the
    pass it moves at 20 m/s relative to the truck — above the 8 m/s
    ceiling — while it has a body and is not fallen. *)
Lemma teleported_item_exceeds_relative_ceiling :
  exists it b,
    nth_error (enforceItemBounds fastTruck (fun _ => 0) (fun _ => 0)
                 [escapedBox]) 0 = Some it
    /\ skippedByEnforce it = false
    /\ isFallen it = false
    /\ bodyOf it = Some b
    /\ MAX_REL_LINEAR_VELOCITY < relativeSpeed (postStepOf fastTruck) b.
Proof.
  destruct escapedBox_snapped as (Hbr & Hout).
  destruct (enforceItem_visit fastTruck 0 0 escapedBox ridingBody
              (placedItemAt_not_skipped _ _ _) eq_refl)
    as (_ & Hskip & _ & Hmove).
  destruct (Hmove Hbr) as (_ & b2 & Hb2 & Hheld).
  exists (enforceItem (postStepOf fastTruck) 0 0 escapedBox), b2.
  assert (Hs : skippedByEnforce (enforceItem (postStepOf fastTruck) 0 0 escapedBox)
               = false) by (rewrite Hskip; exact Hout).
  split; [reflexivity |]. split; [exact Hs |].
  split; [apply skipped_not_fallen; exact Hs |]. split; [exact Hb2 |].
  destruct Hheld as (Hl & _).
  unfold relativeSpeed, MAX_REL_LINEAR_VELOCITY. rewrite Hl.
  destruct fastTruck_velocity as [-> ->]. cbn.
  apply sqrt_gt_bound; lra.
Qed.

Section RoundWitness.

Variable intersectsMesh : RootNode -> TruckMesh -> Obstacle -> bool.
Variable newPhysicsAggregate : Mesh -> PhysicsParams -> PhysicsAggregate.

Lemma lostBox_round :
  round intersectsMesh newPhysicsAggregate
    (mkWorld loadedTruck (runningGame [0%nat]) [lostBox])
    (mkWorld loadedTruck (runningGame [0%nat])
       (enforceItemBounds loadedTruck (fun _ => 0) (fun _ => 0) [lostBox])).
Proof.
  eapply round_then; [| apply round_here].
  exact (step_enforce intersectsMesh newPhysicsAggregate
           (mkWorld loadedTruck (runningGame [0%nat]) [lostBox])
           (fun _ => 0) (fun _ => 0)).
Defined.

End RoundWitness.

Lemma fallen_is_terminal_witness :
  fallenAt (enforceItemBounds loadedTruck (fun _ => 0) (fun _ => 0) [lostBox]) 0.
Proof.
  refine (proj1 (fallen_is_terminal alwaysHit
                   (fun _ _ => mkPhysicsAggregate None)
                   (mkWorld loadedTruck (runningGame [0%nat]) [lostBox])
                   (mkWorld loadedTruck (runningGame [0%nat])
                      (enforceItemBounds loadedTruck (fun _ => 0) (fun _ => 0)
                         [lostBox]))
                   0%nat _ _)).
  - apply lostBox_round.
  - exists lostBox. split; reflexivity.
Defined.

Lemma forEachItem_two f a b :
  forEachItem f [0%nat; 1%nat] [a; b] = [f a; f b].
Proof. reflexivity. Qed.

Lemma twoItemTruck_stands nowMs dt moveX moveZ :
  isTruckMoving (preStepOf twoItemTruck nowMs dt moveX moveZ) = false.
Proof. cbn. r_decide. js_decide. reflexivity. Qed.

(** C3, as stated, fails in its second half: the pre-step pass has no
    fallen guard before its restore and lateral-lock steps.  On a standing
    truck, a fallen box whose lateral lock has not yet run out has its
    horizontal and angular velocity zeroed by the lock, and a fallen box
    with a motion-type restore due has its motion type set and its
    velocities zeroed by the restore. *)
Lemma fallen_item_is_still_clamped :
  fallenAt [fallenLockedBox; fallenHeldBox] 0
  /\ fallenAt [fallenLockedBox; fallenHeldBox] 1
  /\ bodyOf fallenLockedBox = Some slidingBody
  /\ bodyOf fallenHeldBox = Some slidingBody
  /\ linearVelocity slidingBody = mkVec3 1 (-1) 2
  /\ angularVelocity slidingBody = mkVec3 0 1 0
  /\ exists a b ba bb,
       updateLoadedItems (fun _ _ => mkPhysicsAggregate None) twoItemTruck
         500 0.016 0 0 [fallenLockedBox; fallenHeldBox] = [a; b]
       /\ bodyOf a = Some ba
       /\ linearVelocity ba = mkVec3 0 (-1) 0
       /\ angularVelocity ba = Vec3_Zero
       /\ bodyOf b = Some bb
       /\ linearVelocity bb = Vec3_Zero
       /\ angularVelocity bb = Vec3_Zero
       /\ _restoreMotionAt fallenHeldBox = 100
       /\ _restoreMotionAt b = 0.
Proof.
  split; [exists fallenLockedBox; split; reflexivity |].
  split; [exists fallenHeldBox; split; reflexivity |].
  split; [reflexivity |]. split; [reflexivity |].
  split; [reflexivity |]. split; [reflexivity |].
  set (npa := fun (_ : Mesh) (_ : PhysicsParams) => mkPhysicsAggregate None).
  set (p := preStepOf twoItemTruck 500 0.016 0 0).
  exists (updateLoadedItem npa p fallenLockedBox),
         (updateLoadedItem npa p fallenHeldBox).
  assert (Hstand : isTruckMoving p = false) by apply twoItemTruck_stands.
  assert (Hnow : itemsNowMs p = 500) by reflexivity.
  assert (Ea : updateLoadedItem npa p fallenLockedBox
               = trackLocal (preLocalX p fallenLockedBox) (preLocalZ p fallenLockedBox)
                   (withBody (fun b => set_angularVelocity Vec3_Zero
                                (set_linearVelocity
                                   (mkVec3 0 (Rmin (vy (linearVelocity b)) 0) 0) b))
                      fallenLockedBox)).
  { rewrite updateLoadedItem_fallen by (try reflexivity; discriminate).
    f_equal.
    assert (E1 : restoreItemMotionType (itemsNowMs p) fallenLockedBox = fallenLockedBox).
    { unfold restoreItemMotionType. simpl. rewrite truthy_zero. reflexivity. }
    rewrite E1.
    assert (E2 : dampingBoost p true fallenLockedBox = fallenLockedBox).
    { unfold dampingBoost. simpl. rewrite truthy_zero. reflexivity. }
    simpl (match bodyOf fallenLockedBox with Some _ => true | None => false end).
    rewrite E2.
    unfold lateralLock. rewrite Hstand, Hnow.
    change (lockLateralUntil fallenLockedBox) with 1000.
    rewrite truthy_nonzero by lra. js_decide. reflexivity. }
  assert (Eb : updateLoadedItem npa p fallenHeldBox
               = trackLocal (preLocalX p fallenHeldBox) (preLocalZ p fallenHeldBox)
                   (set_restoreMotionType None
                      (set_restoreMotionAt 0
                         (withBody (fun b => set_motionType DYNAMIC
                                      (set_angularVelocity Vec3_Zero
                                         (set_linearVelocity Vec3_Zero b)))
                            fallenHeldBox)))).
  { rewrite updateLoadedItem_fallen by (try reflexivity; discriminate).
    f_equal.
    assert (E1 : restoreItemMotionType (itemsNowMs p) fallenHeldBox
                 = set_restoreMotionType None
                     (set_restoreMotionAt 0
                        (withBody (fun b => set_motionType DYNAMIC
                                     (set_angularVelocity Vec3_Zero
                                        (set_linearVelocity Vec3_Zero b)))
                           fallenHeldBox))).
    { unfold restoreItemMotionType. rewrite Hnow.
      change (bodyOf fallenHeldBox) with (Some slidingBody).
      change (_restoreMotionAt fallenHeldBox) with 100.
      change (_restoreMotionType fallenHeldBox) with (Some DYNAMIC).
      rewrite truthy_nonzero by lra. js_decide. reflexivity. }
    rewrite E1.
    simpl (match bodyOf fallenHeldBox with Some _ => true | None => false end).
    set (it1 := set_restoreMotionType None _).
    assert (E2 : dampingBoost p true it1 = it1).
    { unfold dampingBoost. simpl. rewrite truthy_zero. reflexivity. }
    rewrite E2.
    unfold lateralLock. simpl (lockLateralUntil it1).
    rewrite truthy_zero. reflexivity. }
  exists (set_angularVelocity Vec3_Zero
            (set_linearVelocity (mkVec3 0 (Rmin (-1) 0) 0) slidingBody)),
         (set_motionType DYNAMIC
            (set_angularVelocity Vec3_Zero
               (set_linearVelocity Vec3_Zero slidingBody))).
  split; [apply forEachItem_two |].
  split; [rewrite Ea; reflexivity |].
  split; [simpl; r_decide; reflexivity |].
  split; [reflexivity |].
  split; [rewrite Eb; reflexivity |].
  split; [reflexivity |]. split; [reflexivity |].
  split; [reflexivity |].
  rewrite Eb. reflexivity.
Qed.

(** * Further properties of the drivetrain *)

Lemma Rmin_cases a b : (a <= b /\ Rmin a b = a) \/ (b <= a /\ Rmin a b = b).
Proof. unfold Rmin. destruct (Rle_dec a b); [left | right]; split; lra. Qed.

Lemma Rmax_cases a b : (b <= a /\ Rmax a b = a) \/ (a <= b /\ Rmax a b = b).
Proof. unfold Rmax. destruct (Rle_dec a b); [right | left]; split; lra. Qed.

Lemma Rabs_cases a : (0 <= a /\ Rabs a = a) \/ (a <= 0 /\ Rabs a = - a).
Proof.
  destruct (Rle_dec 0 a); [left | right]; split; try lra.
  - apply Rabs_pos_eq. lra.
  - apply Rabs_left1. lra.
Qed.

(** Case analysis on every [Rmin], [Rmax] and [Rabs] in sight. *)
Ltac minmax_cases :=
  repeat match goal with
  | |- context [Rmin ?a ?b] =>
      let H := fresh "Hmin" in let E := fresh "Emin" in
      destruct (Rmin_cases a b) as [[H E] | [H E]]; rewrite E in *; clear E
  | |- context [Rmax ?a ?b] =>
      let H := fresh "Hmax" in let E := fresh "Emax" in
      destruct (Rmax_cases a b) as [[H E] | [H E]]; rewrite E in *; clear E
  | |- context [Rabs ?a] =>
      let H := fresh "Habs" in let E := fresh "Eabs" in
      destruct (Rabs_cases a) as [[H E] | [H E]]; rewrite E in *; clear E
  | _ : context [Rmin ?a ?b] |- _ =>
      let H := fresh "Hmin" in let E := fresh "Emin" in
      destruct (Rmin_cases a b) as [[H E] | [H E]]; rewrite E in *; clear E
  | _ : context [Rmax ?a ?b] |- _ =>
      let H := fresh "Hmax" in let E := fresh "Emax" in
      destruct (Rmax_cases a b) as [[H E] | [H E]]; rewrite E in *; clear E
  | _ : context [Rabs ?a] |- _ =>
      let H := fresh "Habs" in let E := fresh "Eabs" in
      destruct (Rabs_cases a) as [[H E] | [H E]]; rewrite E in *; clear E
  end.

Lemma or_default_pos a d : 0 < a -> 0 < d -> 0 < JS.or_default a d.
Proof.
  intros Ha Hd. unfold JS.or_default, JS.truthy.
  destruct (JS.eqb a 0); cbn; lra.
Qed.

Lemma gearAccel_pos t : 0 < gearAccel t.
Proof.
  unfold gearAccel, gearAcceleration, baseAcceleration.
  destruct (Z.to_nat (Z.max 0 (currentGear t))) as [| [| [| [| [| [| n]]]]]];
    cbn; try (apply or_default_pos; lra).
  destruct n; simpl; lra.
Qed.

Lemma clampSpeed_sign spd :
  (0 <= spd -> 0 <= clampSpeed spd <= spd)
  /\ (spd <= 0 -> spd <= clampSpeed spd <= 0).
Proof.
  unfold clampSpeed, maxSpeed. minmax_cases; split; intros; lra.
Qed.

Lemma settleSpeed_sign autoBraking timer spd :
  (0 <= spd -> 0 <= settleSpeed autoBraking timer spd <= spd)
  /\ (spd <= 0 -> spd <= settleSpeed autoBraking timer spd <= 0).
Proof.
  destruct (settleSpeed_cases autoBraking timer spd) as [-> | ->];
    split; intros; lra.
Qed.

(** The acceleration chain keeps the speed on its side of zero; under
    the brake, the auto-brake or no input it also keeps it between zero and
    its old value. *)
Lemma accelerate_sign k autoBraking ga dt spd :
  0 <= dt -> 0 < ga ->
  (0 < spd -> 0 <= accelerate k autoBraking ga dt spd)
  /\ (spd < 0 -> accelerate k autoBraking ga dt spd <= 0)
  /\ (spd = 0 -> (key_space k || autoBraking = true \/ (key_w k = false /\ key_s k = false)) ->
      accelerate k autoBraking ga dt spd = 0).
Proof.
  intros Hdt Hga.
  assert (Hb : 0 <= brakeDeceleration * dt) by (unfold brakeDeceleration; nra).
  assert (Hd : 0 <= deceleration * dt) by (unfold deceleration; nra).
  assert (Hg : 0 <= ga * dt) by nra.
  unfold accelerate.
  destruct (key_space k || autoBraking); [| destruct (key_w k); [| destruct (key_s k)]];
    js_cases; minmax_cases;
    repeat split; intros; try lra;
    match goal with
    | H : _ \/ _ |- _ => destruct H as [H | [H1 H2]]; try discriminate; try lra
    end.
Qed.

Lemma accelerate_slows k autoBraking ga dt spd :
  0 <= dt ->
  key_space k || autoBraking = true \/ (key_w k = false /\ key_s k = false) ->
  (0 <= spd -> 0 <= accelerate k autoBraking ga dt spd <= spd)
  /\ (spd <= 0 -> spd <= accelerate k autoBraking ga dt spd <= 0).
Proof.
  intros Hdt Hk.
  assert (Hb : 0 <= brakeDeceleration * dt) by (unfold brakeDeceleration; nra).
  assert (Hd : 0 <= deceleration * dt) by (unfold deceleration; nra).
  unfold accelerate.
  destruct Hk as [Hk | [Hw Hs]]; [rewrite Hk | rewrite Hw, Hs;
    destruct (key_space k || autoBraking)];
    js_cases; minmax_cases;
    split; intros; lra.
Qed.

Lemma speed_speedUpdate k dt t :
  speed (speedUpdate k dt t)
  = settleSpeed (JS.gtb (autoBrakeTimer (autoBrakeCountdown dt t)) 0)
      (autoBrakeTimer (autoBrakeCountdown dt t))
      (clampSpeed
         (accelerate k (JS.gtb (autoBrakeTimer (autoBrakeCountdown dt t)) 0)
            (gearAccel (autoBrakeCountdown dt t)) dt
            (speed (autoBrakeCountdown dt t)))).
Proof. reflexivity. Qed.

Lemma speed_autoBrakeCountdown dt t :
  speed (autoBrakeCountdown dt t) = speed t
  /\ currentGear (autoBrakeCountdown dt t) = currentGear t.
Proof.
  unfold autoBrakeCountdown. destruct (JS.gtb (autoBrakeTimer t) 0); auto.
Qed.

(** X1.  Within one speed update the speed never jumps across zero: a
    truck rolling backwards (speed > 0) ends the update with speed >= 0, a
    truck rolling forwards (speed < 0) with speed <= 0, whatever keys are
    held. *)
Theorem speed_never_crosses_zero (k : Keys) (dt : R) (t : Truck) :
  0 <= dt ->
  (0 < speed t -> 0 <= speed (speedUpdate k dt t))
  /\ (speed t < 0 -> speed (speedUpdate k dt t) <= 0).
Proof.
  intros Hdt. rewrite speed_speedUpdate.
  destruct (speed_autoBrakeCountdown dt t) as [Hs _]. rewrite Hs.
  set (ab := JS.gtb (autoBrakeTimer (autoBrakeCountdown dt t)) 0).
  set (ga := gearAccel (autoBrakeCountdown dt t)).
  assert (Hga : 0 < ga) by apply gearAccel_pos.
  destruct (accelerate_sign k ab ga dt (speed t) Hdt Hga) as (Hp & Hn & _).
  split; intros H.
  - specialize (Hp H).
    destruct (clampSpeed_sign (accelerate k ab ga dt (speed t))) as [Hc _].
    specialize (Hc Hp).
    destruct (settleSpeed_sign ab (autoBrakeTimer (autoBrakeCountdown dt t))
                (clampSpeed (accelerate k ab ga dt (speed t)))) as [Hq _].
    apply Hq. lra.
  - specialize (Hn H).
    destruct (clampSpeed_sign (accelerate k ab ga dt (speed t))) as [_ Hc].
    specialize (Hc Hn).
    destruct (settleSpeed_sign ab (autoBrakeTimer (autoBrakeCountdown dt t))
                (clampSpeed (accelerate k ab ga dt (speed t)))) as [_ Hq].
    apply Hq. lra.
Qed.

Lemma speed_never_crosses_zero_witness :
  0 <= speed (speedUpdate keyW 0.05 (set_speed 1 (newTruck None))).
Proof.
  refine (proj1 (speed_never_crosses_zero keyW 0.05 (set_speed 1 (newTruck None)) _) _).
  - lra.
  - cbn. lra.
Defined.

(** Under the brake, the auto-brake or without drive input the speed
    update only slows the truck. *)
Lemma speedUpdate_slows (k : Keys) (dt : R) (t : Truck) :
  0 <= dt ->
  key_space k = true
  \/ 0 < autoBrakeTimer (autoBrakeCountdown dt t)
  \/ (key_w k = false /\ key_s k = false) ->
  Rabs (speed (speedUpdate k dt t)) <= Rabs (speed t)
  /\ (0 <= speed t -> 0 <= speed (speedUpdate k dt t))
  /\ (speed t <= 0 -> speed (speedUpdate k dt t) <= 0).
Proof.
  intros Hdt Hk. rewrite speed_speedUpdate.
  destruct (speed_autoBrakeCountdown dt t) as [Hs _]. rewrite Hs.
  set (ab := JS.gtb (autoBrakeTimer (autoBrakeCountdown dt t)) 0).
  set (ga := gearAccel (autoBrakeCountdown dt t)).
  assert (Hk' : key_space k || ab = true \/ (key_w k = false /\ key_s k = false)).
  { destruct Hk as [Hk | [Hk | Hk]].
    - left. rewrite Hk. reflexivity.
    - left. unfold ab. apply orb_true_iff. right. apply JSFacts.gtb_true. exact Hk.
    - right. exact Hk. }
  destruct (accelerate_slows k ab ga dt (speed t) Hdt Hk') as (Hp & Hn).
  set (a1 := accelerate k ab ga dt (speed t)) in *.
  destruct (clampSpeed_sign a1) as [Hcp Hcn].
  destruct (settleSpeed_sign ab (autoBrakeTimer (autoBrakeCountdown dt t))
              (clampSpeed a1)) as [Hsp Hsn].
  set (s1 := settleSpeed ab (autoBrakeTimer (autoBrakeCountdown dt t))
               (clampSpeed a1)) in *.
  destruct (Rle_dec 0 (speed t)) as [H0 | H0].
  - specialize (Hp H0). assert (0 <= clampSpeed a1 <= a1) by (apply Hcp; lra).
    assert (0 <= s1 <= clampSpeed a1) by (apply Hsp; lra).
    split; [rewrite !Rabs_pos_eq by lra; lra |].
    split; intros; lra.
  - assert (Hle : speed t <= 0) by lra.
    specialize (Hn Hle). assert (a1 <= clampSpeed a1 <= 0) by (apply Hcn; lra).
    assert (clampSpeed a1 <= s1 <= 0) by (apply Hsn; lra).
    split; [rewrite !Rabs_left1 by lra; lra |].
    split; intros; lra.
Qed.

(** * Whole-frame properties of [updateDriving] *)

Lemma speedUpdate_frame k dt t :
  position_x (speedUpdate k dt t) = position_x t
  /\ position_z (speedUpdate k dt t) = position_z t
  /\ rotation (speedUpdate k dt t) = rotation t
  /\ currentGear (speedUpdate k dt t) = currentGear t
  /\ turnInput (speedUpdate k dt t) = turnInput t
  /\ driftAngle (speedUpdate k dt t) = driftAngle t
  /\ autoBrakeTimer (speedUpdate k dt t) = autoBrakeTimer (autoBrakeCountdown dt t).
Proof.
  unfold speedUpdate, speedClamped, autoBrakeCountdown.
  destruct (JS.gtb (autoBrakeTimer t) 0); cbn; repeat split.
Qed.

Lemma updateGear_frame t :
  position_x (updateGear t) = position_x t
  /\ position_z (updateGear t) = position_z t
  /\ rotation (updateGear t) = rotation t
  /\ speed (updateGear t) = speed t
  /\ turnInput (updateGear t) = turnInput t
  /\ driftAngle (updateGear t) = driftAngle t
  /\ autoBrakeTimer (updateGear t) = autoBrakeTimer t.
Proof. cbn. repeat split. Qed.

Lemma turning_frame k autoBraking dt t :
  speed (turning k autoBraking dt t) = speed t
  /\ currentGear (turning k autoBraking dt t) = currentGear t
  /\ autoBrakeTimer (turning k autoBraking dt t) = autoBrakeTimer t
  /\ turnInput (turning k autoBraking dt t)
     = Some (turnInputOf t
             + ((if key_a k then 1 else 0) + (if key_d k then -1 else 0)
                - turnInputOf t) * Rmin 1 (dt * 12)).
Proof.
  unfold turning. cbn.
  destruct (JS.gtb (Rabs (speed t)) 0.1); [| cbn; repeat split].
  match goal with
  | |- context [steer ?a ?b ?c ?d ?e ?f ?g ?h] =>
      destruct (steer a b c d e f g h) as [[dRot rate] drift]
  end.
  destruct (negb (JS.eqb dRot 0)); cbn; repeat split.
Qed.

(** Below 0.1 mph the steering block is skipped: the pose is left alone. *)
Lemma turning_slow k autoBraking dt t :
  Rabs (speed t) <= 0.1 ->
  position_x (turning k autoBraking dt t) = position_x t
  /\ position_z (turning k autoBraking dt t) = position_z t
  /\ rotation (turning k autoBraking dt t) = rotation t.
Proof.
  intros H. unfold turning. cbn.
  replace (JS.gtb (Rabs (speed t)) 0.1) with false
    by (symmetry; apply JSFacts.gtb_false; lra).
  cbn. repeat split.
Qed.

Lemma checkMeshCollision_frame
    (intersectsMesh : RootNode -> TruckMesh -> Obstacle -> bool)
    (frameId : Z) (posX posZ rotY : R) (t : Truck) :
  let t' := snd (checkMeshCollision intersectsMesh frameId posX posZ rotY t) in
  position_x t' = position_x t /\ position_z t' = position_z t
  /\ rotation t' = rotation t /\ speed t' = speed t
  /\ currentGear t' = currentGear t /\ autoBrakeTimer t' = autoBrakeTimer t
  /\ turnInput t' = turnInput t /\ driftAngle t' = driftAngle t
  /\ turnRate t' = turnRate t /\ root t' = root t
  /\ sceneManager t' = sceneManager t.
Proof.
  unfold checkMeshCollision.
  destruct (sceneManager t) as [sm |] eqn:E; [| cbn; rewrite ?E; repeat split; reflexivity].
  destruct (cacheHit (_collisionCache t) frameId posX posZ rotY);
    cbn; rewrite ?E; repeat split; try reflexivity.
  apply rootNode_eta.
Qed.

Lemma rotationVeto_frame
    (intersectsMesh : RootNode -> TruckMesh -> Obstacle -> bool)
    (frameId : Z) (r x z : R) (t : Truck) :
  let t' := rotationVeto intersectsMesh frameId r x z t in
  speed t' = speed t /\ currentGear t' = currentGear t
  /\ autoBrakeTimer t' = autoBrakeTimer t /\ turnInput t' = turnInput t
  /\ (driftAngle t' = driftAngle t \/ driftAngle t' = Some 0).
Proof.
  unfold rotationVeto.
  destruct (negb (JS.eqb (rotation t) r)); [| cbn; repeat split; auto].
  pose proof (checkMeshCollision_frame intersectsMesh frameId
                (position_x t) (position_z t) (rotation t) t) as H.
  destruct (checkMeshCollision intersectsMesh frameId (position_x t)
              (position_z t) (rotation t) t) as [hit t1].
  cbn in H. destruct H as (_ & _ & _ & Hs & Hg & Ha & Hti & Hd & _).
  destruct hit; cbn; repeat split; auto.
Qed.

Lemma rotationVeto_same
    (intersectsMesh : RootNode -> TruckMesh -> Obstacle -> bool)
    (frameId : Z) (x z : R) (t : Truck) :
  rotationVeto intersectsMesh frameId (rotation t) x z t = t.
Proof.
  unfold rotationVeto.
  replace (JS.eqb (rotation t) (rotation t)) with true
    by (symmetry; apply JSFacts.eqb_true; reflexivity).
  reflexivity.
Qed.

Lemma driftDecay_frame t :
  position_x (driftDecay t) = position_x t
  /\ position_z (driftDecay t) = position_z t
  /\ rotation (driftDecay t) = rotation t
  /\ speed (driftDecay t) = speed t
  /\ currentGear (driftDecay t) = currentGear t
  /\ autoBrakeTimer (driftDecay t) = autoBrakeTimer t
  /\ turnInput (driftDecay t) = turnInput t.
Proof.
  unfold driftDecay.
  destruct (negb (isDriftingOf t)); [| repeat split].
  cbn. destruct (JS.ltb _ 0.01); cbn; repeat split.
Qed.

Lemma translate_frame
    (intersectsMesh : RootNode -> TruckMesh -> Obstacle -> bool)
    (frameId : Z) (dt : R) (t : Truck) :
  let t' := fst (translate intersectsMesh frameId dt t) in
  rotation t' = rotation t
  /\ currentGear t' = currentGear t
  /\ autoBrakeTimer t' = autoBrakeTimer t
  /\ turnInput t' = turnInput t
  /\ driftAngle t' = driftAngle t
  /\ (speed t' = speed t \/ speed t' = speed t * 0.5).
Proof.
  unfold translate.
  match goal with
  | |- context [checkMeshCollision ?i ?f ?x ?z ?r ?u] =>
      pose proof (checkMeshCollision_frame i f x z r u) as H;
      destruct (checkMeshCollision i f x z r u) as [hit t1]
  end.
  cbn in H. destruct H as (_ & _ & Hr & Hs & Hg & Ha & Hti & Hd & _).
  destruct hit; cbn; rewrite ?Hr, ?Hs, ?Hg, ?Ha, ?Hti, ?Hd; repeat split; auto.
Qed.

(** A truck whose speed is 0 after the speed update is left where it
    is by the rest of the frame. *)
Lemma translate_at_rest
    (intersectsMesh : RootNode -> TruckMesh -> Obstacle -> bool)
    (frameId : Z) (dt : R) (t : Truck) :
  speed t = 0 ->
  let t' := fst (translate intersectsMesh frameId dt t) in
  position_x t' = position_x t /\ position_z t' = position_z t
  /\ speed t' = 0
  /\ snd (translate intersectsMesh frameId dt t) = (0, 0).
Proof.
  intros H0. unfold translate.
  match goal with
  | |- context [checkMeshCollision ?i ?f ?x ?z ?r ?u] =>
      pose proof (checkMeshCollision_frame i f x z r u) as H;
      destruct (checkMeshCollision i f x z r u) as [hit t1]
  end.
  cbn in H. destruct H as (Hx & Hz & Hr & Hs & _).
  destruct hit; cbn; rewrite ?Hx, ?Hz, ?Hs, H0; repeat split;
    try ring; f_equal; ring.
Qed.

Section FrameFacts.

Variable intersectsMesh : RootNode -> TruckMesh -> Obstacle -> bool.
Variable newPhysicsAggregate : Mesh -> PhysicsParams -> PhysicsAggregate.

Lemma updateDriving_truck frameId nowMs deltaTime inputEnabled t st :
  fst (updateDriving intersectsMesh newPhysicsAggregate frameId nowMs
         deltaTime inputEnabled t st)
  = let dt := Rmin deltaTime 0.05 in
    let k := effectiveKeys inputEnabled t in
    let t1 := speedUpdate k dt t in
    let t2 := updateGear t1 in
    let t3 := set_currentAcceleration ((speed t2 - prevSpeed t2) / dt) t2 in
    let t4 := rotationAttempt intersectsMesh frameId k
                (JS.gtb (autoBrakeTimer t1) 0) dt t3 in
    applyTransform (fst (translate intersectsMesh frameId dt (driftDecay t4))).
Proof.
  unfold updateDriving. cbv zeta.
  destruct (translate intersectsMesh frameId (Rmin deltaTime 0.05) _)
    as [t5 [mx mz]].
  reflexivity.
Qed.

Lemma updateDriving_at_rest frameId nowMs deltaTime inputEnabled t st :
  speed (speedUpdate (effectiveKeys inputEnabled t) (Rmin deltaTime 0.05) t) = 0 ->
  let t' := fst (updateDriving intersectsMesh newPhysicsAggregate frameId nowMs
                   deltaTime inputEnabled t st) in
  speed t' = 0
  /\ position_x t' = position_x t /\ position_z t' = position_z t
  /\ rotation t' = rotation t.
Proof.
  intros H0. cbv zeta. rewrite updateDriving_truck. cbv zeta.
  set (dt := Rmin deltaTime 0.05) in *.
  set (k := effectiveKeys inputEnabled t) in *.
  set (t1 := speedUpdate k dt t) in *.
  destruct (speedUpdate_frame k dt t) as (Hx1 & Hz1 & Hr1 & _).
  fold t1 in Hx1, Hz1, Hr1.
  destruct (updateGear_frame t1) as (Hx2 & Hz2 & Hr2 & Hs2 & _).
  set (t2 := updateGear t1) in *.
  set (t3 := set_currentAcceleration ((speed t2 - prevSpeed t2) / dt) t2).
  assert (Hs3 : speed t3 = 0) by (change (speed t2 = 0); congruence).
  assert (Hslow : Rabs (speed t3) <= 0.1)
    by (rewrite Hs3, Rabs_R0; lra).
  set (ab := JS.gtb (autoBrakeTimer t1) 0).
  destruct (turning_slow k ab dt t3 Hslow) as (Hx4 & Hz4 & Hr4).
  destruct (turning_frame k ab dt t3) as (Hs4 & _).
  assert (E4 : rotationAttempt intersectsMesh frameId k ab dt t3
               = turning k ab dt t3).
  { unfold rotationAttempt. rewrite <- Hr4 at 1. apply rotationVeto_same. }
  rewrite E4.
  set (t4 := turning k ab dt t3) in *.
  destruct (driftDecay_frame t4) as (Hx5 & Hz5 & Hr5 & Hs5 & _).
  set (t5 := driftDecay t4) in *.
  assert (Hs5' : speed t5 = 0) by congruence.
  destruct (translate_at_rest intersectsMesh frameId dt t5 Hs5')
    as (Hx6 & Hz6 & Hs6 & _).
  destruct (translate_frame intersectsMesh frameId dt t5) as (Hr6 & _).
  cbn in Hx6, Hz6, Hs6, Hr6.
  unfold applyTransform. cbn.
  assert (Hx3 : position_x t3 = position_x t2) by reflexivity.
  assert (Hz3 : position_z t3 = position_z t2) by reflexivity.
  assert (Hr3 : rotation t3 = rotation t2) by reflexivity.
  repeat split; congruence.
Qed.

Lemma updateDriving_speed frameId nowMs deltaTime inputEnabled t st :
  let t1 := speedUpdate (effectiveKeys inputEnabled t) (Rmin deltaTime 0.05) t in
  let t' := fst (updateDriving intersectsMesh newPhysicsAggregate frameId nowMs
                   deltaTime inputEnabled t st) in
  speed t' = speed t1 \/ speed t' = speed t1 * 0.5.
Proof.
  cbv zeta. rewrite updateDriving_truck. cbv zeta.
  set (dt := Rmin deltaTime 0.05).
  set (k := effectiveKeys inputEnabled t).
  set (t1 := speedUpdate k dt t).
  set (t2 := updateGear t1).
  set (t3 := set_currentAcceleration ((speed t2 - prevSpeed t2) / dt) t2).
  set (ab := JS.gtb (autoBrakeTimer t1) 0).
  assert (Hs3 : speed t3 = speed t1) by reflexivity.
  destruct (turning_frame k ab dt t3) as (Hs4 & _).
  destruct (rotationVeto_frame intersectsMesh frameId (rotation t3)
              (position_x t3) (position_z t3) (turning k ab dt t3))
    as (Hs4' & _).
  fold (rotationAttempt intersectsMesh frameId k ab dt t3) in Hs4'.
  set (t4 := rotationAttempt intersectsMesh frameId k ab dt t3) in *.
  destruct (driftDecay_frame t4) as (_ & _ & _ & Hs5 & _).
  set (t5 := driftDecay t4) in *.
  destruct (translate_frame intersectsMesh frameId dt t5)
    as (_ & _ & _ & _ & _ & Hs6).
  cbn in Hs6.
  set (t6 := fst (translate intersectsMesh frameId dt t5)) in *.
  change (speed t6 = speed t1 \/ speed t6 = speed t1 * 0.5).
  destruct Hs6 as [E | E]; [left | right]; congruence.
Qed.

(** X2.  A frame in which the brake is held, the auto-brake is running or
    no drive key is held never ends with the truck faster than it began,
    and never with the truck moving the other way: the speed at the end of
    the frame lies between zero and the speed at its start. *)
Theorem braking_frame_only_slows
    (frameId : Z) (nowMs deltaTime : R) (inputEnabled : bool)
    (t : Truck) (st : Store) :
  0 <= deltaTime ->
  key_space (effectiveKeys inputEnabled t) = true
  \/ 0 < autoBrakeTimer (autoBrakeCountdown (Rmin deltaTime 0.05) t)
  \/ (key_w (effectiveKeys inputEnabled t) = false
      /\ key_s (effectiveKeys inputEnabled t) = false) ->
  let t' := fst (updateDriving intersectsMesh newPhysicsAggregate frameId nowMs
                   deltaTime inputEnabled t st) in
  Rabs (speed t') <= Rabs (speed t)
  /\ (0 <= speed t -> 0 <= speed t')
  /\ (speed t <= 0 -> speed t' <= 0).
Proof.
  intros Hdt Hk. cbv zeta.
  assert (Hdt' : 0 <= Rmin deltaTime 0.05) by (minmax_cases; lra).
  destruct (speedUpdate_slows (effectiveKeys inputEnabled t) (Rmin deltaTime 0.05)
              t Hdt' Hk) as (Habs & Hpos & Hneg).
  pose proof (updateDriving_speed frameId nowMs deltaTime inputEnabled t st) as Hs.
  cbv zeta in Hs.
  set (s1 := speed (speedUpdate (effectiveKeys inputEnabled t)
                      (Rmin deltaTime 0.05) t)) in *.
  set (s' := speed (fst (updateDriving intersectsMesh newPhysicsAggregate frameId
                           nowMs deltaTime inputEnabled t st))) in *.
  assert (Hhalf : Rabs s' <= Rabs s1
                  /\ (0 <= s1 -> 0 <= s') /\ (s1 <= 0 -> s' <= 0)).
  { destruct Hs as [-> | ->]; [split; [lra | split; auto] |].
    split; [| split; intros; lra].
    destruct (Rabs_cases s1) as [[? ->] | [? ->]];
      [rewrite Rabs_pos_eq by lra | rewrite Rabs_left1 by lra]; lra. }
  destruct Hhalf as (H1 & H2 & H3).
  split; [lra | split; auto].
Qed.

(** X3.  A truck at rest that gets no drive input — neither W nor S is
    held, or input is disabled — is left at rest by a frame: speed 0, and
    the position and the heading unchanged, whatever the steering keys,
    the auto-brake state and the obstacles around it. *)
Theorem parked_truck_stays_put
    (frameId : Z) (nowMs deltaTime : R) (inputEnabled : bool)
    (t : Truck) (st : Store) :
  speed t = 0 ->
  inputEnabled = false \/ (key_w (keys t) = false /\ key_s (keys t) = false) ->
  0 <= deltaTime ->
  let t' := fst (updateDriving intersectsMesh newPhysicsAggregate frameId nowMs
                   deltaTime inputEnabled t st) in
  speed t' = 0
  /\ position_x t' = position_x t /\ position_z t' = position_z t
  /\ rotation t' = rotation t.
Proof.
  intros H0 Hk Hdt. apply updateDriving_at_rest.
  set (dt := Rmin deltaTime 0.05).
  assert (Hdt' : 0 <= dt) by (unfold dt; minmax_cases; lra).
  set (k := effectiveKeys inputEnabled t).
  assert (Hws : key_w k = false /\ key_s k = false).
  { unfold k, effectiveKeys. destruct Hk as [-> | Hk]; [split; reflexivity |].
    destruct inputEnabled; [exact Hk | split; reflexivity]. }
  rewrite speed_speedUpdate.
  destruct (speed_autoBrakeCountdown dt t) as [Hs _]. rewrite Hs, H0.
  set (ab := JS.gtb (autoBrakeTimer (autoBrakeCountdown dt t)) 0).
  set (ga := gearAccel (autoBrakeCountdown dt t)).
  destruct (accelerate_sign k ab ga dt 0 Hdt' (gearAccel_pos _)) as (_ & _ & Hz).
  rewrite (Hz eq_refl) by (right; exact Hws).
  replace (clampSpeed 0) with 0
    by (unfold clampSpeed, maxSpeed; minmax_cases; lra).
  destruct (settleSpeed_cases ab (autoBrakeTimer (autoBrakeCountdown dt t)) 0)
    as [-> | ->]; reflexivity.
Qed.

(** X4.  The full-stop snap also catches a truck that is pulling away:
    from rest, with the auto-brake timer idle, a frame whose capped time
    step gains less than 0.2 mph ([gearAccel * dt < 0.2], i.e. shorter than
    1/60 s in neutral) ends at speed 0 again with the pose unchanged, even
    with W or S held. *)
Theorem short_frame_cannot_pull_away
    (frameId : Z) (nowMs deltaTime : R) (inputEnabled : bool)
    (t : Truck) (st : Store) :
  speed t = 0 ->
  autoBrakeTimer t = 0 ->
  0 <= deltaTime ->
  gearAccel t * Rmin deltaTime 0.05 < 0.2 ->
  let t' := fst (updateDriving intersectsMesh newPhysicsAggregate frameId nowMs
                   deltaTime inputEnabled t st) in
  speed t' = 0
  /\ position_x t' = position_x t /\ position_z t' = position_z t
  /\ rotation t' = rotation t.
Proof.
  intros H0 Htimer Hdt Hshort. apply updateDriving_at_rest.
  set (dt := Rmin deltaTime 0.05) in *.
  assert (Hdt' : 0 <= dt) by (unfold dt; minmax_cases; lra).
  set (k := effectiveKeys inputEnabled t).
  rewrite speed_speedUpdate.
  assert (Hc : autoBrakeCountdown dt t = t).
  { unfold autoBrakeCountdown. rewrite Htimer.
    replace (JS.gtb 0 0) with false by (symmetry; apply JSFacts.gtb_false; lra).
    reflexivity. }
  rewrite Hc, Htimer, H0.
  replace (JS.gtb 0 0) with false by (symmetry; apply JSFacts.gtb_false; lra).
  pose proof (gearAccel_pos t) as Hga.
  assert (Hsmall : Rabs (clampSpeed (accelerate k false (gearAccel t) dt 0)) < 0.2).
  { unfold accelerate, clampSpeed, maxSpeed.
    destruct (key_space k); cbn [orb]; [| destruct (key_w k); [| destruct (key_s k)]];
      js_cases; try lra; minmax_cases; nra. }
  unfold settleSpeed. cbn [negb andb].
  replace (JS.eqb 0 0) with true by (symmetry; apply JSFacts.eqb_true; reflexivity).
  cbn [andb].
  replace (JS.ltb _ 0.2) with true by (symmetry; apply JSFacts.ltb_true; exact Hsmall).
  reflexivity.
Qed.

End FrameFacts.

Lemma parked_truck_stays_put_witness :
  speed (fst (updateDriving alwaysHit (fun _ _ => mkPhysicsAggregate None) 1 0 0.016 true
                (set_keys (mkKeys false true false false false) (newTruck None))
                [])) = 0.
Proof.
  refine (proj1 (parked_truck_stays_put alwaysHit (fun _ _ => mkPhysicsAggregate None) 1 0 0.016 true
                   (set_keys (mkKeys false true false false false) (newTruck None))
                   [] _ _ _)).
  - reflexivity.
  - right. split; reflexivity.
  - lra.
Defined.

Lemma short_frame_cannot_pull_away_witness :
  speed (fst (updateDriving alwaysHit (fun _ _ => mkPhysicsAggregate None) 1 0 0.008 true
                (set_keys keyW (newTruck None)) [])) = 0.
Proof.
  refine (proj1 (short_frame_cannot_pull_away alwaysHit (fun _ _ => mkPhysicsAggregate None) 1 0 0.008 true
                   (set_keys keyW (newTruck None)) [] _ _ _ _)).
  - reflexivity.
  - reflexivity.
  - lra.
  - unfold gearAccel. simpl. unfold JS.or_default, JS.truthy.
    replace (JS.eqb 12 0) with false by (symmetry; apply JSFacts.eqb_false; lra).
    cbn [negb]. replace (Rmin 0.008 0.05) with 0.008
      by (symmetry; apply Rmin_left; lra).
    lra.
Defined.

Lemma braking_frame_only_slows_witness :
  Rabs (speed (fst (updateDriving alwaysHit (fun _ _ => mkPhysicsAggregate None)
                      1 0 0.016 true crawlingTruck [])))
  <= Rabs (speed crawlingTruck).
Proof.
  refine (proj1 (braking_frame_only_slows alwaysHit
                   (fun _ _ => mkPhysicsAggregate None)
                   1 0 0.016 true crawlingTruck [] _ _)).
  - lra.
  - right. right. split; reflexivity.
Defined.

(** * Gears and steering across a frame *)

Lemma gearThreshold_antitone (c1 c2 g : Z) :
  (c1 <= c2)%Z -> (1 <= g <= 5)%Z ->
  gearThreshold c2 g <= gearThreshold c1 g.
Proof.
  intros Hc Hg. unfold gearThreshold.
  destruct (forward_gear_cases g Hg) as [-> | [-> | [-> | [-> | ->]]]];
    repeat match goal with
    | |- context [(?a <=? ?b)%Z] => destruct (Z.leb_spec0 a b)
    end; try lia; simpl; lra.
Qed.

Lemma gearThresholdMet_monotone (c1 c2 g : Z) (s1 s2 : R) :
  (c1 <= c2)%Z -> s1 <= s2 -> (1 <= g <= 5)%Z ->
  gearThresholdMet c1 s1 g = true -> gearThresholdMet c2 s2 g = true.
Proof.
  intros Hc Hs Hg. unfold gearThresholdMet. intros H.
  pose proof (gearThreshold_antitone c1 c2 g Hc Hg).
  apply JSFacts.geb_true in H. apply JSFacts.geb_true. lra.
Qed.

Lemma forwardGear_range cur absSpeed : (1 <= forwardGear cur absSpeed <= 5)%Z.
Proof.
  destruct (forwardGear_highest cur absSpeed) as [(H & _) | (-> & _)]; lia.
Qed.

(** X5.  The forward gear is monotone: a higher speed never selects a
    lower gear, and — the hysteresis — neither does being in a higher gear
    already. *)
Theorem forwardGear_monotone (c1 c2 : Z) (s1 s2 : R) :
  (c1 <= c2)%Z -> s1 <= s2 ->
  (forwardGear c1 s1 <= forwardGear c2 s2)%Z.
Proof.
  intros Hc Hs.
  pose proof (forwardGear_range c2 s2) as R2.
  destruct (forwardGear_highest c1 s1) as [(R1 & M1 & _) | (-> & _)]; [| lia].
  destruct (forwardGear_highest c2 s2) as [(_ & _ & Top) | (_ & None2)].
  - destruct (Z_le_gt_dec (forwardGear c1 s1) (forwardGear c2 s2)) as [| Hgt];
      [assumption |].
    pose proof (gearThresholdMet_monotone c1 c2 _ s1 s2 Hc Hs R1 M1) as M2.
    rewrite Top in M2 by lia. discriminate.
  - pose proof (gearThresholdMet_monotone c1 c2 _ s1 s2 Hc Hs R1 M1) as M2.
    rewrite (None2 _ R1) in M2. discriminate.
Qed.

Lemma forwardGear_monotone_witness : (forwardGear 1 30 <= forwardGear 2 60)%Z.
Proof.
  apply (forwardGear_monotone 1 2 30 60); [lia | lra].
Defined.

Lemma nextGear_range cur spd : (-1 <= nextGear cur spd <= 5)%Z.
Proof.
  unfold nextGear. pose proof (forwardGear_range cur (Rabs spd)).
  destruct (JS.gtb spd 0.5); [lia |]. destruct (JS.ltb spd (-0.5)); lia.
Qed.

Lemma gearAccel_in_table t :
  (-1 <= currentGear t <= 5)%Z -> In (gearAccel t) gearAcceleration.
Proof.
  intros H. unfold gearAccel.
  assert (E : currentGear t = (-1)%Z \/ currentGear t = 0%Z \/ currentGear t = 1%Z
              \/ currentGear t = 2%Z \/ currentGear t = 3%Z
              \/ currentGear t = 4%Z \/ currentGear t = 5%Z) by lia.
  assert (D : forall a, a <> 0 -> JS.or_default a baseAcceleration = a).
  { intros a Ha. unfold JS.or_default, JS.truthy.
    replace (JS.eqb a 0) with false by (symmetry; apply JSFacts.eqb_false; exact Ha).
    reflexivity. }
  destruct E as [-> | [-> | [-> | [-> | [-> | [-> | ->]]]]]]; simpl;
    rewrite D by lra; lra || auto 10.
Qed.

Section FrameGearFacts.

Variable intersectsMesh : RootNode -> TruckMesh -> Obstacle -> bool.
Variable newPhysicsAggregate : Mesh -> PhysicsParams -> PhysicsAggregate.

(** X6.  After every frame the gear is one of -1..5, so the acceleration
    read from the gear table on the next frame is always an entry of the
    table: the [|| baseAcceleration] fallback can only fire on a truck whose
    gear was set from outside.  The speed a frame ends with lies in
    [[-maxSpeed, maxSpeed * 0.3]]. *)
Theorem frame_keeps_gear_and_speed_in_range
    (frameId : Z) (nowMs deltaTime : R) (inputEnabled : bool)
    (t : Truck) (st : Store) :
  let t' := fst (updateDriving intersectsMesh newPhysicsAggregate frameId nowMs
                   deltaTime inputEnabled t st) in
  (-1 <= currentGear t' <= 5)%Z
  /\ In (gearAccel t') gearAcceleration
  /\ - maxSpeed <= speed t' <= maxSpeed * 0.3.
Proof.
  cbv zeta. rewrite updateDriving_truck. cbv zeta.
  set (dt := Rmin deltaTime 0.05).
  set (k := effectiveKeys inputEnabled t).
  set (t1 := speedUpdate k dt t).
  set (t2 := updateGear t1).
  set (t3 := set_currentAcceleration ((speed t2 - prevSpeed t2) / dt) t2).
  set (ab := JS.gtb (autoBrakeTimer t1) 0).
  assert (Hs1 : - maxSpeed <= speed t1 <= maxSpeed * 0.3).
  { unfold t1. rewrite speed_speedUpdate.
    match goal with
    | |- _ <= settleSpeed ?a ?b ?c <= _ =>
        destruct (settleSpeed_cases a b c) as [-> | ->]
    end; [unfold maxSpeed; lra | apply clampSpeed_bounds]. }
  assert (Hg2 : (-1 <= currentGear t2 <= 5)%Z)
    by (unfold t2; rewrite currentGear_updateGear; apply nextGear_range).
  assert (Hs3 : speed t3 = speed t1) by reflexivity.
  assert (Hg3 : currentGear t3 = currentGear t2) by reflexivity.
  destruct (turning_frame k ab dt t3) as (Hs4 & Hg4 & _).
  destruct (rotationVeto_frame intersectsMesh frameId (rotation t3)
              (position_x t3) (position_z t3) (turning k ab dt t3))
    as (Hs4' & Hg4' & _).
  fold (rotationAttempt intersectsMesh frameId k ab dt t3) in Hs4', Hg4'.
  set (t4 := rotationAttempt intersectsMesh frameId k ab dt t3) in *.
  destruct (driftDecay_frame t4) as (_ & _ & _ & Hs5 & Hg5 & _).
  set (t5 := driftDecay t4) in *.
  destruct (translate_frame intersectsMesh frameId dt t5)
    as (_ & Hg6 & _ & _ & _ & Hs6).
  cbn in Hg6, Hs6.
  set (t6 := fst (translate intersectsMesh frameId dt t5)) in *.
  assert (Hg : currentGear (applyTransform t6) = currentGear t2)
    by (change (currentGear t6 = currentGear t2); congruence).
  assert (Hs : speed (applyTransform t6) = speed t1
               \/ speed (applyTransform t6) = speed t1 * 0.5).
  { change (speed t6 = speed t1 \/ speed t6 = speed t1 * 0.5).
    destruct Hs6 as [E | E]; [left | right]; congruence. }
  split; [rewrite Hg; exact Hg2 |].
  split; [apply gearAccel_in_table; rewrite Hg; exact Hg2 |].
  unfold maxSpeed in *. destruct Hs as [-> | ->]; lra.
Qed.

End FrameGearFacts.

(** * Steering across a frame *)

Lemma scaled_turn_bound (ets boost sc dt : R) :
  0 <= dt -> 0 <= ets <= turnSpeed -> 0 <= boost <= 1.3 -> 0 <= sc <= 1 ->
  0 <= ets * dt * boost * sc <= turnSpeed * 1.3 * dt.
Proof.
  intros Hdt He Hb Hs. unfold turnSpeed in *.
  assert (H1 : 0 <= ets * boost <= 1.9 * 1.3) by nra.
  assert (H2 : 0 <= ets * boost * sc <= 1.9 * 1.3) by nra.
  replace (ets * dt * boost * sc) with (ets * boost * sc * dt) by ring.
  nra.
Qed.

Lemma steer_bounds drifting boost ets dt tf ti rate0 drift0 :
  0 <= dt -> 0 <= ets <= turnSpeed -> tf = 1 \/ tf = -1 -> 0 <= boost <= 1.3 ->
  Rabs (fst (fst (steer drifting boost ets dt tf ti rate0 drift0)))
    <= turnSpeed * 1.3 * dt
  /\ (Rabs drift0 <= 0.15 ->
      Rabs (snd (steer drifting boost ets dt tf ti rate0 drift0)) <= 0.15).
Proof.
  intros Hdt He Htf Hb.
  assert (Hsc : 0 <= Rmin 1 (Rabs ti) <= 1).
  { pose proof (Rabs_pos ti). split; [apply Rmin_glb; lra | apply Rmin_l]. }
  pose proof (scaled_turn_bound ets boost (Rmin 1 (Rabs ti)) dt Hdt He Hb Hsc) as Hp.
  set (sc := Rmin 1 (Rabs ti)) in *.
  assert (Hd : Rabs (ets * dt * tf * boost * sc) <= turnSpeed * 1.3 * dt
               /\ Rabs (- ets * dt * tf * boost * sc) <= turnSpeed * 1.3 * dt).
  { set (p := ets * dt * boost * sc) in *.
    destruct Htf as [-> | ->]; split.
    - replace (ets * dt * 1 * boost * sc) with p by (unfold p; ring).
      apply Rabs_le; lra.
    - replace (- ets * dt * 1 * boost * sc) with (- p) by (unfold p; ring).
      apply Rabs_le; lra.
    - replace (ets * dt * -1 * boost * sc) with (- p) by (unfold p; ring).
      apply Rabs_le; lra.
    - replace (- ets * dt * -1 * boost * sc) with p by (unfold p; ring).
      apply Rabs_le; lra. }
  assert (H0 : Rabs 0 <= turnSpeed * 1.3 * dt)
    by (rewrite Rabs_R0; unfold turnSpeed; nra).
  unfold steer. fold sc.
  destruct (JS.gtb ti 0.01); destruct (JS.ltb ti (-0.01)); cbn [fst snd];
    (split; [tauto |]); intros Hdr; apply Rabs_le_between in Hdr;
    destruct drifting; apply Rabs_le; minmax_cases; lra.
Qed.

Lemma turning_steering k autoBraking dt t :
  0 <= dt ->
  Rabs (rotation (turning k autoBraking dt t) - rotation t) <= turnSpeed * 1.3 * dt
  /\ (Rabs (driftAngleOf t) <= 0.15 ->
      Rabs (driftAngleOf (turning k autoBraking dt t)) <= 0.15)
  /\ (Rabs (turnInputOf t) <= 1 ->
      Rabs (turnInputOf (turning k autoBraking dt t)) <= 1).
Proof.
  intros Hdt.
  assert (H0 : Rabs (rotation t - rotation t) <= turnSpeed * 1.3 * dt).
  { replace (rotation t - rotation t) with 0 by ring. rewrite Rabs_R0.
    unfold turnSpeed; nra. }
  split; [| split].
  3: { destruct (turning_frame k autoBraking dt t) as (_ & _ & _ & Hti).
       intros Hb. unfold turnInputOf at 1. rewrite Hti.
       apply Rabs_le_between in Hb. apply Rabs_le.
       assert (Hl : 0 <= Rmin 1 (dt * 12) <= 1)
         by (split; [apply Rmin_glb; lra | apply Rmin_l]).
       set (l := Rmin 1 (dt * 12)) in *. set (ti := turnInputOf t) in *.
       destruct (key_a k); destruct (key_d k); nra. }
  all: unfold turning; cbn.
  all: destruct (JS.gtb (Rabs (speed t)) 0.1); [| cbn; auto].
  all: match goal with
       | |- context [steer ?a ?b ?c ?d ?e ?f ?g ?h] =>
           assert (Hst : Rabs (fst (fst (steer a b c d e f g h)))
                           <= turnSpeed * 1.3 * dt
                         /\ (Rabs h <= 0.15 ->
                             Rabs (snd (steer a b c d e f g h)) <= 0.15));
           [ apply steer_bounds;
             [ exact Hdt
             | pose proof (Rabs_pos (speed t)); unfold turnSpeed;
               assert (0 <= Rmin 1 (Rabs (speed t) / 20) <= 1)
                 by (split; [apply Rmin_glb; lra | apply Rmin_l]);
               nra
             | destruct (JS.ltb (speed t) 0); auto
             | match goal with
               | |- context [if ?c then 1.3 else 1] => destruct c; lra
               end ]
           | destruct (steer a b c d e f g h) as [[dRot rate] drift] ]
       end.
  all: cbn [fst snd] in Hst; destruct Hst as [Hrot Hdrift].
  all: destruct (negb (JS.eqb dRot 0)); cbn; auto.
  replace (rotation t + dRot - rotation t) with dRot by ring. exact Hrot.
Qed.

Lemma rotationAttempt_cases
    (intersectsMesh : RootNode -> TruckMesh -> Obstacle -> bool)
    (frameId : Z) (k : Keys) (autoBraking : bool) (dt : R) (t : Truck) :
  let t' := rotationAttempt intersectsMesh frameId k autoBraking dt t in
  (rotation t' = rotation (turning k autoBraking dt t)
   /\ driftAngle t' = driftAngle (turning k autoBraking dt t))
  \/ (rotation t' = rotation t /\ driftAngle t' = Some 0).
Proof.
  unfold rotationAttempt, rotationVeto.
  set (a := turning k autoBraking dt t).
  destruct (negb (JS.eqb (rotation a) (rotation t))); [| left; split; reflexivity].
  pose proof (checkMeshCollision_frame intersectsMesh frameId
                (position_x a) (position_z a) (rotation a) a) as H.
  destruct (checkMeshCollision intersectsMesh frameId (position_x a)
              (position_z a) (rotation a) a) as [hit t1].
  cbn in H. destruct H as (_ & _ & Hr & _ & _ & _ & _ & Hd & _).
  destruct hit; cbn; [right | left]; split; auto.
Qed.

Lemma driftDecay_drift t :
  Rabs (driftAngleOf t) <= 0.15 -> Rabs (driftAngleOf (driftDecay t)) <= 0.15.
Proof.
  intros H. unfold driftDecay.
  destruct (negb (isDriftingOf t)); [| exact H].
  cbn. destruct (JS.ltb _ 0.01); cbn.
  - rewrite Rabs_R0. lra.
  - apply Rabs_le_between in H. apply Rabs_le. lra.
Qed.

Section FrameSteeringFacts.

Variable intersectsMesh : RootNode -> TruckMesh -> Obstacle -> bool.
Variable newPhysicsAggregate : Mesh -> PhysicsParams -> PhysicsAggregate.

(** X7.  Steering stays bounded over a frame: the heading changes by at
    most [turnSpeed * 1.3] rad/s times the capped time step (so by at most
    0.1235 rad per frame), a smoothed turn input in [-1, 1] stays in
    [-1, 1], and a drift angle of magnitude at most 0.15 rad stays so. *)
Theorem frame_bounds_steering
    (frameId : Z) (nowMs deltaTime : R) (inputEnabled : bool)
    (t : Truck) (st : Store) :
  0 <= deltaTime ->
  let t' := fst (updateDriving intersectsMesh newPhysicsAggregate frameId nowMs
                   deltaTime inputEnabled t st) in
  Rabs (rotation t' - rotation t) <= turnSpeed * 1.3 * Rmin deltaTime 0.05
  /\ Rabs (rotation t' - rotation t) <= 0.1235
  /\ (Rabs (turnInputOf t) <= 1 -> Rabs (turnInputOf t') <= 1)
  /\ (Rabs (driftAngleOf t) <= 0.15 -> Rabs (driftAngleOf t') <= 0.15).
Proof.
  intros Hdt. cbv zeta. rewrite updateDriving_truck. cbv zeta.
  set (dt := Rmin deltaTime 0.05).
  assert (Hdt' : 0 <= dt <= 0.05) by (unfold dt; minmax_cases; lra).
  set (k := effectiveKeys inputEnabled t).
  destruct (speedUpdate_frame k dt t) as (_ & _ & Hr1 & _ & Hti1 & Hd1 & _).
  set (t1 := speedUpdate k dt t) in *.
  destruct (updateGear_frame t1) as (_ & _ & Hr2 & _ & Hti2 & Hd2 & _).
  set (t2 := updateGear t1) in *.
  set (t3 := set_currentAcceleration ((speed t2 - prevSpeed t2) / dt) t2).
  assert (Hr3 : rotation t3 = rotation t) by (change (rotation t2 = rotation t); congruence).
  assert (Hti3 : turnInputOf t3 = turnInputOf t).
  { unfold turnInputOf. change (turnInput t3) with (turnInput t2).
    rewrite Hti2, Hti1. reflexivity. }
  assert (Hd3 : driftAngleOf t3 = driftAngleOf t).
  { unfold driftAngleOf. change (driftAngle t3) with (driftAngle t2).
    rewrite Hd2, Hd1. reflexivity. }
  set (ab := JS.gtb (autoBrakeTimer t1) 0).
  destruct (turning_steering k ab dt t3 (proj1 Hdt')) as (Hrot & Hdrift & Hinput).
  rewrite Hr3 in Hrot. rewrite Hd3 in Hdrift. rewrite Hti3 in Hinput.
  destruct (rotationVeto_frame intersectsMesh frameId (rotation t3)
              (position_x t3) (position_z t3) (turning k ab dt t3))
    as (_ & _ & _ & Hti4 & _).
  fold (rotationAttempt intersectsMesh frameId k ab dt t3) in Hti4.
  pose proof (rotationAttempt_cases intersectsMesh frameId k ab dt t3) as Hcases.
  cbv zeta in Hcases. rewrite Hr3 in Hcases.
  set (t4 := rotationAttempt intersectsMesh frameId k ab dt t3) in *.
  destruct (driftDecay_frame t4) as (_ & _ & Hr5 & _ & _ & _ & Hti5).
  pose proof (driftDecay_drift t4) as Hd5.
  set (t5 := driftDecay t4) in *.
  destruct (translate_frame intersectsMesh frameId dt t5)
    as (Hr6 & _ & _ & Hti6 & Hd6 & _).
  cbn in Hr6, Hti6, Hd6.
  set (t6 := fst (translate intersectsMesh frameId dt t5)) in *.
  change (rotation (applyTransform t6)) with (rotation t6).
  change (turnInputOf (applyTransform t6)) with (turnInputOf t6).
  change (driftAngleOf (applyTransform t6)) with (driftAngleOf t6).
  assert (Hrot4 : Rabs (rotation t4 - rotation t) <= turnSpeed * 1.3 * dt).
  { destruct Hcases as [[E _] | [E _]]; rewrite E; [exact Hrot |].
    replace (rotation t - rotation t) with 0 by ring. rewrite Rabs_R0.
    unfold turnSpeed. lra. }
  assert (Hdr4 : Rabs (driftAngleOf t) <= 0.15 -> Rabs (driftAngleOf t4) <= 0.15).
  { intros Hb. unfold driftAngleOf at 1.
    destruct Hcases as [[_ E] | [_ E]]; rewrite E;
      [apply Hdrift; exact Hb | rewrite Rabs_R0; lra]. }
  assert (Er : rotation t6 = rotation t4) by congruence.
  rewrite Er.
  split; [exact Hrot4 |].
  split; [unfold turnSpeed in *; lra |].
  split.
  - intros Hb. unfold turnInputOf at 1. rewrite Hti6, Hti5, Hti4.
    apply Hinput. exact Hb.
  - intros Hb. unfold driftAngleOf at 1. rewrite Hd6. apply Hd5, Hdr4. exact Hb.
Qed.

End FrameSteeringFacts.

Lemma frame_bounds_steering_witness :
  Rabs (rotation (fst (updateDriving alwaysHit (fun _ _ => mkPhysicsAggregate None)
                         1 0 0.016 true slidingTruck []))
        - rotation slidingTruck) <= 0.1235.
Proof.
  refine (proj1 (proj2 (frame_bounds_steering alwaysHit
                          (fun _ _ => mkPhysicsAggregate None)
                          1 0 0.016 true slidingTruck [] _))).
  lra.
Defined.

(** * The auto-brake *)

(** X8.  While the auto-brake set by [applyAutoBrake(duration)] has not run
    out — the capped time step of the frame is shorter than the duration —
    the speed update ignores the drive keys: it does exactly what it does
    with the brake alone held. *)
Theorem autoBrake_overrides_keys (k : Keys) (dt duration : R) (t : Truck) :
  0 < duration -> dt < duration ->
  speedUpdate k dt (applyAutoBrake duration t)
  = speedUpdate (mkKeys false false false false true) dt
      (applyAutoBrake duration t).
Proof.
  intros Hd Hdt.
  unfold speedUpdate, speedClamped, autoBrakeCountdown, applyAutoBrake. cbn.
  set (timer := Rmax (autoBrakeTimer t) duration).
  assert (Ht : duration <= timer) by apply Rmax_r.
  replace (JS.gtb timer 0) with true
    by (symmetry; apply JSFacts.gtb_true; lra).
  cbn.
  assert (Hpos : 0 < Rmax 0 (timer - dt)).
  { apply Rlt_le_trans with (timer - dt); [lra | apply Rmax_r]. }
  replace (JS.gtb (Rmax 0 (timer - dt)) 0) with true
    by (symmetry; apply JSFacts.gtb_true; exact Hpos).
  unfold accelerate. rewrite orb_true_r. reflexivity.
Qed.

Lemma autoBrake_overrides_keys_witness :
  speedUpdate keyW 0.05 (applyAutoBrake 0.7 crawlingTruck)
  = speedUpdate (mkKeys false false false false true) 0.05
      (applyAutoBrake 0.7 crawlingTruck).
Proof.
  apply (autoBrake_overrides_keys keyW 0.05 0.7 crawlingTruck); lra.
Defined.

Section FrameTimerFacts.

Variable intersectsMesh : RootNode -> TruckMesh -> Obstacle -> bool.
Variable newPhysicsAggregate : Mesh -> PhysicsParams -> PhysicsAggregate.

(** X9.  Over a frame a non-negative auto-brake timer goes down by exactly
    the capped time step and stops at 0; nothing else in the frame —
    steering, the two collision vetoes, the halved speed of a blocked move —
    touches it. *)
Theorem frame_counts_autoBrake_down
    (frameId : Z) (nowMs deltaTime : R) (inputEnabled : bool)
    (t : Truck) (st : Store) :
  0 <= deltaTime -> 0 <= autoBrakeTimer t ->
  autoBrakeTimer (fst (updateDriving intersectsMesh newPhysicsAggregate frameId
                         nowMs deltaTime inputEnabled t st))
  = Rmax 0 (autoBrakeTimer t - Rmin deltaTime 0.05).
Proof.
  intros Hdt Htimer. rewrite updateDriving_truck. cbv zeta.
  set (dt := Rmin deltaTime 0.05).
  assert (Hdt' : 0 <= dt) by (unfold dt; minmax_cases; lra).
  set (k := effectiveKeys inputEnabled t).
  destruct (speedUpdate_frame k dt t) as (_ & _ & _ & _ & _ & _ & Ha1).
  set (t1 := speedUpdate k dt t) in *.
  destruct (updateGear_frame t1) as (_ & _ & _ & _ & _ & _ & Ha2).
  set (t2 := updateGear t1) in *.
  set (t3 := set_currentAcceleration ((speed t2 - prevSpeed t2) / dt) t2).
  set (ab := JS.gtb (autoBrakeTimer t1) 0).
  destruct (turning_frame k ab dt t3) as (_ & _ & Ha4 & _).
  destruct (rotationVeto_frame intersectsMesh frameId (rotation t3)
              (position_x t3) (position_z t3) (turning k ab dt t3))
    as (_ & _ & Ha4' & _).
  fold (rotationAttempt intersectsMesh frameId k ab dt t3) in Ha4'.
  set (t4 := rotationAttempt intersectsMesh frameId k ab dt t3) in *.
  destruct (driftDecay_frame t4) as (_ & _ & _ & _ & _ & Ha5 & _).
  set (t5 := driftDecay t4) in *.
  destruct (translate_frame intersectsMesh frameId dt t5) as (_ & _ & Ha6 & _).
  cbn in Ha6.
  set (t6 := fst (translate intersectsMesh frameId dt t5)) in *.
  change (autoBrakeTimer t6 = Rmax 0 (autoBrakeTimer t - dt)).
  assert (E : autoBrakeTimer t6 = autoBrakeTimer (autoBrakeCountdown dt t)).
  { change (autoBrakeTimer t3) with (autoBrakeTimer t2) in Ha4. congruence. }
  rewrite E. unfold autoBrakeCountdown.
  js_cases; cbn; [reflexivity |].
  assert (E0 : autoBrakeTimer t = 0) by lra.
  rewrite E0. symmetry. apply Rmax_left. lra.
Qed.

End FrameTimerFacts.

Lemma frame_counts_autoBrake_down_witness :
  autoBrakeTimer (fst (updateDriving alwaysHit (fun _ _ => mkPhysicsAggregate None)
                         1 0 0.016 true (applyAutoBrake 0.7 crawlingTruck) []))
  = Rmax 0 (autoBrakeTimer (applyAutoBrake 0.7 crawlingTruck) - Rmin 0.016 0.05).
Proof.
  apply (frame_counts_autoBrake_down alwaysHit (fun _ _ => mkPhysicsAggregate None)
           1 0 0.016 true (applyAutoBrake 0.7 crawlingTruck) []).
  - lra.
  - cbn. apply Rle_trans with 0.7; [lra | apply Rmax_r].
Defined.

(** * The mesh test: memo and dead obstacles *)

Lemma existsb_false {A : Type} (f : A -> bool) (l : list A) :
  (forall x, In x l -> f x = false) -> existsb f l = false.
Proof.
  induction l as [| a l IH]; intros H; [reflexivity |].
  cbn. rewrite (H a (or_introl eq_refl)). apply IH.
  intros x Hx. apply H. right. exact Hx.
Qed.

Lemma cacheHit_same frameId posX posZ rotY result :
  cacheHit (Some (mkCollisionCache frameId posX posZ rotY result))
           frameId posX posZ rotY = Some result.
Proof.
  unfold cacheHit. cbn. rewrite Z.eqb_refl.
  replace (JS.eqb posX posX) with true by (symmetry; apply JSFacts.eqb_true; reflexivity).
  replace (JS.eqb posZ posZ) with true by (symmetry; apply JSFacts.eqb_true; reflexivity).
  replace (JS.eqb rotY rotY) with true by (symmetry; apply JSFacts.eqb_true; reflexivity).
  reflexivity.
Qed.

(** X10.  The memo of [checkMeshCollision]: asking again for the same
    pose in the same frame returns the first answer and changes nothing on
    the truck, whatever the engine would say the second time — the meshes
    are not consulted again. *)
Theorem checkMeshCollision_memo
    (engine engine' : RootNode -> TruckMesh -> Obstacle -> bool)
    (frameId : Z) (posX posZ rotY : R) (t : Truck) :
  checkMeshCollision engine' frameId posX posZ rotY
    (snd (checkMeshCollision engine frameId posX posZ rotY t))
  = checkMeshCollision engine frameId posX posZ rotY t.
Proof.
  unfold checkMeshCollision at 2 3.
  destruct (sceneManager t) as [sm |] eqn:Esm.
  - destruct (cacheHit (_collisionCache t) frameId posX posZ rotY) as [res |] eqn:Ec.
    + cbn [snd]. unfold checkMeshCollision. rewrite Esm, Ec. reflexivity.
    + cbn [snd]. unfold checkMeshCollision. cbn -[cacheHit].
      rewrite Esm, cacheHit_same. reflexivity.
  - cbn [snd]. unfold checkMeshCollision. rewrite Esm. reflexivity.
Qed.

Lemma houseCollides_out_of_reach engine r posX posZ oh :
  houseOutOfReach posX posZ oh -> houseCollides engine r posX posZ oh = false.
Proof.
  destruct oh as [h |]; [| reflexivity].
  cbn. intros [H | H]; rewrite H; [reflexivity |].
  destruct (house_isDisposed h); reflexivity.
Qed.

Lemma lookupTile_in tiles gx gz houses :
  lookupTile tiles gx gz = Some houses ->
  exists key, In (key, Some houses) tiles.
Proof.
  unfold lookupTile.
  match goal with
  | |- context [find ?p tiles] => destruct (find p tiles) as [[key v] |] eqn:E
  end; [| discriminate].
  cbn. intros ->. exists key. apply (find_some _ _ E).
Qed.

Lemma detectCollision_nothing engine sm r posX posZ :
  nothingInReach sm posX posZ -> detectCollision engine sm r posX posZ = false.
Proof.
  intros (Htiles & Hpickup & Hwalls). unfold detectCollision. cbv zeta.
  apply orb_false_iff. split; [apply orb_false_iff; split |].
  - destruct (housesByTile sm) as [tiles |] eqn:E; [| reflexivity].
    apply existsb_false. intros gx _. apply existsb_false. intros gz _.
    destruct (lookupTile tiles gx gz) as [houses |] eqn:L; [| reflexivity].
    destruct (lookupTile_in _ _ _ _ L) as [key Hin].
    apply existsb_false. intros oh Hoh.
    apply houseCollides_out_of_reach.
    exact (Htiles tiles key houses oh eq_refl Hin Hoh).
  - destruct (pickupHouse sm) as [h |]; [| reflexivity].
    apply houseCollides_out_of_reach. exact Hpickup.
  - destruct (destinationWalls sm) as [walls |] eqn:E; [| reflexivity].
    apply existsb_false. intros ow How.
    specialize (Hwalls walls ow eq_refl How).
    destruct ow as [wm |]; [| reflexivity].
    cbn in Hwalls. rewrite Hwalls. reflexivity.
Qed.

(** X11.  Obstacles that are gone do not collide: when every house of
    the scene is a null slot, disposed of or outside the broad-phase radius,
    and every wall a null slot or disposed of, a fresh mesh test answers
    "no collision" without regard to what the engine reports for those
    meshes; a truck without a scene manager never collides. *)
Theorem checkMeshCollision_ignores_dead_obstacles
    (engine : RootNode -> TruckMesh -> Obstacle -> bool)
    (frameId : Z) (posX posZ rotY : R) (t : Truck) :
  cacheHit (_collisionCache t) frameId posX posZ rotY = None ->
  (forall sm, sceneManager t = Some sm -> nothingInReach sm posX posZ) ->
  fst (checkMeshCollision engine frameId posX posZ rotY t) = false.
Proof.
  intros Hc Hn. unfold checkMeshCollision.
  destruct (sceneManager t) as [sm |]; [| reflexivity].
  rewrite Hc. cbn. apply detectCollision_nothing. apply Hn. reflexivity.
Qed.

Lemma abandonedScene_nothing posX posZ : nothingInReach abandonedScene posX posZ.
Proof.
  split; [| split].
  - intros tiles key houses oh E Hin Hoh. cbn in E. injection E as <-.
    destruct Hin as [Hin | []]. injection Hin as _ <-.
    destruct Hoh as [<- | [<- | []]]; cbn; auto.
  - exact I.
  - intros walls ow E How. cbn in E. injection E as <-.
    destruct How as [<- | [<- | []]]; cbn; auto.
Qed.

Lemma checkMeshCollision_ignores_dead_obstacles_witness :
  fst (checkMeshCollision alwaysHit 1 0 0 0 (newTruck (Some abandonedScene))) = false.
Proof.
  apply (checkMeshCollision_ignores_dead_obstacles alwaysHit 1 0 0 0
           (newTruck (Some abandonedScene))).
  - reflexivity.
  - intros sm E. cbn in E. injection E as <-. apply abandonedScene_nothing.
Defined.

(** * Translation *)

Section TranslateFacts.

Variable intersectsMesh : RootNode -> TruckMesh -> Obstacle -> bool.

(** X12.  The translation step proposes a displacement whose length is
    exactly the distance covered at the current speed,
    [|speed| * 0.44704 * dt] metres.  The truck either takes the whole
    displacement and keeps its speed, or — when the mesh test rejects the
    new position — keeps its position and loses half of its speed; the
    heading is not touched, and the displacement reported to the cargo
    pass is the proposed one in both cases. *)
Theorem translate_moves_or_halves (frameId : Z) (dt : R) (t : Truck) :
  let t' := fst (translate intersectsMesh frameId dt t) in
  let moveX := fst (snd (translate intersectsMesh frameId dt t)) in
  let moveZ := snd (snd (translate intersectsMesh frameId dt t)) in
  moveX * moveX + moveZ * moveZ
    = (speed t * 0.44704 * dt) * (speed t * 0.44704 * dt)
  /\ rotation t' = rotation t
  /\ ((position_x t' = position_x t + moveX
       /\ position_z t' = position_z t + moveZ /\ speed t' = speed t)
      \/ (position_x t' = position_x t
          /\ position_z t' = position_z t /\ speed t' = speed t * 0.5)).
Proof.
  unfold translate.
  match goal with
  | |- context [checkMeshCollision ?i ?f ?x ?z ?r ?u] =>
      pose proof (checkMeshCollision_frame i f x z r u) as H;
      destruct (checkMeshCollision i f x z r u) as [hit t1]
  end.
  cbn in H. destruct H as (Hx & Hz & Hr & Hs & _).
  set (d := rotation t + driftAngleOf t) in *.
  pose proof (sin2_cos2 d) as Hsc. unfold Rsqr in Hsc.
  destruct hit; cbn; rewrite ?Hx, ?Hz, ?Hr, ?Hs.
  - split; [| split; [reflexivity | right; repeat split]].
    replace (sin d * (speed t * 0.44704) * dt * (sin d * (speed t * 0.44704) * dt)
             + cos d * (speed t * 0.44704) * dt * (cos d * (speed t * 0.44704) * dt))
      with ((sin d * sin d + cos d * cos d)
            * (speed t * 0.44704 * dt * (speed t * 0.44704 * dt))) by ring.
    rewrite Hsc. ring.
  - split; [| split; [reflexivity | left; repeat split]].
    replace (sin d * (speed t * 0.44704) * dt * (sin d * (speed t * 0.44704) * dt)
             + cos d * (speed t * 0.44704) * dt * (cos d * (speed t * 0.44704) * dt))
      with ((sin d * sin d + cos d * cos d)
            * (speed t * 0.44704 * dt * (speed t * 0.44704 * dt))) by ring.
    rewrite Hsc. ring.
Qed.

End TranslateFacts.

(** * The frames of the two cargo passes *)

(** X13.  The two cargo passes do not share a frame.  The pre-step pass
    takes [cos] and [sin] of the heading, the post-step pass of the negated
    heading, and both put them into the same formulas; so the truck-local
    coordinates the post-step pass computes for an item are those of the
    pre-step pass mirrored: they differ by twice the item's world offset
    along the other axis times [sin(rotation)], and agree for every item
    only when [sin(rotation) = 0]. *)
Theorem cargo_passes_use_mirrored_frames
    (t : Truck) (nowMs dt moveX moveZ : R) (it : Item) :
  let p := preStepOf t nowMs dt moveX moveZ in
  let dx := vx (meshPos it) - position_x t in
  let dz := vz (meshPos it) - position_z t in
  itemLocalX t it = preLocalX p it - 2 * dz * sin (rotation t)
  /\ itemLocalZ t it = preLocalZ p it + 2 * dx * sin (rotation t)
  /\ itemLocalX t it = preLocalX (preStepOf (set_rotation (- rotation t) t)
                                    nowMs dt moveX moveZ) it
  /\ itemLocalZ t it = preLocalZ (preStepOf (set_rotation (- rotation t) t)
                                    nowMs dt moveX moveZ) it
  /\ (sin (rotation t) = 0 ->
      itemLocalX t it = preLocalX p it /\ itemLocalZ t it = preLocalZ p it)
  /\ (itemLocalX t it = preLocalX p it -> itemLocalZ t it = preLocalZ p it ->
      sin (rotation t) = 0 \/ (dx = 0 /\ dz = 0)).
Proof.
  cbv zeta. unfold itemLocalX, itemLocalZ, preLocalX, preLocalZ, localXOf, localZOf.
  cbn [post_cos post_sin postStepOf pre_cos pre_sin pre_truck preStepOf
       rotation set_rotation position_x position_z].
  rewrite cos_neg, sin_neg.
  set (dx := vx (meshPos it) - position_x t).
  set (dz := vz (meshPos it) - position_z t).
  set (c := cos (rotation t)). set (s := sin (rotation t)).
  split; [ring |]. split; [ring |]. split; [reflexivity |]. split; [reflexivity |].
  split.
  - intros Hs. rewrite Hs. split; ring.
  - intros Hx Hz.
    assert (H1 : dz * s = 0) by lra.
    assert (H2 : dx * s = 0) by lra.
    destruct (Req_dec s 0) as [Hs | Hs]; [left; exact Hs | right].
    split.
    + apply Rmult_integral in H2. destruct H2; [assumption | contradiction].
    + apply Rmult_integral in H1. destruct H1; [assumption | contradiction].
Qed.

(** * Teleporting a body and restoring its motion type *)

(** X14.  Teleport and restore are a round trip on the motion type.  A body
    teleported at time T is at rest and targeted at the new position, and
    still has the motion type it had (the KINEMATIC the code asks for is no
    member of the engine's enum); restoring before T + 150 ms changes
    nothing; restoring at or after T + 150 ms gives the body the motion
    type it had when it was teleported, with zero velocities and its
    damping untouched, and clears the pending restore. *)
Theorem teleport_then_restore
    (position : Vec3) (teleportMs nowMs : R) (it : Item) (b : Body) :
  bodyOf it = Some b ->
  teleportMs + 150 <> 0 ->
  let held := teleportItemBody position teleportMs it in
  let back := restoreItemMotionType nowMs held in
  (exists bh, bodyOf held = Some bh /\ heldAt position bh
     /\ motionType bh = motionType b
     /\ linearDamping bh = linearDamping b
     /\ angularDamping bh = angularDamping b)
  /\ _restoreMotionAt held = teleportMs + 150
  /\ _restoreMotionType held = Some (motionType b)
  /\ (nowMs < teleportMs + 150 -> back = held)
  /\ (teleportMs + 150 <= nowMs ->
      exists b', bodyOf back = Some b'
        /\ motionType b' = motionType b
        /\ linearVelocity b' = Vec3_Zero /\ angularVelocity b' = Vec3_Zero
        /\ linearDamping b' = linearDamping b
        /\ angularDamping b' = angularDamping b
        /\ _restoreMotionAt back = 0 /\ _restoreMotionType back = None).
Proof.
  intros Hb HT. cbv zeta.
  destruct_item it; cbn in Hb; try discriminate. injection Hb as ->.
  unfold teleportItemBody, restoreItemMotionType, setMotionTypeUndefined. cbn.
  rewrite (truthy_nonzero _ HT). cbn [negb orb].
  split; [| split; [| split; [| split]]].
  - eexists. split; [reflexivity |]. unfold heldAt. cbn. repeat split.
  - reflexivity.
  - reflexivity.
  - intros Hlt.
    replace (JS.ltb nowMs (teleportMs + 150)) with true
      by (symmetry; apply JSFacts.ltb_true; exact Hlt).
    reflexivity.
  - intros Hge.
    replace (JS.ltb nowMs (teleportMs + 150)) with false
      by (symmetry; apply JSFacts.ltb_false; exact Hge).
    cbn. eexists. split; [reflexivity |]. cbn. repeat split.
Qed.

Lemma teleport_then_restore_witness :
  exists b', bodyOf (restoreItemMotionType 1200
                       (teleportItemBody (mkVec3 0 1.5 0) 1000 snugBox)) = Some b'
             /\ motionType b' = DYNAMIC.
Proof.
  destruct (teleport_then_restore (mkVec3 0 1.5 0) 1000 1200 snugBox restingBody)
    as (_ & _ & _ & _ & H).
  - reflexivity.
  - lra.
  - destruct H as (b' & Hb & Hm & _); [lra |].
    exists b'. split; [exact Hb | exact Hm].
Defined.

Lemma keepsMotionType_teleport m position nowMs it :
  keepsMotionType m it -> keepsMotionType m (teleportItemBody position nowMs it).
Proof.
  unfold keepsMotionType, motionTypeOf. intros [Hm Hr].
  destruct_item it; cbn in Hm; try discriminate.
  injection Hm as Hm.
  unfold teleportItemBody, setMotionTypeUndefined. cbn. rewrite Hm.
  split; reflexivity.
Qed.

Lemma keepsMotionType_restore m nowMs it :
  keepsMotionType m it -> keepsMotionType m (restoreItemMotionType nowMs it).
Proof.
  unfold keepsMotionType, motionTypeOf. intros [Hm Hr].
  destruct_item it; cbn in Hm; try discriminate.
  injection Hm as Hm. cbn in Hr.
  unfold restoreItemMotionType. cbn.
  destruct (JS.truthy irma) eqn:Et; cbn [negb orb].
  - destruct (JS.ltb nowMs irma); cbn.
    + rewrite Hm, Et. split; [reflexivity | exact Hr].
    + rewrite (Hr eq_refl). rewrite truthy_zero. split; [reflexivity | discriminate].
  - cbn. rewrite Hm, Et. split; [reflexivity | discriminate].
Qed.

Lemma keepsMotionType_ops m ops it :
  keepsMotionType m it -> keepsMotionType m (applyBodyOps ops it).
Proof.
  unfold applyBodyOps. revert it.
  induction ops as [| op ops IH]; intros it H; cbn; [exact H |].
  apply IH. destruct op; cbn;
    [apply keepsMotionType_teleport | apply keepsMotionType_restore]; exact H.
Qed.

(** X15.  Teleports never change a body's motion type.  For an item whose
    pending restore, if it has one, records the motion type its body has,
    every sequence of teleports and restores, in any order and at any
    times, leaves the body with that motion type: the KINEMATIC that
    [teleportItemBody] asks for is no member of the engine's enum, so the
    teleport records the body's type and leaves it in place, and the
    restore writes the same type back. *)
Theorem teleports_keep_motion_type
    (ops : list BodyOp) (it : Item) (b : Body) :
  bodyOf it = Some b ->
  (JS.truthy (_restoreMotionAt it) = true ->
   _restoreMotionType it = Some (motionType b)) ->
  motionTypeOf (applyBodyOps ops it) = Some (motionType b).
Proof.
  intros Hb Hr.
  apply (keepsMotionType_ops (motionType b) ops it).
  split; [| exact Hr].
  unfold motionTypeOf. rewrite Hb. reflexivity.
Qed.

Lemma teleports_keep_motion_type_witness :
  motionTypeOf
    (applyBodyOps [OpTeleport (mkVec3 0 1.5 0) 1000;
                   OpTeleport (mkVec3 0 1.5 0) 1016;
                   OpRestore 2000] snugBox)
  = Some DYNAMIC.
Proof.
  apply (teleports_keep_motion_type
           [OpTeleport (mkVec3 0 1.5 0) 1000;
            OpTeleport (mkVec3 0 1.5 0) 1016;
            OpRestore 2000] snugBox restingBody).
  - reflexivity.
  - change (_restoreMotionAt snugBox) with 0. rewrite truthy_zero. discriminate.
Defined.

(** * Pre-step pass: the main branch of the loop body *)

Lemma pre_cos_sin t nowMs dt moveX moveZ :
  pre_cos (preStepOf t nowMs dt moveX moveZ) * pre_cos (preStepOf t nowMs dt moveX moveZ)
  + pre_sin (preStepOf t nowMs dt moveX moveZ) * pre_sin (preStepOf t nowMs dt moveX moveZ)
  = 1.
Proof.
  cbn. pose proof (sin2_cos2 (rotation t)) as H. unfold Rsqr in H. lra.
Qed.

(** What the stages before the hard clamp leave alone. *)
Lemma restore_kept nowMs it :
  meshPos (restoreItemMotionType nowMs it) = meshPos it
  /\ size (restoreItemMotionType nowMs it) = size it
  /\ isFallen (restoreItemMotionType nowMs it) = isFallen it
  /\ createPhysicsAt (restoreItemMotionType nowMs it) = createPhysicsAt it
  /\ becomeDynamicAt (restoreItemMotionType nowMs it) = becomeDynamicAt it
  /\ (mesh (restoreItemMotionType nowMs it) = None <-> mesh it = None).
Proof.
  unfold restoreItemMotionType.
  destruct_item it; cbn [bodyOf bodyOfMesh mesh physicsAggregate body];
    try (repeat split; auto; fail).
  cbn [_restoreMotionAt _restoreMotionType].
  destruct (negb (JS.truthy irma) || JS.ltb nowMs irma); cbn;
    repeat split; auto; discriminate.
Qed.

Lemma dampingBoost_kept p hasBody it :
  meshPos (dampingBoost p hasBody it) = meshPos it
  /\ size (dampingBoost p hasBody it) = size it
  /\ (mesh (dampingBoost p hasBody it) = None <-> mesh it = None).
Proof.
  unfold dampingBoost.
  repeat match goal with
  | |- context [if ?c then _ else _] => destruct c
  end; destruct_item it; cbn; repeat split; auto; discriminate.
Qed.

Lemma lateralLock_kept p it :
  meshPos (lateralLock p it) = meshPos it
  /\ size (lateralLock p it) = size it
  /\ (mesh (lateralLock p it) = None <-> mesh it = None).
Proof.
  unfold lateralLock.
  repeat match goal with
  | |- context [if ?c then _ else _] => destruct c
  end; destruct_item it; cbn; repeat split; auto; discriminate.
Qed.

Lemma trackLocal_kept lx lz it :
  meshPos (trackLocal lx lz it) = meshPos it
  /\ size (trackLocal lx lz it) = size it
  /\ (mesh (trackLocal lx lz it) = None <-> mesh it = None).
Proof.
  unfold trackLocal. destruct_item it; cbn; repeat split; auto; discriminate.
Qed.

Lemma capVelocity_kept p it :
  meshPos (capVelocity p it) = meshPos it /\ size (capVelocity p it) = size it.
Proof.
  unfold capVelocity. destruct (negb (isFallen it)); [| auto].
  destruct (withBody_observed (fun b => capAngular (capLinearPre p b)) it)
    as (A & B & _). auto.
Qed.

Lemma fallenCheck_kept lx lz it :
  meshPos (fallenCheck lx lz it) = meshPos it
  /\ size (fallenCheck lx lz it) = size it
  /\ bodyOf (fallenCheck lx lz it) = bodyOf it.
Proof.
  unfold fallenCheck.
  repeat match goal with
  | |- context [if ?c then _ else _] => destruct c
  end; repeat split.
Qed.

(** The hard clamp, on an item that has a mesh and has not fallen. *)
Lemma hardClamp_cases p lx lz it :
  mesh it <> None -> isFallen it = false ->
  let maxLocalX := preMaxLocalX it in
  let minLocalZ := preMinLocalZ it in
  size (hardClamp p lx lz it) = size it
  /\ ((- maxLocalX <= lx <= maxLocalX /\ minLocalZ <= lz
       /\ hardClamp p lx lz it = it)
      \/ exists cx cz,
           meshPos (hardClamp p lx lz it)
           = mkVec3 (worldXOf (pre_truck p) (pre_cos p) (pre_sin p) cx cz)
                    (vy (meshPos it))
                    (worldZOf (pre_truck p) (pre_cos p) (pre_sin p) cx cz)
           /\ (0 <= maxLocalX -> - maxLocalX <= cx <= maxLocalX)
           /\ minLocalZ <= cz).
Proof.
  intros Hm Hf. cbv zeta. unfold hardClamp, preMaxLocalX, preMinLocalZ.
  cbv zeta. rewrite Hf. cbn [negb]. rewrite andb_true_r.
  set (mx := cargoWidth / 2 - halfExtentX 0.3 it - 0.05).
  set (mz := - cargoLength / 2 + halfExtentZ 0.3 it + 0.05).
  destruct (JS.ltb lx (- mx)) eqn:C1;
    [apply JSFacts.ltb_true in C1 | apply JSFacts.ltb_false in C1];
    (destruct (JS.gtb lx mx) eqn:C2;
      [apply JSFacts.gtb_true in C2 | apply JSFacts.gtb_false in C2]);
    (destruct (JS.ltb lz mz) eqn:C3;
      [apply JSFacts.ltb_true in C3 | apply JSFacts.ltb_false in C3]);
    cbn [orb];
    try (split; [reflexivity | left; repeat split; lra]);
    (split; [destruct_item it; reflexivity || (exfalso; apply Hm; reflexivity) |]);
    right;
    match goal with
    | |- context [worldXOf _ _ _ ?cx ?cz] => exists cx, cz
    end;
    (split; [destruct_item it; reflexivity || (exfalso; apply Hm; reflexivity) |]);
    split; intros; lra.
Qed.

Section PreStepFacts.

Variable newPhysicsAggregate : Mesh -> PhysicsParams -> PhysicsAggregate.

(** The loop body on an item of the main branch, stage by stage. *)
Lemma updateLoadedItem_main p it :
  inMainBranch it ->
  exists hasBody it3,
    let lx := preLocalX p it in
    let lz := preLocalZ p it in
    updateLoadedItem newPhysicsAggregate p it
    = fallenCheck lx lz (capVelocity p (hardClamp p lx lz it3))
    /\ meshPos it3 = meshPos it /\ size it3 = size it
    /\ isFallen it3 = false /\ mesh it3 <> None
    /\ it3 = trackLocal lx lz
               (lateralLock p
                  (dampingBoost p hasBody
                     (restoreItemMotionType (itemsNowMs p) it))).
Proof.
  intros (Hm & Hf & Hc & Hb).
  destruct (restore_kept (itemsNowMs p) it) as (P1 & S1 & F1 & C1 & B1 & M1).
  set (it1 := restoreItemMotionType (itemsNowMs p) it) in *.
  unfold updateLoadedItem.
  destruct (mesh it) as [m |] eqn:Em; [| contradiction].
  fold it1.
  rewrite (createPhysics_idle newPhysicsAggregate p it1) by congruence.
  set (hasBody := match bodyOfMesh m with Some _ => true | None => false end).
  rewrite (becomeDynamic_idle p hasBody it1) by congruence.
  rewrite (isSettling_idle it1) by congruence.
  destruct (dampingBoost_kept p hasBody it1) as (P2 & S2 & M2).
  pose proof (isFallen_dampingBoost p hasBody it1) as F2.
  set (it2 := dampingBoost p hasBody it1) in *.
  destruct (lateralLock_kept p it2) as (P3 & S3 & M3).
  pose proof (isFallen_lateralLock p it2) as F3.
  set (it2' := lateralLock p it2) in *.
  unfold preLocalX, preLocalZ. cbv zeta. rewrite P1.
  set (lx := localXOf (pre_truck p) (pre_cos p) (pre_sin p) (meshPos it)).
  set (lz := localZOf (pre_truck p) (pre_cos p) (pre_sin p) (meshPos it)).
  destruct (trackLocal_kept lx lz it2') as (P4 & S4 & M4).
  pose proof (isFallen_trackLocal lx lz it2') as F4.
  exists hasBody, (trackLocal lx lz it2').
  split; [reflexivity |].
  split; [congruence |]. split; [congruence |]. split; [congruence |].
  split; [| reflexivity].
  intros E. apply M4 in E. apply M3 in E. apply M2 in E. apply M1 in E.
  discriminate.
Qed.

(** X16.  The pre-step pass keeps cargo between the walls.  After the loop
    body has visited an item of the main branch (it has a mesh, has not
    fallen, and no creation or activation timer is running) that is narrow
    enough for the bed, the item's centre lies within the clamp limits —
    at least its half extent plus 0.05 m away from the side walls and the
    front wall — in the truck-local frame of the pass; an item already
    within the limits is not moved. *)
Theorem updateLoadedItem_keeps_items_inside
    (t : Truck) (nowMs dt moveX moveZ : R) (it : Item) :
  inMainBranch it ->
  0 <= preMaxLocalX it ->
  let p := preStepOf t nowMs dt moveX moveZ in
  let it' := updateLoadedItem newPhysicsAggregate p it in
  - preMaxLocalX it' <= preLocalX p it' <= preMaxLocalX it'
  /\ preMinLocalZ it' <= preLocalZ p it'
  /\ (- preMaxLocalX it <= preLocalX p it <= preMaxLocalX it ->
      preMinLocalZ it <= preLocalZ p it ->
      meshPos it' = meshPos it).
Proof.
  intros Hmain Hfit. cbv zeta.
  set (p := preStepOf t nowMs dt moveX moveZ).
  destruct (updateLoadedItem_main p it Hmain)
    as (hasBody & it3 & E & P3 & S3 & F3 & M3 & _).
  cbv zeta in E. rewrite E.
  set (lx := preLocalX p it) in *. set (lz := preLocalZ p it) in *.
  destruct (hardClamp_cases p lx lz it3 M3 F3) as (S4 & Hcases).
  cbv zeta in Hcases.
  destruct (capVelocity_kept p (hardClamp p lx lz it3)) as (P5 & S5).
  destruct (fallenCheck_kept lx lz (capVelocity p (hardClamp p lx lz it3)))
    as (P6 & S6 & _).
  set (it' := fallenCheck lx lz (capVelocity p (hardClamp p lx lz it3))) in *.
  assert (Hsize : size it' = size it) by congruence.
  assert (Hpos : meshPos it' = meshPos (hardClamp p lx lz it3)) by congruence.
  assert (Emax : preMaxLocalX it' = preMaxLocalX it)
    by (unfold preMaxLocalX; rewrite (halfExtentX_size 0.3 it it' Hsize); reflexivity).
  assert (Emin : preMinLocalZ it' = preMinLocalZ it)
    by (unfold preMinLocalZ; rewrite (halfExtentZ_size 0.3 it it' Hsize); reflexivity).
  assert (Emax3 : preMaxLocalX it3 = preMaxLocalX it)
    by (unfold preMaxLocalX; rewrite (halfExtentX_size 0.3 it it3 S3); reflexivity).
  assert (Emin3 : preMinLocalZ it3 = preMinLocalZ it)
    by (unfold preMinLocalZ; rewrite (halfExtentZ_size 0.3 it it3 S3); reflexivity).
  rewrite Emax3, Emin3 in Hcases.
  rewrite Emax, Emin.
  unfold preLocalX at 1 2, preLocalZ at 1. rewrite Hpos.
  destruct Hcases as [(Hx & Hz & Esame) | (cx & cz & Epos & Hx & Hz)].
  - rewrite Esame, P3. fold (preLocalX p it) (preLocalZ p it). fold lx lz.
    split; [exact Hx | split; [exact Hz | reflexivity]].
  - rewrite Epos.
    destruct (local_of_world (pre_truck p) (pre_cos p) (pre_sin p) cx cz
                (vy (meshPos it3)) (pre_cos_sin t nowMs dt moveX moveZ))
      as (Lx & Lz).
    rewrite Lx, Lz.
    split; [apply Hx; exact Hfit | split; [exact Hz |]].
    intros Hin Hinz.
    (* inside already: the clamp left the item alone *)
    unfold hardClamp in Epos. cbv zeta in Epos.
    fold (preMaxLocalX it3) (preMinLocalZ it3) in Epos.
    rewrite Emax3, Emin3, F3 in Epos.
    replace (JS.ltb lx (- preMaxLocalX it)) with false in Epos
      by (symmetry; apply JSFacts.ltb_false; lra).
    replace (JS.gtb lx (preMaxLocalX it)) with false in Epos
      by (symmetry; apply JSFacts.gtb_false; lra).
    replace (JS.ltb lz (preMinLocalZ it)) with false in Epos
      by (symmetry; apply JSFacts.ltb_false; lra).
    cbn [orb andb] in Epos. rewrite <- Epos. exact P3.
Qed.

End PreStepFacts.

(** * Pre-step pass: velocity ceilings *)

Lemma capLinearPre_bounds p b :
  relativeSpeedPre p (capLinearPre p b) <= MAX_REL_LINEAR_VELOCITY
  /\ Rabs (vy (linearVelocity (capLinearPre p b))) <= MAX_VERTICAL_VELOCITY
  /\ angularVelocity (capLinearPre p b) = angularVelocity b.
Proof.
  unfold capLinearPre, relativeSpeedPre, MAX_REL_LINEAR_VELOCITY,
    MAX_VERTICAL_VELOCITY.
  set (relX := vx (linearVelocity b) - pre_truckVelX p).
  set (relZ := vz (linearVelocity b) - pre_truckVelZ p).
  cbv zeta.
  destruct (JS.gtb (sqrt (relX * relX + relZ * relZ)) 8.0) eqn:Hover;
    [apply JSFacts.gtb_true in Hover | apply JSFacts.gtb_false in Hover].
  - cbn [set_linearVelocity linearVelocity angularVelocity vx vy vz].
    split; [| split; [| reflexivity]].
    + apply sqrt_le_bound; [lra |].
      replace (pre_truckVelX p + relX * (8.0 / sqrt (relX * relX + relZ * relZ))
               - pre_truckVelX p)
        with (relX * (8.0 / sqrt (relX * relX + relZ * relZ))) by ring.
      replace (pre_truckVelZ p + relZ * (8.0 / sqrt (relX * relX + relZ * relZ))
               - pre_truckVelZ p)
        with (relZ * (8.0 / sqrt (relX * relX + relZ * relZ))) by ring.
      rewrite (scaled_planar relX relZ 8.0) by lra. lra.
    + apply Rabs_le. minmax_cases; lra.
  - destruct (JS.gtb (Rabs (vy (linearVelocity b))) 4.0) eqn:Hvert;
      [apply JSFacts.gtb_true in Hvert | apply JSFacts.gtb_false in Hvert];
      cbn [set_linearVelocity linearVelocity angularVelocity vx vy vz];
      (split; [| split; [| reflexivity]]).
    + fold relX relZ. lra.
    + rewrite sign_magnitude by lra. lra.
    + fold relX relZ. lra.
    + lra.
Qed.

(** Stages of the main branch never take a body away. *)
Lemma dampingBoost_body p hasBody it b :
  bodyOf it = Some b -> exists b', bodyOf (dampingBoost p hasBody it) = Some b'.
Proof.
  intros Hb. destruct_item it; cbn in Hb; try discriminate.
  unfold dampingBoost.
  repeat match goal with
  | |- context [if ?c then _ else _] => destruct c
  end; cbn; eexists; reflexivity.
Qed.

Lemma lateralLock_body p it b :
  bodyOf it = Some b -> exists b', bodyOf (lateralLock p it) = Some b'.
Proof.
  intros Hb. destruct_item it; cbn in Hb; try discriminate.
  unfold lateralLock.
  repeat match goal with
  | |- context [if ?c then _ else _] => destruct c
  end; cbn; eexists; reflexivity.
Qed.

Lemma trackLocal_body lx lz it : bodyOf (trackLocal lx lz it) = bodyOf it.
Proof. destruct_item it; reflexivity. Qed.

Lemma hardClamp_body p lx lz it b :
  bodyOf it = Some b -> exists b', bodyOf (hardClamp p lx lz it) = Some b'.
Proof.
  intros Hb. destruct_item it; cbn in Hb; try discriminate.
  unfold hardClamp. cbv zeta.
  match goal with
  | |- context [if ?c then _ else _] => destruct c
  end; cbn; eexists; reflexivity.
Qed.

Section PreStepVelocityFacts.

Variable newPhysicsAggregate : Mesh -> PhysicsParams -> PhysicsAggregate.

(** X17.  The pre-step pass ends with the velocity cap: an item of the
    main branch that has a body still has one after the loop body, with an
    angular speed of at most 3 rad/s, a vertical speed of at most 4 m/s and
    a horizontal speed relative to the truck of at most 8 m/s — also when
    the hard clamp has just teleported it. *)
Theorem updateLoadedItem_caps_velocity (p : PreStep) (it : Item) (b0 : Body) :
  inMainBranch it ->
  bodyOf it = Some b0 ->
  exists b,
    bodyOf (updateLoadedItem newPhysicsAggregate p it) = Some b
    /\ angularSpeed b <= MAX_ANGULAR_VELOCITY
    /\ Rabs (vy (linearVelocity b)) <= MAX_VERTICAL_VELOCITY
    /\ relativeSpeedPre p b <= MAX_REL_LINEAR_VELOCITY.
Proof.
  intros Hmain Hb0.
  destruct (updateLoadedItem_main newPhysicsAggregate p it Hmain)
    as (hasBody & it3 & E & _ & _ & F3 & _ & E3).
  cbv zeta in E, E3. rewrite E.
  set (lx := preLocalX p it) in *. set (lz := preLocalZ p it) in *.
  assert (Hb3 : exists b3, bodyOf it3 = Some b3).
  { rewrite E3, trackLocal_body.
    destruct (restore_observed (itemsNowMs p) it) as (_ & _ & Hr & _).
    destruct (Hr b0 Hb0) as [b1 Hb1].
    destruct (dampingBoost_body p hasBody _ b1 Hb1) as [b2 Hb2].
    exact (lateralLock_body p _ b2 Hb2). }
  destruct Hb3 as [b3 Hb3].
  destruct (hardClamp_body p lx lz it3 b3 Hb3) as [b4 Hb4].
  destruct (fallenCheck_kept lx lz (capVelocity p (hardClamp p lx lz it3)))
    as (_ & _ & B6).
  rewrite B6.
  unfold capVelocity.
  rewrite isFallen_hardClamp, F3. cbn [negb].
  destruct (withBody_observed (fun b => capAngular (capLinearPre p b))
              (hardClamp p lx lz it3)) as (_ & _ & B5).
  rewrite B5, Hb4. cbn.
  eexists. split; [reflexivity |].
  destruct (capAngular_bounds (capLinearPre p b4)) as (Ha & Hl).
  destruct (capLinearPre_bounds p b4) as (Hr & Hv & _).
  unfold relativeSpeedPre in *. rewrite Hl. auto.
Qed.

End PreStepVelocityFacts.

Lemma snugBox_inMainBranch : inMainBranch snugBox.
Proof. repeat split. discriminate. Qed.

Lemma updateLoadedItem_keeps_items_inside_witness :
  preMinLocalZ (updateLoadedItem (fun _ _ => mkPhysicsAggregate None)
                  (preStepOf loadedTruck 0 0.016 0 0) snugBox)
  <= preLocalZ (preStepOf loadedTruck 0 0.016 0 0)
       (updateLoadedItem (fun _ _ => mkPhysicsAggregate None)
          (preStepOf loadedTruck 0 0.016 0 0) snugBox).
Proof.
  refine (proj1 (proj2 (updateLoadedItem_keeps_items_inside
                          (fun _ _ => mkPhysicsAggregate None)
                          loadedTruck 0 0.016 0 0 snugBox _ _))).
  - exact snugBox_inMainBranch.
  - unfold preMaxLocalX, halfExtentX, cargoWidth. cbn. lra.
Defined.

Lemma updateLoadedItem_caps_velocity_witness :
  exists b,
    bodyOf (updateLoadedItem (fun _ _ => mkPhysicsAggregate None)
              (preStepOf fastTruck 0 0.016 0 (-0.32)) escapedBox) = Some b
    /\ angularSpeed b <= MAX_ANGULAR_VELOCITY
    /\ Rabs (vy (linearVelocity b)) <= MAX_VERTICAL_VELOCITY
    /\ relativeSpeedPre (preStepOf fastTruck 0 0.016 0 (-0.32)) b
       <= MAX_REL_LINEAR_VELOCITY.
Proof.
  apply (updateLoadedItem_caps_velocity (fun _ _ => mkPhysicsAggregate None)
           (preStepOf fastTruck 0 0.016 0 (-0.32)) escapedBox ridingBody).
  - repeat split. discriminate.
  - reflexivity.
Defined.

(** * The placement volume *)

Lemma takeMin_fold (l : list R) (m : option R) :
  (m <> None \/ l <> []) ->
  exists v, fold_left takeMin l m = Some v
    /\ (forall w, In w l -> v <= w)
    /\ (forall u, m = Some u -> v <= u)
    /\ (In v l \/ m = Some v).
Proof.
  revert m. induction l as [| a l IH]; intros m H.
  - destruct m as [u |]; [| destruct H; contradiction].
    exists u. cbn. repeat split; auto; try contradiction.
    intros u' E. injection E as <-. lra.
  - cbn [fold_left].
    destruct (IH (takeMin m a)) as (v & E & Hall & Hm & Hin).
    { left. unfold takeMin. destruct m; [destruct (JS.ltb a r) |]; discriminate. }
    exists v. split; [exact E |].
    assert (Ha : v <= a /\ (forall u, m = Some u -> v <= u)).
    { unfold takeMin in Hm. destruct m as [u |].
      - destruct (JS.ltb a u) eqn:C;
          [apply JSFacts.ltb_true in C | apply JSFacts.ltb_false in C];
          specialize (Hm _ eq_refl); split; try lra;
          intros u' E'; injection E' as <-; lra.
      - specialize (Hm _ eq_refl). split; [lra | discriminate]. }
    destruct Ha as [Ha Hu].
    split; [| split; [exact Hu |]].
    + intros w [<- | Hw]; [exact Ha | apply Hall; exact Hw].
    + destruct Hin as [Hin | Hin]; [left; right; exact Hin |].
      unfold takeMin in Hin. destruct m as [u |].
      * destruct (JS.ltb a u); injection Hin as <-; [left; left | right]; reflexivity.
      * injection Hin as <-. left. left. reflexivity.
Qed.

Lemma takeMax_fold (l : list R) (m : option R) :
  (m <> None \/ l <> []) ->
  exists v, fold_left takeMax l m = Some v
    /\ (forall w, In w l -> w <= v)
    /\ (forall u, m = Some u -> u <= v)
    /\ (In v l \/ m = Some v).
Proof.
  revert m. induction l as [| a l IH]; intros m H.
  - destruct m as [u |]; [| destruct H; contradiction].
    exists u. cbn. repeat split; auto; try contradiction.
    intros u' E. injection E as <-. lra.
  - cbn [fold_left].
    destruct (IH (takeMax m a)) as (v & E & Hall & Hm & Hin).
    { left. unfold takeMax. destruct m; [destruct (JS.gtb a r) |]; discriminate. }
    exists v. split; [exact E |].
    assert (Ha : a <= v /\ (forall u, m = Some u -> u <= v)).
    { unfold takeMax in Hm. destruct m as [u |].
      - destruct (JS.gtb a u) eqn:C;
          [apply JSFacts.gtb_true in C | apply JSFacts.gtb_false in C];
          specialize (Hm _ eq_refl); split; try lra;
          intros u' E'; injection E' as <-; lra.
      - specialize (Hm _ eq_refl). split; [lra | discriminate]. }
    destruct Ha as [Ha Hu].
    split; [| split; [exact Hu |]].
    + intros w [<- | Hw]; [exact Ha | apply Hall; exact Hw].
    + destruct Hin as [Hin | Hin]; [left; right; exact Hin |].
      unfold takeMax in Hin. destruct m as [u |].
      * destruct (JS.gtb a u); injection Hin as <-; [left; left | right]; reflexivity.
      * injection Hin as <-. left. left. reflexivity.
Qed.

(** The four running bounds are independent folds. *)
Lemma cornerBounds_folds t l :
  let c := cos (- rotation t) in
  let sn := sin (- rotation t) in
  let xs := map (fun corner => worldXOf t c sn (fst corner) (snd corner)) l in
  let zs := map (fun corner => worldZOf t c sn (fst corner) (snd corner)) l in
  cornerBounds t l
  = (fold_left takeMin xs None, fold_left takeMax xs None,
     fold_left takeMin zs None, fold_left takeMax zs None).
Proof.
  cbv zeta. unfold cornerBounds.
  generalize (@None R) at 1 5. generalize (@None R) at 1 4.
  generalize (@None R) at 1 3. generalize (@None R) at 1 2.
  induction l as [| a l IH]; intros a1 a2 a3 a4; [reflexivity |].
  cbn [fold_left map]. apply IH.
Qed.

Lemma corner_below_x t c sn lx lz hW hL :
  Rabs lx <= hW -> Rabs lz <= hL ->
  exists corner,
    In corner [(- hW, - hL); (hW, - hL); (- hW, hL); (hW, hL)]
    /\ worldXOf t c sn (fst corner) (snd corner) <= worldXOf t c sn lx lz.
Proof.
  intros Hx Hz. apply Rabs_le_between in Hx. apply Rabs_le_between in Hz.
  unfold worldXOf.
  destruct (Rle_dec 0 c); destruct (Rle_dec 0 sn).
  - exists (- hW, hL). split; [cbn; auto |]. cbn [fst snd]. nra.
  - exists (- hW, - hL). split; [cbn; auto |]. cbn [fst snd]. nra.
  - exists (hW, hL). split; [cbn; auto 6 |]. cbn [fst snd]. nra.
  - exists (hW, - hL). split; [cbn; auto |]. cbn [fst snd]. nra.
Qed.

Lemma corner_above_x t c sn lx lz hW hL :
  Rabs lx <= hW -> Rabs lz <= hL ->
  exists corner,
    In corner [(- hW, - hL); (hW, - hL); (- hW, hL); (hW, hL)]
    /\ worldXOf t c sn lx lz <= worldXOf t c sn (fst corner) (snd corner).
Proof.
  intros Hx Hz. apply Rabs_le_between in Hx. apply Rabs_le_between in Hz.
  unfold worldXOf.
  destruct (Rle_dec 0 c); destruct (Rle_dec 0 sn).
  - exists (hW, - hL). split; [cbn; auto |]. cbn [fst snd]. nra.
  - exists (hW, hL). split; [cbn; auto 6 |]. cbn [fst snd]. nra.
  - exists (- hW, - hL). split; [cbn; auto |]. cbn [fst snd]. nra.
  - exists (- hW, hL). split; [cbn; auto |]. cbn [fst snd]. nra.
Qed.

Lemma corner_below_z t c sn lx lz hW hL :
  Rabs lx <= hW -> Rabs lz <= hL ->
  exists corner,
    In corner [(- hW, - hL); (hW, - hL); (- hW, hL); (hW, hL)]
    /\ worldZOf t c sn (fst corner) (snd corner) <= worldZOf t c sn lx lz.
Proof.
  intros Hx Hz. apply Rabs_le_between in Hx. apply Rabs_le_between in Hz.
  unfold worldZOf.
  destruct (Rle_dec 0 c); destruct (Rle_dec 0 sn).
  - exists (- hW, - hL). split; [cbn; auto |]. cbn [fst snd]. nra.
  - exists (hW, - hL). split; [cbn; auto |]. cbn [fst snd]. nra.
  - exists (- hW, hL). split; [cbn; auto |]. cbn [fst snd]. nra.
  - exists (hW, hL). split; [cbn; auto 6 |]. cbn [fst snd]. nra.
Qed.

Lemma corner_above_z t c sn lx lz hW hL :
  Rabs lx <= hW -> Rabs lz <= hL ->
  exists corner,
    In corner [(- hW, - hL); (hW, - hL); (- hW, hL); (hW, hL)]
    /\ worldZOf t c sn lx lz <= worldZOf t c sn (fst corner) (snd corner).
Proof.
  intros Hx Hz. apply Rabs_le_between in Hx. apply Rabs_le_between in Hz.
  unfold worldZOf.
  destruct (Rle_dec 0 c); destruct (Rle_dec 0 sn).
  - exists (hW, hL). split; [cbn; auto 6 |]. cbn [fst snd]. nra.
  - exists (- hW, hL). split; [cbn; auto |]. cbn [fst snd]. nra.
  - exists (hW, - hL). split; [cbn; auto |]. cbn [fst snd]. nra.
  - exists (- hW, - hL). split; [cbn; auto |]. cbn [fst snd]. nra.
Qed.

(** X18.  [updateCargoBounds] computes the tight axis-aligned box around
    the bed rectangle shrunk by 0.15 m: each of its four horizontal bounds
    is the coordinate of one of the rectangle's corners, and every point of
    the rectangle, carried to world space at the truck's pose, at or above
    the floor top — however high — passes [isInsideCargo]; the ceiling
    [maxY] is not part of that test. *)
Theorem updateCargoBounds_contains_bed (t : Truck) (lx lz y : R) :
  Rabs lx <= cargoWidth / 2 - 0.15 ->
  Rabs lz <= cargoLength / 2 - 0.15 ->
  floorTopY <= y ->
  let c := cos (- rotation t) in
  let sn := sin (- rotation t) in
  let b := updateCargoBounds t in
  isInsideCargo b (mkVec3 (worldXOf t c sn lx lz) y (worldZOf t c sn lx lz)) = true
  /\ In (cb_minX b)
        (map (fun corner => worldXOf t c sn (fst corner) (snd corner)) cargoCorners)
  /\ In (cb_maxX b)
        (map (fun corner => worldXOf t c sn (fst corner) (snd corner)) cargoCorners)
  /\ In (cb_minZ b)
        (map (fun corner => worldZOf t c sn (fst corner) (snd corner)) cargoCorners)
  /\ In (cb_maxZ b)
        (map (fun corner => worldZOf t c sn (fst corner) (snd corner)) cargoCorners).
Proof.
  intros Hx Hz Hy. cbv zeta.
  unfold updateCargoBounds.
  pose proof (cornerBounds_folds t cargoCorners) as E. cbv zeta in E. rewrite E.
  set (c := cos (- rotation t)) in *. set (sn := sin (- rotation t)) in *.
  set (xs := map (fun corner => worldXOf t c sn (fst corner) (snd corner)) cargoCorners).
  set (zs := map (fun corner => worldZOf t c sn (fst corner) (snd corner)) cargoCorners).
  assert (Nx : @None R <> None \/ xs <> []) by (right; discriminate).
  assert (Nz : @None R <> None \/ zs <> []) by (right; discriminate).
  destruct (takeMin_fold xs None Nx) as (x0 & -> & Hx0 & _ & Ix0).
  destruct (takeMax_fold xs None Nx) as (x1 & -> & Hx1 & _ & Ix1).
  destruct (takeMin_fold zs None Nz) as (z0 & -> & Hz0 & _ & Iz0).
  destruct (takeMax_fold zs None Nz) as (z1 & -> & Hz1 & _ & Iz1).
  cbn [boundValue cb_minX cb_maxX cb_minZ cb_maxZ].
  assert (Hin : forall corner,
             In corner [(- (cargoWidth / 2 - 0.15), - (cargoLength / 2 - 0.15));
                        (cargoWidth / 2 - 0.15, - (cargoLength / 2 - 0.15));
                        (- (cargoWidth / 2 - 0.15), cargoLength / 2 - 0.15);
                        (cargoWidth / 2 - 0.15, cargoLength / 2 - 0.15)] ->
             In (worldXOf t c sn (fst corner) (snd corner)) xs
             /\ In (worldZOf t c sn (fst corner) (snd corner)) zs).
  { intros corner Hc. split.
    - apply (in_map (fun corner => worldXOf t c sn (fst corner) (snd corner))
               cargoCorners corner Hc).
    - apply (in_map (fun corner => worldZOf t c sn (fst corner) (snd corner))
               cargoCorners corner Hc). }
  split.
  - unfold isInsideCargo. cbn [vx vy vz cb_minX cb_maxX cb_minY cb_minZ cb_maxZ].
    destruct (corner_below_x t c sn lx lz _ _ Hx Hz) as (k1 & K1 & L1).
    destruct (corner_above_x t c sn lx lz _ _ Hx Hz) as (k2 & K2 & L2).
    destruct (corner_below_z t c sn lx lz _ _ Hx Hz) as (k3 & K3 & L3).
    destruct (corner_above_z t c sn lx lz _ _ Hx Hz) as (k4 & K4 & L4).
    pose proof (Hx0 _ (proj1 (Hin k1 K1))).
    pose proof (Hx1 _ (proj1 (Hin k2 K2))).
    pose proof (Hz0 _ (proj2 (Hin k3 K3))).
    pose proof (Hz1 _ (proj2 (Hin k4 K4))).
    repeat (apply andb_true_iff; split);
      first [apply JSFacts.geb_true | apply JSFacts.leb_true]; lra.
  - repeat split;
      match goal with
      | H : In ?v ?l \/ None = Some ?v |- In ?v ?l =>
          destruct H as [H | H]; [exact H | discriminate]
      end.
Qed.

Lemma updateCargoBounds_contains_bed_witness :
  isInsideCargo (updateCargoBounds loadedTruck)
    (mkVec3 (worldXOf loadedTruck (cos (- rotation loadedTruck))
               (sin (- rotation loadedTruck)) 1 (-2))
            9
            (worldZOf loadedTruck (cos (- rotation loadedTruck))
               (sin (- rotation loadedTruck)) 1 (-2))) = true.
Proof.
  refine (proj1 (updateCargoBounds_contains_bed loadedTruck 1 (-2) 9 _ _ _)).
  - unfold cargoWidth. rewrite Rabs_pos_eq; lra.
  - unfold cargoLength. rewrite Rabs_left1; lra.
  - unfold floorTopY. lra.
Defined.

(** * Loading an item and riding along *)






(** * Touch joystick *)

Lemma updateStick_unit_disc rect clientX clientY :
  let x := fst (updateStick rect clientX clientY) in
  let y := snd (updateStick rect clientX clientY) in
  x * x + y * y <= 1.
Proof.
  cbv zeta. unfold updateStick, maxDistance. cbv zeta.
  set (dx := clientX - (rect_left rect + rect_width rect / 2)).
  set (dy := clientY - (rect_top rect + rect_height rect / 2)).
  assert (Hq : 0 <= dx * dx + dy * dy) by nra.
  pose proof (sqrt_sqrt _ Hq) as Hd.
  pose proof (sqrt_pos (dx * dx + dy * dy)) as Hd0.
  set (d := sqrt (dx * dx + dy * dy)) in *.
  destruct (JS.gtb d 35) eqn:C;
    [apply JSFacts.gtb_true in C | apply JSFacts.gtb_false in C]; cbn [fst snd].
  - replace (dx / d * 35 / 35 * (dx / d * 35 / 35) + dy / d * 35 / 35 * (dy / d * 35 / 35))
      with ((dx * dx + dy * dy) / (d * d)) by (field; lra).
    rewrite <- Hd. right. field. lra.
  - replace (dx / 35 * (dx / 35) + dy / 35 * (dy / 35))
      with ((dx * dx + dy * dy) / 1225) by field.
    rewrite <- Hd. apply Rmult_le_reg_r with 1225; [lra |].
    replace (d * d / 1225 * 1225) with (d * d) by field. nra.
Qed.

(** X20.  The move joystick.  The normalised stick position always lies in
    the unit disc; the keys it sets never hold W together with S nor A
    together with D, and never touch the brake; a touch within 10.5 px of
    the centre on both axes is in the dead zone and holds no key; releasing
    the stick releases all four keys. *)
Theorem joystick_sets_consistent_keys
    (rect : Rect) (clientX clientY : R) (k : Keys) :
  let x := fst (updateStick rect clientX clientY) in
  let y := snd (updateStick rect clientX clientY) in
  let k' := touchMove rect clientX clientY k in
  x * x + y * y <= 1
  /\ key_w k' && key_s k' = false
  /\ key_a k' && key_d k' = false
  /\ key_space k' = key_space k
  /\ (Rabs (clientX - (rect_left rect + rect_width rect / 2)) <= 10.5 ->
      Rabs (clientY - (rect_top rect + rect_height rect / 2)) <= 10.5 ->
      k' = resetStick k)
  /\ resetStick k = mkKeys false false false false (key_space k).
Proof.
  cbv zeta.
  split; [apply updateStick_unit_disc |].
  unfold touchMove, onMove. cbn [key_w key_s key_a key_d key_space].
  split; [js_cases; try reflexivity; lra |].
  split; [js_cases; try reflexivity; lra |].
  split; [reflexivity |].
  assert (Hreset : resetStick k = mkKeys false false false false (key_space k)).
  { unfold resetStick, onMove. js_decide. reflexivity. }
  split; [| exact Hreset].
  intros Hx Hy. rewrite Hreset.
  unfold updateStick, maxDistance. cbv zeta.
  set (dx := clientX - (rect_left rect + rect_width rect / 2)) in *.
  set (dy := clientY - (rect_top rect + rect_height rect / 2)) in *.
  apply Rabs_le_between in Hx. apply Rabs_le_between in Hy.
  assert (Hd : sqrt (dx * dx + dy * dy) <= 35).
  { apply sqrt_le_bound; [lra | nra]. }
  replace (JS.gtb (sqrt (dx * dx + dy * dy)) 35) with false
    by (symmetry; apply JSFacts.gtb_false; exact Hd).
  cbn [fst snd].
  replace (JS.ltb (dy / 35) (-0.3)) with false
    by (symmetry; apply JSFacts.ltb_false; lra).
  replace (JS.ltb (dx / 35) (-0.3)) with false
    by (symmetry; apply JSFacts.ltb_false; lra).
  replace (JS.gtb (dy / 35) 0.3) with false
    by (symmetry; apply JSFacts.gtb_false; lra).
  replace (JS.gtb (dx / 35) 0.3) with false
    by (symmetry; apply JSFacts.gtb_false; lra).
  reflexivity.
Qed.

(** * Pickup and destination *)

Lemma round_near a : a - / 2 < IZR (JS.round a) <= a + / 2.
Proof.
  unfold JS.round. destruct (base_Int_part (a + / 2)) as [H1 H2]. lra.
Qed.

Lemma snapToQuadrant_spec raw :
  (exists k : Z, snapToQuadrant raw = 50 * IZR k + 25)
  /\ Rabs (snapToQuadrant raw - raw) <= 25.
Proof.
  unfold snapToQuadrant. cbv zeta.
  pose proof (round_near (raw / 50)) as Hr.
  set (k := JS.round (raw / 50)) in *.
  assert (Hk : raw - 25 < IZR k * 50 <= raw + 25) by lra.
  destruct (JS.geb raw (IZR k * 50)) eqn:C;
    [apply JSFacts.geb_true in C | apply JSFacts.geb_false in C].
  - split; [exists k; ring |]. apply Rabs_le. lra.
  - split; [exists (k - 1)%Z; rewrite minus_IZR; ring |]. apply Rabs_le. lra.
Qed.

(** X21.  Pickup and destination are always put on a quadrant centre: for
    every angle drawn (and every level) each coordinate is an odd multiple
    of 25 — never a tile centre, never 0 — and lies within 25 m of the raw
    point on the circle. *)
Theorem generated_places_are_quadrant_centres (currentLevel angle : R) :
  let pickup := generatePickup angle in
  let dest := generateDestination currentLevel angle in
  (exists kx kz : Z,
      fst pickup = 50 * IZR kx + 25 /\ snd pickup = 50 * IZR kz + 25)
  /\ Rabs (fst pickup - cos angle * 100) <= 25
  /\ Rabs (snd pickup - sin angle * 100) <= 25
  /\ (exists kx kz : Z,
        fst dest = 50 * IZR kx + 25 /\ snd dest = 50 * IZR kz + 25)
  /\ Rabs (fst dest - cos angle * (200 + currentLevel * 150)) <= 25
  /\ Rabs (snd dest - sin angle * (200 + currentLevel * 150)) <= 25
  /\ fst pickup <> 0 /\ snd pickup <> 0 /\ fst dest <> 0 /\ snd dest <> 0.
Proof.
  cbv zeta. unfold generatePickup, generateDestination. cbn [fst snd].
  destruct (snapToQuadrant_spec (cos angle * 100)) as ((k1 & E1) & B1).
  destruct (snapToQuadrant_spec (sin angle * 100)) as ((k2 & E2) & B2).
  destruct (snapToQuadrant_spec (cos angle * (200 + currentLevel * 150)))
    as ((k3 & E3) & B3).
  destruct (snapToQuadrant_spec (sin angle * (200 + currentLevel * 150)))
    as ((k4 & E4) & B4).
  assert (Hodd : forall k : Z, 50 * IZR k + 25 <> 0).
  { intros k H.
    assert (H' : IZR (2 * k + 1) = 0) by (rewrite plus_IZR, mult_IZR; lra).
    apply eq_IZR_R0 in H'. lia. }
  split; [exists k1, k2; auto |].
  split; [exact B1 |]. split; [exact B2 |].
  split; [exists k3, k4; auto |].
  split; [exact B3 |]. split; [exact B4 |].
  rewrite E1, E2, E3, E4. repeat split; apply Hodd.
Qed.

Lemma generated_places_cases (currentLevel pickupAngle destAngle : R) :
  Rabs (fst (generatePickup pickupAngle) - cos pickupAngle * 100) <= 25
  /\ Rabs (snd (generatePickup pickupAngle) - sin pickupAngle * 100) <= 25
  /\ Rabs (fst (generateDestination currentLevel destAngle)
           - cos destAngle * (200 + currentLevel * 150)) <= 25
  /\ Rabs (snd (generateDestination currentLevel destAngle)
           - sin destAngle * (200 + currentLevel * 150)) <= 25.
Proof.
  unfold generatePickup, generateDestination. cbn [fst snd].
  repeat split; apply snapToQuadrant_spec.
Qed.

Lemma far_from_origin (x z rx rz radius bound : R) :
  Rabs (x - rx) <= 25 -> Rabs (z - rz) <= 25 ->
  radius * radius <= rx * rx + rz * rz ->
  0 <= bound -> 2 * (bound * bound) + 2500 < radius * radius ->
  bound < sqrt ((x - 0) * (x - 0) + (z - 0) * (z - 0)).
Proof.
  intros Hx Hz Hr Hb Hfar.
  apply Rabs_le_between in Hx. apply Rabs_le_between in Hz.
  apply sqrt_gt_bound; [exact Hb |].
  assert (H1 : rx * rx <= 2 * (x * x) + 2 * ((x - rx) * (x - rx))).
  { pose proof (Rle_0_sqr (2 * x - rx)) as Hs. unfold Rsqr in Hs. lra. }
  assert (H2 : rz * rz <= 2 * (z * z) + 2 * ((z - rz) * (z - rz))).
  { pose proof (Rle_0_sqr (2 * z - rz)) as Hs. unfold Rsqr in Hs. lra. }
  assert (H3 : (x - rx) * (x - rx) <= 625) by nra.
  assert (H4 : (z - rz) * (z - rz) <= 625) by nra.
  nra.
Qed.

(** X22.  A round cannot start at the pickup or at the destination: for
    every angle and every level from 0 up, a truck standing at the origin —
    where [startAtLevel] puts it — is outside the pickup radius of the
    generated pickup and outside the destination radius of the generated
    destination, so [checkDestinationArrival] neither latches nor brakes. *)
Theorem start_is_away_from_pickup_and_destination
    (currentLevel pickupAngle destAngle : R) (t : Truck) (allPlaced : bool) :
  0 <= currentLevel ->
  position_x t = 0 -> position_z t = 0 ->
  let d := {| hasArrivedAtDestination := false;
              destination := generateDestination currentLevel destAngle;
              completions := 0 |} in
  checkPickupProximity (generatePickup pickupAngle) t = false
  /\ checkDestinationArrival d allPlaced t = (d, t).
Proof.
  intros Hl Hx Hz. cbv zeta.
  destruct (generated_places_cases currentLevel pickupAngle destAngle)
    as (P1 & P2 & D1 & D2).
  split.
  - unfold checkPickupProximity, pickupRadius. cbv zeta. rewrite Hx, Hz.
    apply JSFacts.leb_false.
    apply (far_from_origin _ _ (cos pickupAngle * 100) (sin pickupAngle * 100) 100);
      try assumption; try lra.
    pose proof (sin2_cos2 pickupAngle) as Hsc. unfold Rsqr in Hsc. nra.
  - unfold checkDestinationArrival, destinationRadius.
    cbn [hasArrivedAtDestination destination]. rewrite Hx, Hz.
    replace (JS.leb _ 15) with false; [reflexivity |].
    symmetry. apply JSFacts.leb_false.
    apply (far_from_origin _ _ (cos destAngle * (200 + currentLevel * 150))
             (sin destAngle * (200 + currentLevel * 150)) 200);
      try assumption; try lra.
    pose proof (sin2_cos2 destAngle) as Hsc. unfold Rsqr in Hsc.
    replace (cos destAngle * (200 + currentLevel * 150)
               * (cos destAngle * (200 + currentLevel * 150))
             + sin destAngle * (200 + currentLevel * 150)
               * (sin destAngle * (200 + currentLevel * 150)))
      with ((sin destAngle * sin destAngle + cos destAngle * cos destAngle)
            * ((200 + currentLevel * 150) * (200 + currentLevel * 150))) by ring.
    rewrite Hsc. nra.
Qed.

Lemma start_is_away_from_pickup_and_destination_witness :
  checkPickupProximity (generatePickup 1) (newTruck None) = false.
Proof.
  refine (proj1 (start_is_away_from_pickup_and_destination 1 1 2 (newTruck None)
                   true _ _ _)).
  - lra.
  - reflexivity.
  - reflexivity.
Defined.

(** * Arrival at the destination *)

Section ArrivalFacts.

Variable intersectsMesh : RootNode -> TruckMesh -> Obstacle -> bool.
Variable newPhysicsAggregate : Mesh -> PhysicsParams -> PhysicsAggregate.

(** X23.  Arrival fires once and brakes the truck.  The first check made
    within the destination radius with every item placed sets the arrival
    latch, starts exactly one level completion and arms the auto-brake;
    every later check, wherever the truck is, changes nothing; and the frame
    that follows slows the truck whatever keys the player holds. *)
Theorem arrival_fires_once_and_brakes
    (d : Delivery) (t : Truck)
    (frameId : Z) (nowMs deltaTime : R) (inputEnabled : bool) (st : Store) :
  hasArrivedAtDestination d = false ->
  sqrt ((fst (destination d) - position_x t) * (fst (destination d) - position_x t)
        + (snd (destination d) - position_z t) * (snd (destination d) - position_z t))
    <= destinationRadius ->
  0 <= deltaTime ->
  let d1 := fst (checkDestinationArrival d true t) in
  let t1 := snd (checkDestinationArrival d true t) in
  let t2 := fst (updateDriving intersectsMesh newPhysicsAggregate frameId nowMs
                   deltaTime inputEnabled t1 st) in
  hasArrivedAtDestination d1 = true
  /\ completions d1 = S (completions d)
  /\ t1 = applyAutoBrake 0.7 t
  /\ checkDestinationArrival d false t = (d, t)
  /\ (forall allPlaced t', checkDestinationArrival d1 allPlaced t' = (d1, t'))
  /\ Rabs (speed t2) <= Rabs (speed t).
Proof.
  intros Hnot Hnear Hdt. cbv zeta.
  assert (E : checkDestinationArrival d true t
              = ({| hasArrivedAtDestination := true; destination := destination d;
                    completions := S (completions d) |},
                 applyAutoBrake 0.7 t)).
  { unfold checkDestinationArrival. rewrite Hnot.
    replace (JS.leb _ destinationRadius) with true
      by (symmetry; apply JSFacts.leb_true; exact Hnear).
    reflexivity. }
  rewrite E. cbn [fst snd hasArrivedAtDestination completions].
  split; [reflexivity |]. split; [reflexivity |]. split; [reflexivity |].
  split.
  { unfold checkDestinationArrival. rewrite Hnot.
    destruct (JS.leb _ destinationRadius); reflexivity. }
  split; [intros allPlaced t'; reflexivity |].
  set (t1 := applyAutoBrake 0.7 t).
  assert (Hdt' : 0 <= Rmin deltaTime 0.05 <= 0.05) by (minmax_cases; lra).
  assert (Hbrake : 0 < autoBrakeTimer (autoBrakeCountdown (Rmin deltaTime 0.05) t1)).
  { unfold autoBrakeCountdown, t1, applyAutoBrake. cbn.
    assert (0.7 <= Rmax (autoBrakeTimer t) 0.7) by apply Rmax_r.
    replace (JS.gtb (Rmax (autoBrakeTimer t) 0.7) 0) with true
      by (symmetry; apply JSFacts.gtb_true; lra).
    cbn. apply Rlt_le_trans with (Rmax (autoBrakeTimer t) 0.7 - Rmin deltaTime 0.05);
      [lra | apply Rmax_r]. }
  destruct (speedUpdate_slows (effectiveKeys inputEnabled t1) (Rmin deltaTime 0.05)
              t1 (proj1 Hdt') (or_intror (or_introl Hbrake))) as (Habs & _).
  pose proof (updateDriving_speed intersectsMesh newPhysicsAggregate frameId nowMs
                deltaTime inputEnabled t1 st) as Hs.
  cbv zeta in Hs.
  change (speed t1) with (speed t) in Habs.
  set (s1 := speed (speedUpdate (effectiveKeys inputEnabled t1)
                      (Rmin deltaTime 0.05) t1)) in *.
  destruct Hs as [-> | ->]; [exact Habs |].
  destruct (Rabs_cases s1) as [[? E1] | [? E1]]; rewrite E1 in Habs;
    [rewrite Rabs_pos_eq by lra | rewrite Rabs_left1 by lra]; lra.
Qed.

End ArrivalFacts.

Lemma arrival_fires_once_and_brakes_witness :
  hasArrivedAtDestination
    (fst (checkDestinationArrival (mkDelivery false (0, 0) 0) true crawlingTruck))
  = true.
Proof.
  refine (proj1 (arrival_fires_once_and_brakes alwaysHit
                   (fun _ _ => mkPhysicsAggregate None)
                   (mkDelivery false (0, 0) 0) crawlingTruck 1 0 0.016 true []
                   _ _ _)).
  - reflexivity.
  - cbn. replace ((0 - 0) * (0 - 0) + (0 - 0) * (0 - 0)) with 0 by ring.
    rewrite sqrt_0. unfold destinationRadius. lra.
  - lra.
Defined.

(** * Smaller helpers: CCD settings, wheel steering, stability score *)

(** X24.  The CCD settings of a box.  The motion threshold never exceeds
    0.1 m nor a quarter of any dimension of the box, and it is positive —
    CCD is on — exactly when the box has positive width, height and depth;
    the swept-sphere radius is at least 0.05 m, and beyond that floor at
    most 0.4 times any dimension. *)
Theorem ccd_threshold_positive_iff_box_is_solid (boxSize : Vec3) :
  let ccdThreshold := fst (applyCcdSettings boxSize) in
  let sweptRadius := snd (applyCcdSettings boxSize) in
  ccdThreshold <= 0.1
  /\ ccdThreshold <= vx boxSize * 0.25
  /\ ccdThreshold <= vy boxSize * 0.25
  /\ ccdThreshold <= vz boxSize * 0.25
  /\ (0 < ccdThreshold <-> 0 < vx boxSize /\ 0 < vy boxSize /\ 0 < vz boxSize)
  /\ 0.05 <= sweptRadius
  /\ sweptRadius <= Rmax 0.05 (vx boxSize * 0.4)
  /\ sweptRadius <= Rmax 0.05 (vy boxSize * 0.4)
  /\ sweptRadius <= Rmax 0.05 (vz boxSize * 0.4).
Proof.
  cbv zeta. unfold applyCcdSettings. cbn [fst snd].
  set (x := vx boxSize). set (y := vy boxSize). set (z := vz boxSize).
  minmax_cases; repeat split; intros; try lra;
    match goal with
    | H : _ /\ _ /\ _ |- _ => destruct H as (? & ? & ?); lra
    end.
Qed.

Lemma updateWheelSteering_error k angle :
  updateWheelSteering k angle - steerTarget k
  = 0.85 * ((match angle with Some a => a | None => 0 end) - steerTarget k).
Proof.
  unfold updateWheelSteering, steerTarget.
  destruct (key_a k); destruct (key_d k); lra.
Qed.

Lemma steerFor_error n k a :
  exists a', steerFor n k (Some a) = Some a'
    /\ a' - steerTarget k = 0.85 ^ n * (a - steerTarget k).
Proof.
  revert a. induction n as [| n IH]; intros a.
  - exists a. split; [reflexivity | cbn; lra].
  - cbn [steerFor].
    destruct (IH (updateWheelSteering k (Some a))) as (a' & E & H).
    exists a'. split; [exact E |].
    rewrite H, updateWheelSteering_error. cbn [pow]. ring.
Qed.

(** X25.  The front wheels ease towards the angle the keys ask for (30
    degrees right for D, 30 degrees left for A alone, straight otherwise):
    each update keeps 85 percent of the remaining error, so after [n] updates
    with the same keys the error is [0.85 ^ n] times what it was, and a steer
    angle within 30 degrees never leaves that range. *)
Theorem wheel_steering_converges (n : nat) (k : Keys) (a : R) :
  exists a',
    steerFor n k (Some a) = Some a'
    /\ a' - steerTarget k = 0.85 ^ n * (a - steerTarget k)
    /\ (Rabs a <= PI / 6 -> Rabs a' <= PI / 6).
Proof.
  destruct (steerFor_error n k a) as (a' & E & H).
  exists a'. split; [exact E |]. split; [exact H |].
  intros Ha. apply Rabs_le_between in Ha. apply Rabs_le.
  assert (Hp : 0 < 0.85 ^ n) by (apply pow_lt; lra).
  assert (Hq : 0.85 ^ n <= 1).
  { clear. induction n as [| n IH]; cbn; [lra |].
    assert (0 < 0.85 ^ n) by (apply pow_lt; lra). nra. }
  assert (Ht : - (PI / 6) <= steerTarget k <= PI / 6).
  { pose proof PI_RGT_0. unfold steerTarget.
    destruct (key_d k); [lra |]. destruct (key_a k); lra. }
  set (e := 0.85 ^ n) in *. set (tg := steerTarget k) in *.
  assert (Ea : a' = tg + e * (a - tg)) by lra.
  rewrite Ea. split; nra.
Qed.

Lemma round_range a : 0 <= a <= 100 -> (0 <= JS.round a <= 100)%Z.
Proof.
  intros Ha. pose proof (round_near a) as Hr.
  split.
  - apply le_IZR. 
    assert (H : -1 < IZR (JS.round a)) by lra.
    apply lt_IZR in H. apply IZR_le. lia.
  - assert (H : IZR (JS.round a) < 101) by lra.
    apply lt_IZR in H. lia.
Qed.

Lemma round_100 : JS.round 100 = 100%Z.
Proof.
  pose proof (round_near 100) as Hr.
  assert (H1 : IZR (JS.round 100) < 101) by lra.
  assert (H2 : 99 < IZR (JS.round 100)) by lra.
  apply lt_IZR in H1. apply lt_IZR in H2. lia.
Qed.

Lemma stable_plus_fallen (items : list Item) :
  (getStableItemCount items + getFallenCount items = length items)%nat.
Proof.
  unfold getStableItemCount, getFallenCount.
  induction items as [| it items IH]; [reflexivity |].
  cbn. destruct (isFallen it); cbn; lia.
Qed.

(** X26.  Stable and fallen items partition the placed items, so the
    stability score is a whole percentage between 0 and 100; it is 100 when
    nothing is placed and when nothing has fallen. *)
Theorem stability_is_a_percentage (placed : list Item) :
  (getStableItemCount placed + getFallenCount placed = length placed)%nat
  /\ (0 <= stability placed <= 100)%Z
  /\ (getFallenCount placed = 0%nat -> stability placed = 100%Z).
Proof.
  pose proof (stable_plus_fallen placed) as Hsum.
  split; [exact Hsum |].
  unfold stability.
  destruct (length placed) as [| n] eqn:El; cbn [Nat.ltb Nat.leb].
  - split; [lia | reflexivity].
  - assert (Hn : 0 < INR (S n)) by (apply lt_0_INR; lia).
    assert (Hs : 0 <= INR (getStableItemCount placed) <= INR (S n)).
    { split; [apply pos_INR | apply le_INR; lia]. }
    split.
    + apply round_range.
      set (s := INR (getStableItemCount placed)) in *. set (m := INR (S n)) in *.
      assert (Hq : 0 <= s / m <= 1).
      { split.
        - apply Rmult_le_reg_r with m; [exact Hn |].
          replace (s / m * m) with s by (field; lra). lra.
        - apply Rmult_le_reg_r with m; [exact Hn |].
          replace (s / m * m) with s by (field; lra). lra. }
      lra.
    + intros H0. rewrite H0, Nat.add_0_r in Hsum. rewrite Hsum.
      replace (INR (S n) / INR (S n) * 100) with 100 by (field; lra).
      apply round_100.
Qed.

(** * The loss latch across a round *)

Lemma latchedSince_refl g : latchedSince g g.
Proof.
  unfold latchedSince. destruct (fallOutTriggered g) eqn:E; [left | right];
    repeat split; lia.
Qed.

Lemma latchedSince_onItemFellOut g0 g :
  latchedSince g0 g -> latchedSince g0 (onItemFellOut g).
Proof.
  unfold latchedSince. intros H. left.
  rewrite onItemFellOut_latched, onItemFellOut_triggers.
  destruct H as [(Hl & H1 & H2) | (Hl & H0 & He)]; rewrite Hl.
  - repeat split; assumption.
  - rewrite H0, He. repeat split; lia.
Qed.

Lemma latchedSince_Game_update g0 g t st :
  latchedSince g0 g -> latchedSince g0 (fst (Game_update g t st)).
Proof.
  intros H. unfold Game_update.
  destruct (negb (isRunning g) || isPaused g); [exact H |].
  destruct (markFallen t (placedItems g) st) as [st' n].
  destruct (0 <? n)%nat; cbn [fst]; [apply latchedSince_onItemFellOut |]; exact H.
Qed.

Lemma latchedSince_checkFallenSteps g0 tb refs acc :
  latchedSince g0 (fst (fst acc)) ->
  latchedSince g0 (fst (fst (fold_left (checkFallenStep tb) refs acc))).
Proof.
  revert acc. induction refs as [| r refs IH]; intros acc H; [exact H |].
  cbn [fold_left]. apply IH.
  destruct acc as [[g st] n]. cbn [fst] in H. unfold checkFallenStep.
  destruct (nth_error st r) as [it |]; [| exact H].
  destruct (isFallen it); [exact H |].
  destruct (mesh it) as [m |]; [| exact H].
  destruct (fellAway tb (mesh_position m)); [| exact H].
  cbn [fst]. apply latchedSince_onItemFellOut. exact H.
Qed.

Section RoundLatchFacts.

Variable intersectsMesh : RootNode -> TruckMesh -> Obstacle -> bool.
Variable newPhysicsAggregate : Mesh -> PhysicsParams -> PhysicsAggregate.

Lemma latchedSince_roundStep g0 wd wd' :
  roundStep intersectsMesh newPhysicsAggregate wd wd' ->
  latchedSince g0 (w_game wd) -> latchedSince g0 (w_game wd').
Proof.
  intros Hstep H. destruct Hstep; cbn [w_game]; try exact H.
  - apply latchedSince_Game_update. exact H.
  - unfold checkFallenItems. apply latchedSince_checkFallenSteps. exact H.
Qed.

Lemma latchedSince_round g0 wd wd' :
  round intersectsMesh newPhysicsAggregate wd wd' ->
  latchedSince g0 (w_game wd) -> latchedSince g0 (w_game wd').
Proof.
  intros Hr. induction Hr as [| wd wd1 wd2 Hstep Hr IH]; intros H; auto.
  apply IH. eapply latchedSince_roundStep; eauto.
Qed.

(** X27.  The loss fires at most once per round.  Across any sequence of
    operations of a round — however many items fall, in however many
    frames, and whichever of the two reporting checks sees them — the loss
    trigger (error sound and loss screen) is pulled at most once, and not at
    all if the latch was already set; whenever it has been pulled the latch
    is set. *)
Theorem loss_fires_at_most_once_per_round (wd wd' : World) :
  round intersectsMesh newPhysicsAggregate wd wd' ->
  (lossTriggers (w_game wd) <= lossTriggers (w_game wd')
   <= lossTriggers (w_game wd) + 1)%nat
  /\ (fallOutTriggered (w_game wd) = true ->
      fallOutTriggered (w_game wd') = true
      /\ lossTriggers (w_game wd') = lossTriggers (w_game wd))
  /\ (lossTriggers (w_game wd') <> lossTriggers (w_game wd) ->
      fallOutTriggered (w_game wd') = true).
Proof.
  intros Hr.
  pose proof (latchedSince_round (w_game wd) wd wd' Hr (latchedSince_refl _)) as H.
  unfold latchedSince in H.
  destruct H as [(Hl & H1 & H2) | (Hl & H0 & He)].
  - destruct (fallOutTriggered (w_game wd)) eqn:E0.
    + repeat split; try lia; auto.
    + repeat split; try lia; auto; discriminate.
  - rewrite H0, He. repeat split; try lia; try discriminate.
Qed.

End RoundLatchFacts.

Lemma loss_fires_at_most_once_per_round_witness :
  (lossTriggers (runningGame [0%nat])
   <= lossTriggers (fst (Game_update (runningGame [0%nat]) loadedTruck [sunkBox]))
   <= lossTriggers (runningGame [0%nat]) + 1)%nat.
Proof.
  refine (proj1 (loss_fires_at_most_once_per_round alwaysHit
                   (fun _ _ => mkPhysicsAggregate None)
                   (mkWorld loadedTruck (runningGame [0%nat]) [sunkBox])
                   (mkWorld loadedTruck
                      (fst (Game_update (runningGame [0%nat]) loadedTruck [sunkBox]))
                      (snd (Game_update (runningGame [0%nat]) loadedTruck [sunkBox])))
                   _)).
  eapply round_then; [| apply round_here].
  exact (step_update alwaysHit (fun _ _ => mkPhysicsAggregate None)
           (mkWorld loadedTruck (runningGame [0%nat]) [sunkBox])).
Defined.

(** * What the reporting checks count *)

Lemma fallenCount_cons r refs st :
  getFallenCount (itemsOf (r :: refs) st)
  = (getFallenCount (itemsOf [r] st) + getFallenCount (itemsOf refs st))%nat.
Proof.
  unfold getFallenCount, itemsOf. cbn [flat_map]. rewrite app_nil_r.
  rewrite filter_app, length_app. reflexivity.
Qed.

Lemma fallenCount_agree refs st st1 :
  (forall i, In i refs -> nth_error st1 i = nth_error st i) ->
  getFallenCount (itemsOf refs st1) = getFallenCount (itemsOf refs st).
Proof.
  induction refs as [| r refs IH]; intros H; [reflexivity |].
  rewrite !(fallenCount_cons r refs).
  rewrite IH by (intros i Hi; apply H; right; exact Hi).
  unfold getFallenCount, itemsOf. cbn [flat_map].
  rewrite (H r (or_introl eq_refl)). reflexivity.
Qed.

Lemma markWhen_other mark acc r i :
  i <> r -> nth_error (fst (markWhen mark acc r)) i = nth_error (fst acc) i.
Proof.
  intros Hne. unfold markWhen.
  destruct (nth_error (fst acc) r) as [it |]; [| reflexivity].
  destruct (mark it); [| reflexivity].
  cbn [fst]. apply storeSet_other. auto.
Qed.

Lemma markWhen_outside mark refs acc i :
  ~ In i refs ->
  nth_error (fst (fold_left (markWhen mark) refs acc)) i = nth_error (fst acc) i.
Proof.
  revert acc. induction refs as [| r refs IH]; intros acc Hi; [reflexivity |].
  cbn [fold_left]. rewrite IH by (intros H; apply Hi; right; exact H).
  apply markWhen_other. intros ->. apply Hi. left. reflexivity.
Qed.

Lemma markWhen_counts mark acc r :
  (forall it, mark it = true -> isFallen it = false) ->
  (getFallenCount (itemsOf [r] (fst (markWhen mark acc r))) + snd acc
   = getFallenCount (itemsOf [r] (fst acc)) + snd (markWhen mark acc r))%nat.
Proof.
  intros Hmark. unfold markWhen.
  destruct (nth_error (fst acc) r) as [it |] eqn:E; [| reflexivity].
  destruct (mark it) eqn:M; [| reflexivity].
  cbn [fst snd]. unfold getFallenCount, itemsOf. cbn [flat_map].
  rewrite storeSet_same by (eapply nth_error_in_range; eauto).
  rewrite E. cbn. rewrite (Hmark it M). cbn. lia.
Qed.

Lemma markWhen_fold_counts mark refs acc :
  (forall it, mark it = true -> isFallen it = false) ->
  NoDup refs ->
  (getFallenCount (itemsOf refs (fst (fold_left (markWhen mark) refs acc)))
   + snd acc
   = getFallenCount (itemsOf refs (fst acc))
     + snd (fold_left (markWhen mark) refs acc))%nat.
Proof.
  intros Hmark. revert acc.
  induction refs as [| r refs IH]; intros acc Hnd; [cbn; lia |].
  inversion Hnd as [| r' refs' Hnotin Hnd']; subst.
  cbn [fold_left].
  set (acc1 := markWhen mark acc r).
  specialize (IH acc1 Hnd').
  set (res := fold_left (markWhen mark) refs acc1) in *.
  rewrite !(fallenCount_cons r refs).
  assert (Er : getFallenCount (itemsOf [r] (fst res))
               = getFallenCount (itemsOf [r] (fst acc1))).
  { apply fallenCount_agree. intros i [<- | []].
    apply markWhen_outside. exact Hnotin. }
  assert (Erest : getFallenCount (itemsOf refs (fst acc1))
                  = getFallenCount (itemsOf refs (fst acc))).
  { apply fallenCount_agree. intros i Hi. apply markWhen_other.
    intros ->. contradiction. }
  pose proof (markWhen_counts mark acc r Hmark) as Hstep. fold acc1 in Hstep.
  lia.
Qed.

Lemma markStep_markWhen t acc i :
  markStep t acc i = markWhen (newlyFallenItem t) acc i.
Proof. reflexivity. Qed.

Lemma markFallen_markWhen t refs acc :
  fold_left (markStep t) refs acc = fold_left (markWhen (newlyFallenItem t)) refs acc.
Proof.
  revert acc. induction refs as [| r refs IH]; intros acc; [reflexivity |].
  cbn [fold_left]. rewrite IH. reflexivity.
Qed.

Lemma newlyFallenItem_not_fallen t it :
  newlyFallenItem t it = true -> isFallen it = false.
Proof.
  unfold newlyFallenItem. destruct (mesh it); [| discriminate].
  destruct (isFallen it); [discriminate | reflexivity].
Qed.

Lemma fellAwayItem_not_fallen tb it :
  fellAwayItem tb it = true -> isFallen it = false.
Proof.
  unfold fellAwayItem. destruct (isFallen it); [discriminate | reflexivity].
Qed.

(** The loop of [checkFallenItems], split into the marking and the
    callbacks. *)
Lemma checkFallenSteps_split tb refs g st n :
  let marked := fold_left (markWhen (fellAwayItem tb)) refs (st, n) in
  fold_left (checkFallenStep tb) refs (g, st, n)
  = (callbacks (snd marked - n) g, fst marked, snd marked)
  /\ (n <= snd marked)%nat.
Proof.
  cbv zeta. revert g st n.
  induction refs as [| r refs IH]; intros g st n.
  - cbn. rewrite Nat.sub_diag. split; [reflexivity | lia].
  - cbn [fold_left].
    assert (Estep : checkFallenStep tb (g, st, n) r
                    = (callbacks (snd (markWhen (fellAwayItem tb) (st, n) r) - n) g,
                       fst (markWhen (fellAwayItem tb) (st, n) r),
                       snd (markWhen (fellAwayItem tb) (st, n) r))
                      /\ (n <= snd (markWhen (fellAwayItem tb) (st, n) r) <= S n)%nat).
    { unfold checkFallenStep, markWhen, fellAwayItem. cbn [fst snd].
      destruct (nth_error st r) as [it |]; cbn [fst snd];
        [| rewrite Nat.sub_diag; split; [reflexivity | lia]].
      destruct (isFallen it); cbn [negb andb fst snd];
        [rewrite Nat.sub_diag; split; [reflexivity | lia] |].
      destruct (mesh it) as [m |]; cbn [fst snd];
        [| rewrite Nat.sub_diag; split; [reflexivity | lia]].
      destruct (fellAway tb (mesh_position m)); cbn [fst snd].
      - replace (S n - n)%nat with 1%nat by lia. split; [reflexivity | lia].
      - rewrite Nat.sub_diag. split; [reflexivity | lia]. }
    destruct Estep as [Estep Hn1]. rewrite Estep.
    set (acc1 := markWhen (fellAwayItem tb) (st, n) r) in *.
    destruct (IH (callbacks (snd acc1 - n) g) (fst acc1) (snd acc1)) as [E Hle].
    assert (Eacc : (fst acc1, snd acc1) = acc1) by (destruct acc1; reflexivity).
    rewrite Eacc in E, Hle. rewrite E.
    set (res := fold_left (markWhen (fellAwayItem tb)) refs acc1) in *.
    split; [| lia].
    f_equal. f_equal.
    assert (Hcases : snd acc1 = n \/ snd acc1 = S n) by lia.
    destruct Hcases as [E1 | E1]; rewrite E1 in *.
    + rewrite Nat.sub_diag. reflexivity.
    + replace (S n - n)%nat with 1%nat by lia. cbn [callbacks].
      replace (snd res - n)%nat with (S (snd res - S n)) by lia.
      cbn [callbacks]. clear.
      generalize (snd res - S n)%nat as k.
      induction k as [| k IHk]; [reflexivity |]. cbn [callbacks]. rewrite IHk.
      reflexivity.
Qed.

Lemma callbacks_calls n g : callbackCalls (callbacks n g) = (callbackCalls g + n)%nat.
Proof.
  induction n as [| n IH]; cbn [callbacks]; [lia |].
  rewrite onItemFellOut_calls, IH. lia.
Qed.

(** X28.  Both reporting checks count exactly what they mark.  Over a list
    of distinct items, the number [checkFallenItems] returns and the value of
    [newlyFallen] in [Game.update] are each the increase of the number of
    fallen items among them; [checkFallenItems] invokes the fall-out
    callback once per newly marked item, and neither loop touches an item
    outside its list. *)
Theorem fallen_checks_count_what_they_mark
    (tb : option TruckBounds) (t : Truck) (refs : list nat) (g : Game) (st : Store) :
  NoDup refs ->
  let checked := checkFallenItems tb refs g st in
  let marked := markFallen t refs st in
  (getFallenCount (itemsOf refs (snd (fst checked)))
   = getFallenCount (itemsOf refs st) + snd checked)%nat
  /\ callbackCalls (fst (fst checked)) = (callbackCalls g + snd checked)%nat
  /\ (getFallenCount (itemsOf refs (fst marked))
      = getFallenCount (itemsOf refs st) + snd marked)%nat
  /\ (forall i, ~ In i refs ->
        nth_error (snd (fst checked)) i = nth_error st i
        /\ nth_error (fst marked) i = nth_error st i).
Proof.
  intros Hnd. cbv zeta. unfold checkFallenItems, markFallen.
  destruct (checkFallenSteps_split tb refs g st 0) as [E _]. cbv zeta in E.
  rewrite E. cbn [fst snd]. rewrite Nat.sub_0_r.
  rewrite markFallen_markWhen.
  pose proof (markWhen_fold_counts (fellAwayItem tb) refs (st, 0%nat)
                (fellAwayItem_not_fallen tb) Hnd) as H1.
  pose proof (markWhen_fold_counts (newlyFallenItem t) refs (st, 0%nat)
                (newlyFallenItem_not_fallen t) Hnd) as H2.
  cbn [fst snd] in H1, H2.
  split; [lia |]. split; [apply callbacks_calls |]. split; [lia |].
  intros i Hi. split.
  - apply (markWhen_outside (fellAwayItem tb) refs (st, 0%nat) i Hi).
  - apply (markWhen_outside (newlyFallenItem t) refs (st, 0%nat) i Hi).
Qed.

Lemma fallen_checks_count_what_they_mark_witness :
  (getFallenCount (itemsOf [0%nat] (fst (markFallen loadedTruck [0%nat] [sunkBox])))
   = getFallenCount (itemsOf [0%nat] [sunkBox])
     + snd (markFallen loadedTruck [0%nat] [sunkBox]))%nat.
Proof.
  refine (proj1 (proj2 (proj2 (fallen_checks_count_what_they_mark None loadedTruck
                                 [0%nat] (runningGame [0%nat]) [sunkBox] _)))).
  constructor; [intros [] | constructor].
Defined.

(** * The post-step pass and the game's fallen check *)

Lemma teleportInside_height p nowMs lx lz it :
  vy (meshPos (teleportInside p nowMs lx lz it)) = vy (meshPos it).
Proof. destruct_item it; reflexivity. Qed.

(** On an item it does not skip, the post-step pass ends by marking the
    item exactly when the "way outside" test holds at the pose it found. *)
Lemma enforceItem_marks t nowRestore nowTeleport it :
  skippedByEnforce it = false ->
  isFallen (enforceItem (postStepOf t) nowRestore nowTeleport it)
  = wayOutsideItem t it.
Proof.
  intros Hskip. unfold wayOutsideItem.
  unfold enforceItem. rewrite Hskip. cbv zeta.
  set (p := postStepOf t).
  set (it1 := restoreItemMotionType nowRestore it).
  destruct (restore_observed nowRestore it) as (Hp1 & Hs1 & _ & _).
  destruct (skipped_restore nowRestore it) as (Hk1 & _).
  fold it1 in Hp1, Hs1, Hk1.
  set (it2 := withBody (fun b => capAngular (capLinearPost p b)) it1).
  destruct (withBody_observed (fun b => capAngular (capLinearPost p b)) it1)
    as (Hp2 & Hs2 & _).
  destruct (skipped_withBody (fun b => capAngular (capLinearPost p b)) it1)
    as (Hk2 & _).
  fold it2 in Hp2, Hs2, Hk2.
  rewrite Hp1 in Hp2. rewrite Hs1 in Hs2. rewrite Hk1, Hskip in Hk2.
  rewrite (halfExtentX_size 0.3 it it2 Hs2), (halfExtentZ_size 0.3 it it2 Hs2).
  rewrite Hp2.
  unfold itemLocalX, itemLocalZ. fold p. change (post_truck p) with t.
  set (lx := localXOf t (post_cos p) (post_sin p) (meshPos it)).
  set (lz := localZOf t (post_cos p) (post_sin p) (meshPos it)).
  set (it3 := set_localY (Some (vy (meshPos it)))
                (set_localZ (Some lz) (set_localX (Some lx) it2))).
  assert (H3 : meshPos it3 = meshPos it /\ isFallen it3 = false).
  { destruct (tracked_observed (Some lx) (Some lz) (Some (vy (meshPos it))) it2)
      as (A & _ & _).
    fold it3 in A. rewrite A. split; [exact Hp2 |].
    change (isFallen it2 = false). apply skipped_not_fallen. exact Hk2. }
  destruct H3 as (Hp3 & Hf3).
  destruct (snapLocalX (halfExtentX 0.3 it) lx) as [nlx cx].
  destruct (snapLocalZ (halfExtentZ 0.3 it) lz) as [nlz cz].
  set (it4 := if (cx || cz)
                 && match bodyOf it with Some _ => true | None => false end
              then teleportInside p nowTeleport nlx nlz it3 else it3).
  assert (H4 : vy (meshPos it4) = vy (meshPos it) /\ isFallen it4 = false).
  { unfold it4. destruct ((cx || cz) && _).
    - rewrite teleportInside_height, isFallen_teleportInside, Hp3. auto.
    - rewrite Hp3. auto. }
  destruct H4 as (Hy4 & Hf4).
  rewrite Hy4, Hf4. cbn [negb]. rewrite andb_true_r.
  destruct (wayOutside _ _ lx lz _); [reflexivity | exact Hf4].
Qed.

Lemma wayOutside_fellOut t it :
  isParented it = false -> sizeNonNegative it ->
  wayOutsideItem t it = true -> fellOut t it = true.
Proof.
  intros Hpar Hsize. unfold wayOutsideItem, wayOutside, fellOut. cbv zeta.
  rewrite Hpar. unfold itemLocalX, itemLocalZ. cbn [post_cos post_sin postStepOf].
  set (lx := localXOf t (cos (- rotation t)) (sin (- rotation t)) (meshPos it)).
  set (lz := localZOf t (cos (- rotation t)) (sin (- rotation t)) (meshPos it)).
  unfold sizeNonNegative, halfExtentX, halfExtentZ in *.
  unfold outerHalfX, outerFrontZ, outerBackZ, fallFloorY, floorTopY,
    cargoWidth, cargoLength.
  intros H.
  assert (Hx : 0 <= match size it with Some sz => vx sz / 2 | None => 0.3 end).
  { destruct (size it); [| lra]. lra. }
  assert (Hz : 0 <= match size it with Some sz => vz sz / 2 | None => 0.3 end).
  { destruct (size it); [| lra]. lra. }
  assert (Hh : 0 <= match size it with Some sz => vy sz / 2 | None => 0.3 end).
  { destruct (size it); [| lra]. lra. }
  set (hx := match size it with Some sz => vx sz / 2 | None => 0.3 end) in *.
  set (hz := match size it with Some sz => vz sz / 2 | None => 0.3 end) in *.
  set (hh := match size it with Some sz => vy sz / 2 | None => 0.3 end) in *.
  apply orb_true_iff in H. destruct H as [H | H];
    [apply orb_true_iff in H; destruct H as [H | H];
       [apply orb_true_iff in H; destruct H as [H | H] |] |].
  - apply JSFacts.gtb_true in H.
    apply orb_true_iff. right. apply orb_true_iff. left. apply orb_true_iff. left.
    apply JSFacts.gtb_true. lra.
  - apply JSFacts.ltb_true in H.
    apply orb_true_iff. right. apply orb_true_iff. left. apply orb_true_iff. right.
    apply JSFacts.ltb_true. lra.
  - apply JSFacts.gtb_true in H.
    apply orb_true_iff. right. apply orb_true_iff. right.
    apply JSFacts.gtb_true. lra.
  - apply JSFacts.ltb_true in H.
    apply orb_true_iff. left. apply JSFacts.ltb_true. lra.
Qed.

(** X29.  The post-step pass can swallow a loss.  Whatever the pass marks
    as fallen — an unparented item it does not skip, way outside the bed or
    below the floor — the game's fallen check would have marked and
    reported at the same pose; but once the pass has set the flag, the
    game's check skips the item, and a game update on it reports
    nothing. *)
Theorem post_step_mark_is_never_reported
    (t : Truck) (nowRestore nowTeleport : R) (it : Item) (g : Game) :
  skippedByEnforce it = false ->
  isParented it = false ->
  sizeNonNegative it ->
  wayOutsideItem t it = true ->
  let marked := enforceItem (postStepOf t) nowRestore nowTeleport it in
  newlyFallenItem t it = true
  /\ isFallen marked = true
  /\ newlyFallenItem t marked = false
  /\ Game_update (withPlacedItems [0%nat] g) t [marked]
     = (withPlacedItems [0%nat] g, [marked]).
Proof.
  intros Hskip Hpar Hsize Hway. cbv zeta.
  pose proof (enforceItem_marks t nowRestore nowTeleport it Hskip) as Hm.
  rewrite Hway in Hm.
  assert (Hnew : newlyFallenItem t it = true).
  { unfold newlyFallenItem.
    unfold skippedByEnforce in Hskip.
    destruct (mesh it); [| discriminate].
    apply orb_false_iff in Hskip. destruct Hskip as [Hf _]. rewrite Hf.
    cbn [negb andb]. apply wayOutside_fellOut; assumption. }
  assert (Hold : newlyFallenItem t
                   (enforceItem (postStepOf t) nowRestore nowTeleport it) = false)
    by (apply newlyFallenItem_skips_fallen; exact Hm).
  split; [exact Hnew |]. split; [exact Hm |]. split; [exact Hold |].
  unfold Game_update.
  destruct (negb (isRunning (withPlacedItems [0%nat] g))
            || isPaused (withPlacedItems [0%nat] g)); [reflexivity |].
  unfold markFallen. cbn [placedItems withPlacedItems fold_left].
  unfold markStep. cbn [fst snd nth_error]. rewrite Hold. reflexivity.
Qed.

Lemma flungBox_wayOutside : wayOutsideItem loadedTruck flungBox = true.
Proof.
  unfold wayOutsideItem, wayOutside, itemLocalX, itemLocalZ, localXOf, localZOf.
  cbn. rewrite Ropp_0, cos_0, sin_0.
  replace (JS.gtb (Rabs ((-5 - 0) * 1 + (0 - 0) * 0)) (outerHalfX + 0.4 / 2))
    with true; [reflexivity |].
  symmetry. apply JSFacts.gtb_true.
  unfold outerHalfX, cargoWidth. rewrite Rabs_left1; lra.
Qed.

Lemma post_step_mark_is_never_reported_witness :
  isFallen (enforceItem (postStepOf loadedTruck) 0 0 flungBox) = true.
Proof.
  refine (proj1 (proj2 (post_step_mark_is_never_reported loadedTruck 0 0 flungBox
                          (runningGame []) _ _ _ _))).
  - unfold skippedByEnforce. cbn. rewrite truthy_zero. reflexivity.
  - reflexivity.
  - cbn. lra.
  - exact flungBox_wayOutside.
Defined.

(** * Texture coordinates *)

(** X30.  [Coords.worldToCanvas] and [Coords.canvasToWorld] are inverse to
    each other for a tile and a texture of non-zero size; the tile centre is
    drawn at the centre of the texture and the tile's north-west corner at
    the canvas origin. *)
Theorem canvas_world_round_trip
    (x y tileSize texSize tileCenterX tileCenterZ : R) :
  tileSize <> 0 -> texSize <> 0 ->
  let toCanvas := worldToCanvas x y tileSize texSize tileCenterX tileCenterZ in
  let toWorld := canvasToWorld x y tileSize texSize tileCenterX tileCenterZ in
  canvasToWorld (fst toCanvas) (snd toCanvas) tileSize texSize tileCenterX tileCenterZ
    = (x, y)
  /\ worldToCanvas (fst toWorld) (snd toWorld) tileSize texSize tileCenterX tileCenterZ
     = (x, y)
  /\ worldToCanvas tileCenterX tileCenterZ tileSize texSize tileCenterX tileCenterZ
     = (texSize / 2, texSize / 2)
  /\ worldToCanvas (tileCenterX - tileSize / 2) (tileCenterZ + tileSize / 2)
       tileSize texSize tileCenterX tileCenterZ
     = (0, 0).
Proof.
  intros Ht Hx. cbv zeta. unfold worldToCanvas, canvasToWorld. cbn [fst snd].
  repeat split; f_equal; field; auto.
Qed.

Lemma canvas_world_round_trip_witness :
  canvasToWorld (fst (worldToCanvas 10 20 50 512 0 0))
                (snd (worldToCanvas 10 20 50 512 0 0)) 50 512 0 0
  = (10, 20).
Proof.
  refine (proj1 (canvas_world_round_trip 10 20 50 512 0 0 _ _)); lra.
Defined.
